(** * The job-monitor control panel: backend (index.js) and client session (App)

    A shallow embedding of the Express/WebSocket backend and of the
    reconnection logic of the React client, with the properties of the
    event broadcast channel, the control service and the client session. *)

From Stdlib Require Import ZArith NArith List String Ascii Bool Lia DecimalString.
From stdpp Require Import base option list strings gmap.
Import ListNotations.

Local Open Scope Z_scope.

(** ** JavaScript values used by the program *)

Module Js.

(** A JavaScript string is a sequence of UTF-16 code units. *)
Abbreviation jsstring := (list N).

Definition lit (s : string) : jsstring :=
  List.map N_of_ascii (list_ascii_of_string s).

(** [Number.prototype.toString] on a non-negative integer. *)
Definition ofNat (n : nat) : jsstring :=
  lit (NilZero.string_of_uint (Nat.to_uint n)).

Definition ofZ (z : Z) : jsstring :=
  lit (NilZero.string_of_int (Z.to_int z)).

(** WhiteSpace and LineTerminator code points, the ones [trim] strips. *)
Definition isWhiteSpace (c : N) : bool :=
  ((0x09 <=? c) && (c <=? 0x0D) || (c =? 0x20) || (c =? 0xA0) || (c =? 0x1680)
   || (0x2000 <=? c) && (c <=? 0x200A)
   || (c =? 0x2028) || (c =? 0x2029) || (c =? 0x202F) || (c =? 0x205F)
   || (c =? 0x3000) || (c =? 0xFEFF))%N.

Fixpoint trimStart (s : jsstring) : jsstring :=
  match s with
  | c :: t => if isWhiteSpace c then trimStart t else s
  | [] => []
  end.

Definition trimEnd (s : jsstring) : jsstring := rev (trimStart (rev s)).

Definition trim (s : jsstring) : jsstring := trimEnd (trimStart s).

Fixpoint startsWith (s p : jsstring) : bool :=
  match p, s with
  | [], _ => true
  | _ :: _, [] => false
  | a :: p', b :: s' => (a =? b)%N && startsWith s' p'
  end.

Fixpoint includes (s p : jsstring) : bool :=
  startsWith s p ||
  match s with
  | [] => false
  | _ :: t => includes t p
  end.

(** [Array.prototype.join] on an array of strings. *)
Fixpoint join (sep : jsstring) (l : list jsstring) : jsstring :=
  match l with
  | [] => []
  | [x] => x
  | x :: t => x ++ sep ++ join sep t
  end.

(** A thrown value: the name of its constructor and its message. *)
Record Error := mkError { errName : jsstring; errMessage : jsstring }.

(** [Error.prototype.toString]. *)
Definition errorToString (e : Error) : jsstring :=
  match errName e, errMessage e with
  | [], m => m
  | n, [] => n
  | n, m => n ++ lit ": " ++ m
  end.

(** A value handed to the logging functions: a string, or another value
    seen through the two conversions the program applies to it,
    [String(v)] and [JSON.stringify(v)]. *)
Inductive Value :=
| VStr (s : jsstring)
| VObj (asString : jsstring) (asJSON : jsstring).

Definition toString (v : Value) : jsstring :=
  match v with
  | VStr s => s
  | VObj s _ => s
  end.

(** An [Error] object has no enumerable own property. *)
Definition ofError (e : Error) : Value := VObj (errorToString e) (lit "{}").

(** Completion of a statement: normal, or abrupt with a thrown value. *)
Inductive Completion (A : Type) :=
| Normal (a : A)
| Throw (e : Error).
Arguments Normal {A} a.
Arguments Throw {A} e.

#[global] Instance completion_ret : MRet Completion := fun A a => Normal a.

#[global] Instance completion_bind : MBind Completion := fun A B k c =>
  match c with
  | Normal a => k a
  | Throw e => Throw e
  end.

(** A computation over the program state [St]: it ends normally with a
    value or abruptly with a thrown value; what it did to the state before
    throwing stays done. *)
Definition Eff (St A : Type) : Type := St -> Completion A * St.

#[global] Instance eff_ret {St} : MRet (Eff St) := fun A a s => (Normal a, s).

#[global] Instance eff_bind {St} : MBind (Eff St) := fun A B k m s =>
  match m s with
  | (Normal a, s') => k a s'
  | (Throw e, s') => (Throw e, s')
  end.

Definition gets {St A} (f : St -> A) : Eff St A := fun s => (Normal (f s), s).

Definition modify {St} (f : St -> St) : Eff St unit := fun s => (Normal tt, f s).

Definition throw {St A} (e : Error) : Eff St A := fun s => (Throw e, s).

(** [try { body } catch (err) { handler }]. *)
Definition tryCatch {St A} (body : Eff St A) (handler : Error -> Eff St A)
  : Eff St A := fun s =>
  match body s with
  | (Normal a, s') => (Normal a, s')
  | (Throw e, s') => handler e s'
  end.

(** [forEach] over the elements in order; an exception leaving the
    callback ends the iteration and leaves [forEach]. *)
Fixpoint forEach {St A} (f : A -> Eff St unit) (l : list A) : Eff St unit :=
  match l with
  | [] => mret tt
  | x :: t => f x ;; forEach f t
  end.

(** The state a computation leaves behind, however it ended. *)
Definition exec {St A} (m : Eff St A) (s : St) : St := snd (m s).

Definition returns {St A} (m : Eff St A) (s : St) : Prop :=
  exists a, fst (m s) = Normal a.

(** [m] always ends normally. *)
Definition total {St A} (m : Eff St A) : Prop :=
  forall s, returns m s.

(** [m] leaves the observation [f] of the state as it was. *)
Definition keeps {St A B} (f : St -> B) (m : Eff St A) : Prop :=
  forall s, f (exec m s) = f s.

End Js.

Import Js.

(** ** The backend: index.js *)

Module Backend.

(** The marker of messages that must not be mirrored again. *)
Definition BROADCAST : jsstring := lit "[BROADCAST]".

(** What [JSON.stringify] is applied to before [send]. *)
Inductive Frame :=
| LogFrame (log : jsstring)
| HeartbeatResponse.

(** [readyState] of the ws library. *)
Definition CONNECTING : Z := 0.
Definition OPEN : Z := 1.
Definition CLOSING : Z := 2.
Definition CLOSED : Z := 3.

(** A server-side WebSocket object. [isAlive] is the property the
    connection handler adds ([None] while it is not set); [sendFault] is the
    exception the transport raises when [send] is called, if it raises
    one; [outbox] the frames handed to the transport, [pings] the pings
    sent. *)
Record Socket := mkSocket {
  readyState : Z;
  isAlive : option bool;
  sendFault : option Error;
  outbox : list Frame;
  pings : nat }.

(** The configuration object built by the start route. *)
Record Config := mkConfig {
  USER_DATA_DIR : jsstring;
  CHROME_PROFILES : list jsstring;
  REFRESH_INTERVAL : Z;
  TARGET_JOBS : list jsstring;
  AMAZON_JOBS_URL : jsstring }.

(** Modelled from the spec: the worker process handle of
    ./src/monitorJobs.js, which is not among the sources. Its run state is
    one boolean that only start and stop change; [launched] lists the
    configurations it was started with, latest first. *)
Record Worker := mkWorker {
  isRunning : bool;
  launched : list Config }.

(** The process: the heap of socket objects, the set [clients] and the
    library's own [wss.clients] (both in insertion order, holding
    references into the heap), the sockets whose close event the library
    still has to emit, the two original console streams (one entry per
    call, with its arguments), and the worker. *)
Record Server := mkServer {
  heap : gmap nat Socket;
  nextSocket : nat;
  clients : list nat;
  wssClients : list nat;
  closing : list nat;
  stdout : list (list Value);
  stderr : list (list Value);
  worker : Worker }.

Definition withHeap (h : gmap nat Socket) (s : Server) : Server :=
  mkServer h (nextSocket s) (clients s) (wssClients s) (closing s)
           (stdout s) (stderr s) (worker s).

Definition withNextSocket (n : nat) (s : Server) : Server :=
  mkServer (heap s) n (clients s) (wssClients s) (closing s)
           (stdout s) (stderr s) (worker s).

Definition withClients (c : list nat) (s : Server) : Server :=
  mkServer (heap s) (nextSocket s) c (wssClients s) (closing s)
           (stdout s) (stderr s) (worker s).

Definition withWssClients (c : list nat) (s : Server) : Server :=
  mkServer (heap s) (nextSocket s) (clients s) c (closing s)
           (stdout s) (stderr s) (worker s).

Definition withClosing (c : list nat) (s : Server) : Server :=
  mkServer (heap s) (nextSocket s) (clients s) (wssClients s) c
           (stdout s) (stderr s) (worker s).

Definition withStdout (o : list (list Value)) (s : Server) : Server :=
  mkServer (heap s) (nextSocket s) (clients s) (wssClients s) (closing s)
           o (stderr s) (worker s).

Definition withStderr (o : list (list Value)) (s : Server) : Server :=
  mkServer (heap s) (nextSocket s) (clients s) (wssClients s) (closing s)
           (stdout s) o (worker s).

Definition withWorker (w : Worker) (s : Server) : Server :=
  mkServer (heap s) (nextSocket s) (clients s) (wssClients s) (closing s)
           (stdout s) (stderr s) w.

(** [Set.prototype.add] and [Set.prototype.delete]. *)
Definition setAdd (x : nat) (l : list nat) : list nat :=
  if bool_decide (x ∈ l) then l else l ++ [x].

Definition setDelete (x : nat) (l : list nat) : list nat :=
  List.filter (fun y => negb (Nat.eqb x y)) l.

(** *** The console the process started with *)

Definition originalConsoleLog (args : list Value) : Eff Server unit :=
  modify (fun s => withStdout (stdout s ++ [args]) s).

Definition originalConsoleError (args : list Value) : Eff Server unit :=
  modify (fun s => withStderr (stderr s ++ [args]) s).

(** *** Operations of the ws library on a socket object *)

Definition updateSocket (ws : nat) (f : Socket -> Socket) : Eff Server unit :=
  modify (fun s => withHeap (alter f ws (heap s)) s).

Definition readField {A} (ws : nat) (f : Socket -> A) (dflt : A) : Eff Server A :=
  gets (fun s => from_option f dflt (heap s !! ws)).

(** [ws.send(data)]: raises the transport's fault if there is one;
    otherwise hands the frame to the transport of an open socket, and
    drops it once the socket is closing or closed. *)
Definition send (ws : nat) (frame : Frame) : Eff Server unit :=
  fault ← readField ws sendFault None;
  match fault with
  | Some e => throw e
  | None =>
      state ← readField ws readyState CLOSED;
      if state =? OPEN then
        updateSocket ws (fun k =>
          mkSocket (readyState k) (isAlive k) (sendFault k) (outbox k ++ [frame]) (pings k))
      else mret tt
  end.

(** [ws.ping()] on a socket the server was handed, which is open or past
    it: a ping on a socket that is no longer open is dropped. *)
Definition ping (ws : nat) : Eff Server unit :=
  state ← readField ws readyState CLOSED;
  if state =? OPEN then
    updateSocket ws (fun k =>
      mkSocket (readyState k) (isAlive k) (sendFault k) (outbox k) (S (pings k)))
  else mret tt.

(** [ws.terminate()]: destroys the connection; the socket is closing and
    the library will emit its close event. *)
Definition terminate (ws : nat) : Eff Server unit :=
  state ← readField ws readyState CLOSED;
  if state =? CLOSED then mret tt
  else
    updateSocket ws (fun k =>
      mkSocket CLOSING (isAlive k) (sendFault k) (outbox k) (pings k)) ;;
    modify (fun s => withClosing (setAdd ws (closing s)) s).

Definition setIsAlive (ws : nat) (b : bool) : Eff Server unit :=
  updateSocket ws (fun k =>
    mkSocket (readyState k) (Some b) (sendFault k) (outbox k) (pings k)).

(** *** broadcastLog and the console overrides *)

Definition logText (message : Value) : jsstring :=
  match message with
  | VStr s => s
  | VObj _ json => json
  end.

(** The callback of [clients.forEach] in [broadcastLog]. *)
Definition sendTo (logMessage : jsstring) (client : nat) : Eff Server unit :=
  state ← readField client readyState CLOSED;
  if state =? 1 then
    tryCatch (send client (LogFrame logMessage))
      (fun err =>
         originalConsoleError
           [VStr (lit "[BROADCAST] Error sending to client:"); ofError err])
  else mret tt.

Definition broadcastLog (message : Value) : Eff Server unit :=
  let logMessage := logText message in
  (if negb (includes logMessage BROADCAST)
   then originalConsoleLog [VStr logMessage]
   else mret tt) ;;
  subscribers ← gets clients;
  forEach (sendTo logMessage) subscribers.

Definition console_log (args : list Value) : Eff Server unit :=
  originalConsoleLog args ;;
  let message := join (lit " ") (List.map toString args) in
  if negb (includes message BROADCAST)
  then broadcastLog (VStr message)
  else mret tt.

Definition console_error (args : list Value) : Eff Server unit :=
  originalConsoleError args ;;
  let message := join (lit " ") (List.map toString args) in
  if negb (includes message BROADCAST)
  then broadcastLog (VStr (lit "ERROR: " ++ message))
  else mret tt.

(** *** Socket events *)

(** The library accepts a connection: a new open socket object, a member
    of [wss.clients], is passed to the connection handler. *)
Definition accept (fault : option Error) : Eff Server nat :=
  ws ← gets nextSocket;
  modify (fun s =>
    withNextSocket (S ws)
      (withWssClients (setAdd ws (wssClients s))
         (withHeap (<[ws := mkSocket OPEN None fault [] 0]> (heap s)) s))) ;;
  mret ws.

Definition onPong (ws : nat) : Eff Server unit :=
  setIsAlive ws true.

(** A message of a client, as the message handler sees it: [JSON.parse]
    or the access to [data.type] throws, or [data.type] is read ([None]
    when it is not a string). *)
Inductive ClientMessage :=
| Malformed (err : Error)
| Parsed (type : option jsstring).

Definition onMessage (ws : nat) (message : ClientMessage) : Eff Server unit :=
  tryCatch
    match message with
    | Malformed err => throw err
    | Parsed type =>
        if bool_decide (type = Some (lit "heartbeat"))
        then send ws HeartbeatResponse
        else mret tt
    end
    (fun err =>
       originalConsoleError
         [VStr (lit "[BROADCAST] Error parsing client message:"); ofError err]).

Definition onError (ws : nat) (error : Error) : Eff Server unit :=
  originalConsoleError [VStr (lit "[BROADCAST] WebSocket error:"); ofError error].

(** [reason || 'None provided']: only the empty string is falsy. *)
Definition reasonText (reason : Value) : jsstring :=
  match reason with
  | VStr [] => lit "None provided"
  | _ => toString reason
  end.

Definition onClose (ws : nat) (code : Z) (reason : Value) : Eff Server unit :=
  originalConsoleLog
    [VStr (lit "[BROADCAST] WebSocket client disconnected. Code: " ++ ofZ code
           ++ lit ", Reason: " ++ reasonText reason)] ;;
  modify (fun s => withClients (setDelete ws (clients s)) s).

Definition onConnection (ws : nat) : Eff Server unit :=
  originalConsoleLog [VStr (lit "[BROADCAST] New WebSocket client connected")] ;;
  modify (fun s => withClients (setAdd ws (clients s)) s) ;;
  setIsAlive ws true ;;
  send ws (LogFrame (lit "Connected to Amazon Jobs Monitor")).

(** The library emits the close event of a socket: the socket is closed
    and leaves [wss.clients], then the close handler runs. *)
Definition emitClose (ws : nat) (code : Z) (reason : Value) : Eff Server unit :=
  updateSocket ws (fun k =>
    mkSocket CLOSED (isAlive k) (sendFault k) (outbox k) (pings k)) ;;
  modify (fun s =>
    withClosing (setDelete ws (closing s))
      (withWssClients (setDelete ws (wssClients s)) s)) ;;
  onClose ws code reason.

(** The callback of [pingInterval], run every [pingPeriod] milliseconds. *)
Definition pingPeriod : Z := 30000.

Definition checkAlive (ws : nat) : Eff Server unit :=
  alive ← readField ws isAlive None;
  if bool_decide (alive = Some false) then
    originalConsoleLog [VStr (lit "[BROADCAST] Terminating inactive connection")] ;;
    terminate ws
  else
    setIsAlive ws false ;;
    ping ws.

Definition pingCallback : Eff Server unit :=
  sockets ← gets wssClients;
  forEach checkAlive sockets.

(** *** The worker *)

Definition isJobMonitorRunning : Eff Server bool :=
  gets (fun s => isRunning (worker s)).

Definition startMonitoringJobs (config : Config) : Eff Server unit :=
  modify (fun s => withWorker (mkWorker true (config :: launched (worker s))) s).

Definition stopMonitoringJobs : Eff Server unit :=
  modify (fun s => withWorker (mkWorker false (launched (worker s))) s).

(** *** The routes *)

(** The body of a start request: each field is the array it holds, or
    [None] when it is not an array. *)
Record StartRequest := mkStartRequest {
  links : option (list jsstring);
  positions : option (list jsstring) }.

Inductive Body :=
| Message (message : jsstring)
| Started (message : jsstring) (config : Config)
| Failed (message : jsstring) (error : jsstring)
| Status (running : bool).

Record Response := mkResponse { status : Z; body : Body }.

Definition HIRING_PREFIX : jsstring := lit "https://hiring.amazon".

Definition acceptsLink (link : jsstring) : bool :=
  startsWith (trim link) HIRING_PREFIX.

Definition nonEmpty (pos : jsstring) : bool :=
  (0 <? length pos)%nat.

Section Routes.

(** The environment entry [process.env.LOCALAPPDATA] and Node's
    [path.join] on strings. *)
Variable LOCALAPPDATA : option jsstring.
Variable path_join : list jsstring -> jsstring.

(** [path.join] throws on an argument that is not a string. *)
Definition userDataDir : Eff Server jsstring :=
  match LOCALAPPDATA with
  | Some dir => mret (path_join [dir; lit "Google"; lit "Chrome"; lit "User Data"])
  | None =>
      throw (mkError (lit "TypeError")
               (lit "The " ++ [0x22%N] ++ lit "path" ++ [0x22%N]
                ++ lit " argument must be of type string. Received undefined"))
  end.

Definition postStart (req : StartRequest) : Eff Server Response :=
  match links req, positions req with
  | Some links, Some positions =>
      running ← isJobMonitorRunning;
      if running : bool then
        mret (mkResponse 400 (Message (lit "Script is already running")))
      else
        let jobLinks := List.filter acceptsLink links in
        let targetPositions := List.filter nonEmpty (List.map trim positions) in
        match jobLinks with
        | first :: _ =>
            if (length targetPositions =? 0)%nat then
              mret (mkResponse 400
                      (Message (lit "Provide valid Amazon job links and target positions")))
            else
              dir ← userDataDir;
              let config :=
                mkConfig dir [lit "Profile 11"] 30000 targetPositions first in
              broadcastLog
                (VStr ([0xD83D; 0xDE80]%N ++ lit " Starting with job link: "
                       ++ AMAZON_JOBS_URL config)) ;;
              broadcastLog
                (VStr ([0xD83D; 0xDD0D]%N ++ lit " Looking for positions: "
                       ++ join (lit ", ") (TARGET_JOBS config))) ;;
              tryCatch
                (startMonitoringJobs config ;;
                 mret (mkResponse 200 (Started (lit "Script started") config)))
                (fun error =>
                   console_error [ofError error] ;;
                   mret (mkResponse 500
                           (Failed (lit "Error starting script") (errMessage error))))
        | [] =>
            mret (mkResponse 400
                    (Message (lit "Provide valid Amazon job links and target positions")))
        end
  | _, _ => mret (mkResponse 400 (Message (lit "Invalid input format")))
  end.

Definition postStop : Eff Server Response :=
  running ← isJobMonitorRunning;
  if negb running then
    mret (mkResponse 400 (Message (lit "Script is not running")))
  else
    stopMonitoringJobs ;;
    broadcastLog (VStr ([0xD83D; 0xDED1]%N ++ lit " Script stopped")) ;;
    mret (mkResponse 200 (Message (lit "Script stopped"))).

Definition getStatus : Eff Server Response :=
  running ← isJobMonitorRunning;
  mret (mkResponse 200 (Status running)).

(** *** The process as a transition system *)

Inductive Event :=
| Connection (fault : option Error)
| Pong (ws : nat)
| FromClient (ws : nat) (message : ClientMessage)
| SocketError (ws : nat) (error : Error)
| Close (ws : nat) (code : Z) (reason : Value)
| PingTimer
| Publish (message : Value)
| ConsoleLog (args : list Value)
| ConsoleError (args : list Value)
| Start (req : StartRequest)
| Stop
| GetStatus.

Definition handle (e : Event) : Eff Server unit :=
  match e with
  | Connection fault => ws ← accept fault; onConnection ws
  | Pong ws => onPong ws
  | FromClient ws message => onMessage ws message
  | SocketError ws error => onError ws error
  | Close ws code reason => emitClose ws code reason
  | PingTimer => pingCallback
  | Publish message => broadcastLog message
  | ConsoleLog args => console_log args
  | ConsoleError args => console_error args
  | Start req => postStart req ;; mret tt
  | Stop => postStop ;; mret tt
  | GetStatus => getStatus ;; mret tt
  end.

Definition step (s : Server) (e : Event) : Server := exec (handle e) s.

Definition run (es : list Event) (s : Server) : Server := fold_left step es s.

End Routes.

Definition initial : Server :=
  mkServer ∅ 0 [] [] [] [] [] (mkWorker false []).

End Backend.

(** ** Notions the statements about the backend use *)

Module BackendNotions.

Import Backend.

(** The acceptance rules of the input validation contract. *)
Definition linkAccepted (link : jsstring) : Prop :=
  startsWith (trim link) (lit "https://hiring.amazon") = true.

Definition positionAccepted (pos : jsstring) : Prop :=
  trim pos <> [].

#[export] Instance linkAccepted_dec link : Decision (linkAccepted link).
Proof. unfold linkAccepted. apply _. Defined.

#[export] Instance positionAccepted_dec pos : Decision (positionAccepted pos).
Proof. unfold positionAccepted. apply _. Defined.

(** The socket once one more frame was handed to its transport. *)
Definition pushFrame (frame : Frame) (k : Socket) : Socket :=
  mkSocket (readyState k) (isAlive k) (sendFault k) (outbox k ++ [frame]) (pings k).

(** The socket is open and its transport takes a frame. *)
Definition takesFrames (k : Socket) : bool :=
  (readyState k =? OPEN) && bool_decide (sendFault k = None).

(** [x] is the first element of [l] that satisfies [P]. *)
Definition firstSuch {A} (P : A -> Prop) (x : A) (l : list A) : Prop :=
  exists before after,
    l = before ++ x :: after /\ Forall (fun y => ~ P y) before /\ P x.

Definition invalidFormat : Response :=
  mkResponse 400 (Message (lit "Invalid input format")).

Definition alreadyRunning : Response :=
  mkResponse 400 (Message (lit "Script is already running")).

Definition invalidInput : Response :=
  mkResponse 400 (Message (lit "Provide valid Amazon job links and target positions")).

Definition notRunning : Response :=
  mkResponse 400 (Message (lit "Script is not running")).

(** The configuration the start route builds from the first accepted
    link and the positions. *)
Definition configOf (path_join : list jsstring -> jsstring)
    (dir first : jsstring) (positions : list jsstring) : Config :=
  mkConfig (path_join [dir; lit "Google"; lit "Chrome"; lit "User Data"])
    [lit "Profile 11"] 30000
    (List.filter nonEmpty (List.map trim positions)) first.

Definition joined (args : list Value) : jsstring :=
  join (lit " ") (List.map toString args).

(** The socket after the ping timer looked at it. *)
Definition afterCheck (k : Socket) : Socket :=
  if bool_decide (isAlive k = Some false) then
    if readyState k =? CLOSED then k
    else mkSocket CLOSING (isAlive k) (sendFault k) (outbox k) (pings k)
  else
    mkSocket (readyState k) (Some false) (sendFault k) (outbox k)
      (if readyState k =? OPEN then S (pings k) else pings k).

(** What the liveness check reads and writes in the socket [c], and
    whether [c] is in the two sets. *)
Definition vitals (c : nat) (s : Server)
  : option (Z * option bool * nat) * bool * bool :=
  ((fun k => (readyState k, isAlive k, pings k)) <$> heap s !! c,
   bool_decide (c ∈ clients s), bool_decide (c ∈ wssClients s)).

(** The event is neither a tick of the ping timer nor a pong or a close of
    the socket [c]. *)
Definition quiet (c : nat) (e : Event) : Prop :=
  match e with
  | PingTimer => False
  | Pong w => w <> c
  | Close w _ _ => w <> c
  | _ => True
  end.

(** The observations a quiet event must leave alone. *)
Definition watch (c : nat) (s : Server) :=
  (vitals c s, nextSocket s, wssClients s).

(** *** Concrete processes and requests *)

Definition openSocket (fault : option Error) : Socket :=
  mkSocket OPEN (Some true) fault [] 0.

Definition brokenPipe : Error := mkError (lit "Error") (lit "write EPIPE").

(** Subscribers 0 and 2 are sound, the transport of 1 raises, 3 has
    closed but is still in the set. *)
Definition fourSubscribers : Server :=
  mkServer
    (<[0%nat := openSocket None]>
       (<[1%nat := openSocket (Some brokenPipe)]>
          (<[2%nat := openSocket None]>
             (<[3%nat := mkSocket CLOSED (Some true) None [] 0]> ∅))))
    4 [0; 1; 2; 3]%nat [0; 1; 2; 3]%nat [] [] [] (mkWorker false []).

(** An environment of the kind the program is written for. *)
Definition appData : jsstring := lit "C:\Users\me\AppData\Local".

Definition joinBackslash (parts : list jsstring) : jsstring := join (lit "\") parts.

Definition goodRequest : StartRequest :=
  mkStartRequest (Some [lit "https://hiring.amazon/x"]) (Some [lit "Engineer"]).

Definition goodConfig : Config :=
  mkConfig (lit "C:\Users\me\AppData\Local\Google\Chrome\User Data")
    [lit "Profile 11"] 30000 [lit "Engineer"] (lit "https://hiring.amazon/x").

(** Both fields hold one empty string. *)
Definition blankRequest : StartRequest := mkStartRequest (Some [[]]) (Some [[]]).

(** The process after its first accepted start request. *)
Definition started : Server :=
  step (Some appData) joinBackslash initial (Start goodRequest).

(** A link and a position supplied with blanks around them. *)
Definition paddedLink : jsstring := lit "  https://hiring.amazon/x ".

Definition paddedPosition : jsstring := lit " Engineer  ".

(** One subscriber, accepted by the initial process. *)
Definition oneSubscriber : Server :=
  step None joinBackslash initial (Connection None).

Definition welcomed : Socket :=
  mkSocket OPEN (Some true) None [LogFrame (lit "Connected to Amazon Jobs Monitor")] 0.

(** A request with a link of another site before two accepted ones, the
    first of them padded, and with blank positions among padded ones. *)
Definition mixedRequest : StartRequest :=
  mkStartRequest
    (Some [lit "https://careers.other.com/x"; paddedLink; lit "https://hiring.amazon/y"])
    (Some [[]; paddedPosition; lit "   "; lit "Picker "]).

Definition mixedConfig : Config :=
  mkConfig (lit "C:\Users\me\AppData\Local\Google\Chrome\User Data")
    [lit "Profile 11"] 30000 [lit "Engineer"; lit "Picker"] paddedLink.

(** A process with one subscriber that has run the worker once and
    stopped it, and the same process after the mixed request. *)
Definition stoppedOnce : Server :=
  run (Some appData) joinBackslash [Connection None; Start goodRequest; Stop] initial.

Definition restarted : Server :=
  step (Some appData) joinBackslash stoppedOnce (Start mixedRequest).

End BackendNotions.

(** ** The client session: the App component *)

Module Client.

Definition MAX_RETRIES : nat := 10.

(** [readyState] of the browser's WebSocket. *)
Definition CONNECTING : Z := 0.
Definition OPEN : Z := 1.
Definition CLOSING : Z := 2.
Definition CLOSED : Z := 3.

Record LogEntry := mkLogEntry { message : jsstring; timestamp : jsstring }.

Inductive Level := LevelLog | LevelWarn | LevelError.

(** A property of the global object, as far as the program looks at it: a
    number that may be the handle of a timer, or any other value. *)
Inductive GlobalValue :=
| GHandle (id : nat)
| GOther.

(** The session: the React state ([logs], [isConnected], [statusMessage]),
    the refs ([retryCount], [retryTimeoutRef], [ws]), and the browser
    around them: the WebSocket objects with their [readyState], the
    pending timeouts (each calls [connectWebSocket] after its delay), the
    running intervals with their period, the next timer handle and socket
    object, the console, the status requests sent, and the number of
    times the clock was read. *)
Record Session := mkSession {
  logs : list LogEntry;
  isConnected : bool;
  statusMessage : jsstring;
  retryCount : nat;
  retryTimeoutRef : option nat;
  wsCurrent : option nat;
  sockets : gmap nat Z;
  timeouts : gmap nat Z;
  intervals : gmap nat Z;
  nextHandle : nat;
  nextSocket : nat;
  console : list (Level * list Value);
  statusRequests : nat;
  clockReads : nat }.

Definition with_logs (v : list LogEntry) (s : Session) : Session :=
  mkSession v (isConnected s) (statusMessage s) (retryCount s)
      (retryTimeoutRef s) (wsCurrent s) (sockets s) (timeouts s)
      (intervals s) (nextHandle s) (nextSocket s) (console s)
      (statusRequests s) (clockReads s).

Definition with_isConnected (v : bool) (s : Session) : Session :=
  mkSession (logs s) v (statusMessage s) (retryCount s) (retryTimeoutRef s)
      (wsCurrent s) (sockets s) (timeouts s) (intervals s) (nextHandle s)
      (nextSocket s) (console s) (statusRequests s) (clockReads s).

Definition with_statusMessage (v : jsstring) (s : Session) : Session :=
  mkSession (logs s) (isConnected s) v (retryCount s) (retryTimeoutRef s)
      (wsCurrent s) (sockets s) (timeouts s) (intervals s) (nextHandle s)
      (nextSocket s) (console s) (statusRequests s) (clockReads s).

Definition with_retryCount (v : nat) (s : Session) : Session :=
  mkSession (logs s) (isConnected s) (statusMessage s) v (retryTimeoutRef s)
      (wsCurrent s) (sockets s) (timeouts s) (intervals s) (nextHandle s)
      (nextSocket s) (console s) (statusRequests s) (clockReads s).

Definition with_retryTimeoutRef (v : option nat) (s : Session) : Session :=
  mkSession (logs s) (isConnected s) (statusMessage s) (retryCount s) v
      (wsCurrent s) (sockets s) (timeouts s) (intervals s) (nextHandle s)
      (nextSocket s) (console s) (statusRequests s) (clockReads s).

Definition with_wsCurrent (v : option nat) (s : Session) : Session :=
  mkSession (logs s) (isConnected s) (statusMessage s) (retryCount s)
      (retryTimeoutRef s) v (sockets s) (timeouts s) (intervals s)
      (nextHandle s) (nextSocket s) (console s) (statusRequests s)
      (clockReads s).

Definition with_sockets (v : gmap nat Z) (s : Session) : Session :=
  mkSession (logs s) (isConnected s) (statusMessage s) (retryCount s)
      (retryTimeoutRef s) (wsCurrent s) v (timeouts s) (intervals s)
      (nextHandle s) (nextSocket s) (console s) (statusRequests s)
      (clockReads s).

Definition with_timeouts (v : gmap nat Z) (s : Session) : Session :=
  mkSession (logs s) (isConnected s) (statusMessage s) (retryCount s)
      (retryTimeoutRef s) (wsCurrent s) (sockets s) v (intervals s)
      (nextHandle s) (nextSocket s) (console s) (statusRequests s)
      (clockReads s).

Definition with_intervals (v : gmap nat Z) (s : Session) : Session :=
  mkSession (logs s) (isConnected s) (statusMessage s) (retryCount s)
      (retryTimeoutRef s) (wsCurrent s) (sockets s) (timeouts s) v
      (nextHandle s) (nextSocket s) (console s) (statusRequests s)
      (clockReads s).

Definition with_nextHandle (v : nat) (s : Session) : Session :=
  mkSession (logs s) (isConnected s) (statusMessage s) (retryCount s)
      (retryTimeoutRef s) (wsCurrent s) (sockets s) (timeouts s)
      (intervals s) v (nextSocket s) (console s) (statusRequests s)
      (clockReads s).

Definition with_nextSocket (v : nat) (s : Session) : Session :=
  mkSession (logs s) (isConnected s) (statusMessage s) (retryCount s)
      (retryTimeoutRef s) (wsCurrent s) (sockets s) (timeouts s)
      (intervals s) (nextHandle s) v (console s) (statusRequests s)
      (clockReads s).

Definition with_console (v : list (Level * list Value)) (s : Session) : Session :=
  mkSession (logs s) (isConnected s) (statusMessage s) (retryCount s)
      (retryTimeoutRef s) (wsCurrent s) (sockets s) (timeouts s)
      (intervals s) (nextHandle s) (nextSocket s) v (statusRequests s)
      (clockReads s).

Definition with_statusRequests (v : nat) (s : Session) : Session :=
  mkSession (logs s) (isConnected s) (statusMessage s) (retryCount s)
      (retryTimeoutRef s) (wsCurrent s) (sockets s) (timeouts s)
      (intervals s) (nextHandle s) (nextSocket s) (console s) v
      (clockReads s).

Definition with_clockReads (v : nat) (s : Session) : Session :=
  mkSession (logs s) (isConnected s) (statusMessage s) (retryCount s)
      (retryTimeoutRef s) (wsCurrent s) (sockets s) (timeouts s)
      (intervals s) (nextHandle s) (nextSocket s) (console s)
      (statusRequests s) v.

(** Truthiness of [retryTimeoutRef.current]: [null] and [0] are falsy. *)
Definition truthyHandle (ref : option nat) : bool :=
  match ref with
  | Some id => negb (Nat.eqb id 0)
  | None => false
  end.

(** [Math.min(1000 * Math.pow(2, n - 1), 30000)]. *)
Definition retryDelay (n : nat) : Z :=
  match n with
  | O => 500
  | S k => Z.min (1000 * 2 ^ Z.of_nat k) 30000
  end.

Section Session.

(** [new Date().toLocaleTimeString()] at each reading of the clock, and the
    properties of the global object. *)
Variable toLocaleTimeString : nat -> jsstring.
Variable window : gmap string GlobalValue.

(** *** The browser *)

Definition consoleCall (level : Level) (args : list Value) : Eff Session unit :=
  modify (fun s => with_console (console s ++ [(level, args)]) s).

(** [clearTimeout] and [clearInterval] share one table of handles. *)
Definition clearTimer (id : nat) : Eff Session unit :=
  modify (fun s =>
    with_intervals (delete id (intervals s))
      (with_timeouts (delete id (timeouts s)) s)).

(** [setTimeout(connectWebSocket, delay)]. *)
Definition setTimeout (delay : Z) : Eff Session nat :=
  id ← gets nextHandle;
  modify (fun s =>
    with_nextHandle (S id) (with_timeouts (<[id := delay]> (timeouts s)) s)) ;;
  mret id.

Definition setInterval (period : Z) : Eff Session nat :=
  id ← gets nextHandle;
  modify (fun s =>
    with_nextHandle (S id) (with_intervals (<[id := period]> (intervals s)) s)) ;;
  mret id.

(** [new WebSocket(WS_URL)]: throws [failure] if the browser refuses the
    connection outright, gives a connecting socket otherwise. *)
Definition newWebSocket (failure : option Error) : Eff Session nat :=
  match failure with
  | Some e => throw e
  | None =>
      w ← gets nextSocket;
      modify (fun s =>
        with_nextSocket (S w) (with_sockets (<[w := CONNECTING]> (sockets s)) s)) ;;
      mret w
  end.

Definition readyStateOf (w : nat) : Eff Session Z :=
  gets (fun s => default CLOSED (sockets s !! w)).

(** [socket.close()]: the closing handshake starts. *)
Definition closeSocket (w : nat) : Eff Session unit :=
  modify (fun s => with_sockets (alter (fun _ => CLOSING) w (sockets s)) s).

(** Reading an identifier that no enclosing function binds: the property
    of the global object, or a ReferenceError. *)
Definition globalReference (x : string) : Eff Session GlobalValue :=
  match window !! x with
  | Some v => mret v
  | None => throw (mkError (lit "ReferenceError") (lit x ++ lit " is not defined"))
  end.

Definition clearInterval (v : GlobalValue) : Eff Session unit :=
  match v with
  | GHandle id => clearTimer id
  | GOther => mret tt
  end.

(** *** React state and refs *)

(** [setLogs(prevLogs => [...prevLogs, {message, timestamp: new
    Date().toLocaleTimeString()}])]. *)
Definition appendLog (text : jsstring) : Eff Session unit :=
  modify (fun s =>
    with_clockReads (S (clockReads s))
      (with_logs (logs s ++ [mkLogEntry text (toLocaleTimeString (clockReads s))]) s)).

Definition setIsConnected (b : bool) : Eff Session unit :=
  modify (with_isConnected b).

Definition setStatusMessage (m : jsstring) : Eff Session unit :=
  modify (with_statusMessage m).

(** *** fetchStatus, up to its first await *)

Definition fetchStatus : Eff Session unit :=
  appendLog ([0xD83D; 0xDD0D]%N ++ lit " Checking server status...") ;;
  modify (fun s => with_statusRequests (S (statusRequests s)) s).

(** *** connectWebSocket and the handlers it installs *)

(** [failure] is what the WebSocket constructor throws, if it throws.
    The entry of the attempt is appended where [setLogs] is called, with
    the counter as it is there. React may run the updater later, once the
    catch block has counted the attempt: what is proved of an attempt
    that the constructor refuses leaves the text of its entry aside. *)
Definition connectWebSocket (failure : option Error) : Eff Session unit :=
  ref ← gets retryTimeoutRef;
  (if truthyHandle ref then clearTimer (default O ref) else mret tt) ;;
  n ← gets retryCount;
  if (MAX_RETRIES <=? n)%nat then
    consoleCall LevelError [VStr (lit "WebSocket: Max retries reached.")] ;;
    setStatusMessage
      (lit "Failed to connect to WebSocket. Please check if the server is running.") ;;
    setIsConnected false
  else
    tryCatch
      (current ← gets wsCurrent;
       match current with
       | Some w =>
           state ← readyStateOf w;
           if (state =? OPEN) || (state =? CONNECTING) then closeSocket w else mret tt
       | None => mret tt
       end ;;
       appendLog (lit "Connecting to WebSocket (attempt " ++ ofNat (n + 1)
                  ++ lit "/" ++ ofNat MAX_RETRIES ++ lit ")...") ;;
       w ← newWebSocket failure;
       modify (with_wsCurrent (Some w)))
      (fun error =>
         consoleCall LevelError [VStr (lit "Failed to create WebSocket:"); ofError error] ;;
         setStatusMessage (lit "Failed to create WebSocket connection") ;;
         modify (fun s => with_retryCount (S (retryCount s)) s) ;;
         n ← gets retryCount;
         id ← setTimeout (retryDelay n);
         modify (with_retryTimeoutRef (Some id))).

(** The callback of the heartbeat interval with the handle [id]; the
    heartbeat it sends leaves the session as it is. *)
Definition heartbeat (id : nat) : Eff Session unit :=
  current ← gets wsCurrent;
  match current with
  | Some w =>
      state ← readyStateOf w;
      if state =? OPEN then mret tt else clearTimer id
  | None => clearTimer id
  end.

Definition onopen : Eff Session unit :=
  consoleCall LevelLog [VStr ([0x2705%N] ++ lit " WebSocket connected.")] ;;
  setIsConnected true ;;
  setStatusMessage (lit "Connected to server") ;;
  modify (with_retryCount O) ;;
  heartbeatInterval ← setInterval 30000;
  appendLog ([0x2705%N] ++ lit " WebSocket connected successfully") ;;
  fetchStatus.

(** The close handler. [heartbeatInterval] is a constant of the body of the
    open handler; here no enclosing function binds the name, so it refers
    to the global object. *)
Definition onclose (code : Z) : Eff Session unit :=
  consoleCall LevelWarn
    [VStr ([0x26A0; 0xFE0F]%N ++ lit " WebSocket disconnected (code: " ++ ofZ code
           ++ lit "). Retrying...")] ;;
  heartbeatInterval ← globalReference "heartbeatInterval";
  clearInterval heartbeatInterval ;;
  setIsConnected false ;;
  setStatusMessage (lit "Disconnected from server (code: " ++ ofZ code ++ lit ")") ;;
  modify (fun s => with_retryCount (S (retryCount s)) s) ;;
  n ← gets retryCount;
  appendLog ([0x26A0; 0xFE0F]%N ++ lit " WebSocket disconnected. Retrying ("
             ++ ofNat n ++ lit "/" ++ ofNat MAX_RETRIES ++ lit ")...") ;;
  id ← setTimeout (retryDelay n);
  modify (with_retryTimeoutRef (Some id)).

Definition onerror (error : Value) : Eff Session unit :=
  consoleCall LevelError [VStr ([0x274C%N] ++ lit " WebSocket error:"); error] ;;
  appendLog ([0x274C%N] ++ lit " WebSocket connection error").

(** A frame of the server, as the message handler sees it: [JSON.parse]
    or the access to [data.log] throws, or [data.log] is read ([None]
    when it is not a string). *)
Inductive ServerMessage :=
| Malformed (err : Error)
| Parsed (log : option jsstring).

Definition onmessage (m : ServerMessage) : Eff Session unit :=
  tryCatch
    match m with
    | Malformed err => throw err
    | Parsed (Some (c :: l)) => appendLog (c :: l)
    | Parsed _ => mret tt
    end
    (fun err =>
       consoleCall LevelError
         [VStr ([0x26A0; 0xFE0F]%N ++ lit " Error parsing WebSocket message:");
          ofError err]).

(** The effect run when the component mounts, without the status check
    it delays by three seconds. *)
Definition mount (failure : option Error) : Eff Session unit :=
  connectWebSocket failure.

Definition handleCheckConnection (failure : option Error) : Eff Session unit :=
  appendLog ([0xD83D; 0xDD04]%N ++ lit " Manual connection check initiated...") ;;
  modify (with_retryCount O) ;;
  connectWebSocket failure ;;
  fetchStatus.

(** *** The session as a transition system *)

(** What can happen to a session: the component mounts, the user asks for
    a reconnect, a pending timeout or a running interval fires, the status
    check delayed at mount is due, the current socket opens, receives a
    frame or reports an error, a socket closes. [failure] is what the
    WebSocket constructor does if the event reaches it. *)
Inductive Event :=
| Mount (failure : option Error)
| ManualReconnect (failure : option Error)
| TimeoutFires (id : nat) (failure : option Error)
| IntervalFires (id : nat)
| StatusCheckDue
| SocketOpens (w : nat)
| SocketMessage (m : ServerMessage)
| SocketError (error : Value)
| SocketCloses (w : nat) (code : Z).

Definition handle (e : Event) : Eff Session unit :=
  match e with
  | Mount failure => mount failure
  | ManualReconnect failure => handleCheckConnection failure
  | TimeoutFires id failure =>
      pending ← gets (fun s => timeouts s !! id);
      match pending with
      | Some _ =>
          modify (fun s => with_timeouts (delete id (timeouts s)) s) ;;
          connectWebSocket failure
      | None => mret tt
      end
  | IntervalFires id =>
      running ← gets (fun s => intervals s !! id);
      match running with
      | Some _ => heartbeat id
      | None => mret tt
      end
  | StatusCheckDue => fetchStatus
  | SocketOpens w =>
      state ← readyStateOf w;
      if state =? CONNECTING then
        modify (fun s => with_sockets (<[w := OPEN]> (sockets s)) s) ;;
        onopen
      else mret tt
  | SocketMessage m => onmessage m
  | SocketError error => onerror error
  | SocketCloses w code =>
      state ← readyStateOf w;
      if state =? CLOSED then mret tt
      else
        modify (fun s => with_sockets (<[w := CLOSED]> (sockets s)) s) ;;
        onclose code
  end.

Definition step (s : Session) (e : Event) : Session := exec (handle e) s.

Definition run (es : list Event) (s : Session) : Session := fold_left step es s.

End Session.

(** The session before the component mounts; timer handles start at 1. *)
Definition initial : Session :=
  mkSession [] false [] 0 None None ∅ ∅ ∅ 1 0 [] 0 0.

End Client.

(** ** Notions the statements about the client session use *)

Module ClientNotions.

Import Client.

(** The session once the timeout that [retryTimeoutRef] holds is cleared. *)
Definition cleared (s : Session) : Session :=
  if truthyHandle (retryTimeoutRef s)
  then with_intervals (delete (default O (retryTimeoutRef s)) (intervals s))
         (with_timeouts (delete (default O (retryTimeoutRef s)) (timeouts s)) s)
  else s.

Definition gaveUpMessage : jsstring :=
  lit "Failed to connect to WebSocket. Please check if the server is running.".

(** The sockets once [connectWebSocket] closed the current one, if it
    was open or connecting. *)
Definition closedCurrent (s : Session) : gmap nat Z :=
  match wsCurrent s with
  | Some w =>
      if (default CLOSED (sockets s !! w) =? OPEN)
         || (default CLOSED (sockets s !! w) =? CONNECTING)
      then alter (fun _ => CLOSING) w (sockets s)
      else sockets s
  | None => sockets s
  end.

Definition attemptText (n : nat) : jsstring :=
  lit "Connecting to WebSocket (attempt " ++ ofNat (n + 1) ++ lit "/"
  ++ ofNat MAX_RETRIES ++ lit ")...".

Definition manualText : jsstring :=
  [0xD83D; 0xDD04]%N ++ lit " Manual connection check initiated...".

Definition checkingText : jsstring :=
  [0xD83D; 0xDD0D]%N ++ lit " Checking server status...".

Definition notDefined : Error :=
  mkError (lit "ReferenceError") (lit "heartbeatInterval is not defined").

Definition disconnectedWarning (code : Z) : Level * list Value :=
  (LevelWarn,
   [VStr ([0x26A0; 0xFE0F]%N ++ lit " WebSocket disconnected (code: " ++ ofZ code
          ++ lit "). Retrying...")]).

Definition retryingText (n : nat) : jsstring :=
  [0x26A0; 0xFE0F]%N ++ lit " WebSocket disconnected. Retrying ("
  ++ ofNat n ++ lit "/" ++ ofNat MAX_RETRIES ++ lit ")...".

(** Every event but the manual reconnect request. *)
Definition automatic (e : Event) : Prop :=
  match e with
  | ManualReconnect _ => False
  | _ => True
  end.

Definition noneConnecting (s : Session) : Prop :=
  forall w, sockets s !! w <> Some CONNECTING.

(** Every pending timeout is the one [retryTimeoutRef] holds. *)
Definition tracked (s : Session) : Prop :=
  forall id, is_Some (timeouts s !! id) -> retryTimeoutRef s = Some id /\ id <> O.

(** What holds of every session that is reached while the close handler
    throws: timer handles are positive, the pending timeout is tracked, a
    socket that is not the current one is not connecting, and none is once
    the counter is at the ceiling. *)
Definition settled (s : Session) : Prop :=
  (0 < nextHandle s)%nat
  /\ tracked s
  /\ (forall w, wsCurrent s <> Some w -> sockets s !! w <> Some CONNECTING)
  /\ ((MAX_RETRIES <= retryCount s)%nat -> noneConnecting s).

Section Clock.

Variable toLocaleTimeString : nat -> jsstring.

(** The session as [handleCheckConnection] hands it to
    [connectWebSocket]. *)
Definition prepared (s : Session) : Session :=
  with_retryCount O
    (with_clockReads (S (clockReads s))
       (with_logs (logs s ++ [mkLogEntry manualText (toLocaleTimeString (clockReads s))])
          s)).

Definition fetched (s : Session) : Session :=
  with_statusRequests (S (statusRequests s))
    (with_clockReads (S (clockReads s))
       (with_logs (logs s ++ [mkLogEntry checkingText (toLocaleTimeString (clockReads s))])
          s)).

End Clock.

(** *** Concrete sessions *)

Definition clock (n : nat) : jsstring := lit "12:00:0" ++ ofNat n.

(** A global object with the names the component uses, none of them
    [heartbeatInterval]. *)
Definition browserGlobals : gmap string GlobalValue :=
  <["console" := GOther]> (<["WebSocket" := GOther]> (<["setTimeout" := GOther]> ∅)).

Definition refused : Error :=
  mkError (lit "SecurityError") (lit "An insecure WebSocket connection may not be initiated").

(** The component mounted and its socket open. *)
Definition connected : Session :=
  run clock browserGlobals [Mount None; SocketOpens 0] initial.

(** Ten attempts in a row that the constructor refuses: the one at
    mount, then each scheduled retry as it fires. *)
Definition tenRefusals : list Event :=
  Mount (Some refused)
  :: List.map (fun id => TimeoutFires id (Some refused)) (seq 1 9).

Definition gaveUp : Session := run clock browserGlobals tenRefusals initial.

End ClientNotions.

(** ** The form and the control requests of the App component *)

Module App.

Import Client.

(** *** The cleanup of the mount effect *)



(** *** Arrays *)

(** An array that may have holes: [None] is an index without an element. *)
Abbreviation sparse A := (list (option A)).

(** [a[index] = v]: replaces the element, or extends the array up to
    [index], leaving holes below it. *)
Definition assign {A} (index : nat) (v : A) (a : sparse A) : sparse A :=
  if (index <? length a)%nat then <[index := Some v]> a
  else a ++ replicate (index - length a) None ++ [Some v].

(** [forEach((x, index) => ...)] on an array without holes, the callback
    updating the variables [acc] of the enclosing function. *)
Fixpoint forEachIndexed {A Acc} (f : Acc -> A -> nat -> Acc) (from : nat)
    (l : list A) (acc : Acc) : Acc :=
  match l with
  | [] => acc
  | x :: t => forEachIndexed f (S from) t (f acc x from)
  end.

(** [filter((x, i) => p x i)] on an array without holes. *)
Fixpoint filterIndexed {A} (p : A -> nat -> bool) (from : nat) (l : list A)
    : list A :=
  match l with
  | [] => []
  | x :: t =>
      if p x from then x :: filterIndexed p (S from) t
      else filterIndexed p (S from) t
  end.

(** [filter] on an array that may have holes: the callback is not called
    for a hole, and the result has none. *)
Fixpoint sparseFilterIndexed {A} (p : A -> nat -> bool) (from : nat)
    (a : sparse A) : sparse A :=
  match a with
  | [] => []
  | None :: t => sparseFilterIndexed p (S from) t
  | Some x :: t =>
      if p x from then Some x :: sparseFilterIndexed p (S from) t
      else sparseFilterIndexed p (S from) t
  end.

(** *** The state of the component *)

(** The [errors] object. *)
Record Errors := mkErrors {
  errors_links : sparse jsstring;
  errors_positions : sparse jsstring }.

(** A request handed to [fetch]: POST /start with its body, or POST /stop. *)
Inductive Request :=
| PostStart (links positions : list jsstring)
| PostStop.

(** The component: the session, the two lists of input fields, the
    validation messages, the run state shown, and the control requests
    sent so far. *)
Record View := mkView {
  session : Session;
  jobLinks : list jsstring;
  positions : list jsstring;
  errors : Errors;
  isRunning : bool;
  requests : list Request }.

Definition with_session (x : Session) (v : View) : View :=
  mkView x (jobLinks v) (positions v) (errors v) (isRunning v) (requests v).

Definition with_jobLinks (x : list jsstring) (v : View) : View :=
  mkView (session v) x (positions v) (errors v) (isRunning v) (requests v).

Definition with_positions (x : list jsstring) (v : View) : View :=
  mkView (session v) (jobLinks v) x (errors v) (isRunning v) (requests v).

Definition with_errors (x : Errors) (v : View) : View :=
  mkView (session v) (jobLinks v) (positions v) x (isRunning v) (requests v).

Definition with_isRunning (x : bool) (v : View) : View :=
  mkView (session v) (jobLinks v) (positions v) (errors v) x (requests v).

Definition with_requests (x : list Request) (v : View) : View :=
  mkView (session v) (jobLinks v) (positions v) (errors v) (isRunning v) x.

(** A computation on the session, run on the session of the component. *)
Definition inSession {A} (m : Eff Session A) : Eff View A := fun v =>
  let (c, s) := m (session v) in (c, with_session s v).

Definition setIsRunning (b : bool) : Eff View unit := modify (with_isRunning b).

Definition fetch (r : Request) : Eff View unit :=
  modify (fun v => with_requests (requests v ++ [r]) v).

(** *** validateInputs *)

(** The callback of [jobLinks.forEach]; [count] is [jobLinks.length]. *)
Definition checkLink (count : nat) (acc : bool * sparse jsstring)
    (link : jsstring) (index : nat) : bool * sparse jsstring :=
  let (isValid, linkErrors) := acc in
  match trim link with
  | [] =>
      if (1 <? count)%nat then (isValid, assign index [] linkErrors)
      else (false, assign index (lit "Job link cannot be empty") linkErrors)
  | _ :: _ =>
      if negb (startsWith (trim link) (lit "https://hiring.amazon")) then
        (false, assign index (lit "Must be a valid Amazon hiring link") linkErrors)
      else (isValid, assign index [] linkErrors)
  end.

(** The callback of [positions.forEach]. *)
Definition checkPosition (count : nat) (acc : bool * sparse jsstring)
    (position : jsstring) (index : nat) : bool * sparse jsstring :=
  let (isValid, positionErrors) := acc in
  match trim position with
  | [] =>
      if (1 <? count)%nat then (isValid, assign index [] positionErrors)
      else (false, assign index (lit "Position cannot be empty") positionErrors)
  | _ :: _ => (isValid, assign index [] positionErrors)
  end.

Definition validateInputs : Eff View bool :=
  jobLinks ← gets jobLinks;
  positions ← gets positions;
  let '(isValid, linkErrors) :=
    forEachIndexed (checkLink (length jobLinks)) 0 jobLinks (true, []) in
  let '(isValid, positionErrors) :=
    forEachIndexed (checkPosition (length positions)) 0 positions (isValid, []) in
  modify (with_errors (mkErrors linkErrors positionErrors)) ;;
  mret isValid.

(** *** The input fields *)

Definition addLink : Eff View unit :=
  modify (fun v => with_jobLinks (jobLinks v ++ [[]]) v).

Definition removeLink (index : nat) : Eff View unit :=
  jobLinks ← gets jobLinks;
  if (1 <? length jobLinks)%nat then
    modify (with_jobLinks
              (filterIndexed (fun _ i => negb (Nat.eqb i index)) 0 jobLinks)) ;;
    modify (fun v =>
      with_errors
        (mkErrors
           (sparseFilterIndexed (fun _ i => negb (Nat.eqb i index)) 0
              (errors_links (errors v)))
           (errors_positions (errors v))) v)
  else mret tt.

Definition addPosition : Eff View unit :=
  modify (fun v => with_positions (positions v ++ [[]]) v).

Definition removePosition (index : nat) : Eff View unit :=
  positions ← gets positions;
  if (1 <? length positions)%nat then
    modify (with_positions
              (filterIndexed (fun _ i => negb (Nat.eqb i index)) 0 positions)) ;;
    modify (fun v =>
      with_errors
        (mkErrors
           (errors_links (errors v))
           (sparseFilterIndexed (fun _ i => negb (Nat.eqb i index)) 0
              (errors_positions (errors v)))) v)
  else mret tt.

(** *** The control requests *)

(** What became of a request: the response with its status and the
    [message] of its JSON body ([None] when the body has none), or the
    exception that [fetch] or [response.json()] ended with. *)
Inductive FetchResult :=
| Answered (status : Z) (message : option jsstring)
| Broken (error : Error).

(** [response.ok]. *)
Definition ok (status : Z) : bool := (200 <=? status) && (status <=? 299).

(** [x || fallback] on a string or [undefined]. *)
Definition orElse (x : option jsstring) (fallback : jsstring) : jsstring :=
  match x with
  | Some (c :: l) => c :: l
  | _ => fallback
  end.

(** [field.trim() !== '']. *)
Definition nonBlank (field : jsstring) : bool :=
  match trim field with
  | [] => false
  | _ :: _ => true
  end.

Section Requests.

Variable toLocaleTimeString : nat -> jsstring.

Definition log (text : jsstring) : Eff View unit :=
  inSession (appendLog toLocaleTimeString text).

Definition status (text : jsstring) : Eff View unit :=
  inSession (setStatusMessage text).

(** [startMonitoring], up to its first await. *)
Definition startMonitoring : Eff View unit :=
  valid ← validateInputs;
  if negb valid then status (lit "Please fix the errors before starting")
  else
    jobLinks ← gets jobLinks;
    positions ← gets positions;
    let filteredLinks := List.filter nonBlank jobLinks in
    let filteredPositions := List.filter nonBlank positions in
    if (length filteredLinks =? 0)%nat then
      status (lit "Please add at least one Amazon job link")
    else if (length filteredPositions =? 0)%nat then
      status (lit "Please add at least one position to monitor")
    else
      status (lit "Starting job monitor...") ;;
      log ([0xD83D; 0xDE80]%N ++ lit " Attempting to start monitoring with "
           ++ ofNat (length filteredLinks) ++ lit " links and "
           ++ ofNat (length filteredPositions) ++ lit " positions...") ;;
      fetch (PostStart filteredLinks filteredPositions).

(** The rest of [startMonitoring], once the request it sent with
    [filteredLinks] and [filteredPositions] came to an end. *)
Definition startAnswered (filteredLinks filteredPositions : list jsstring)
    (result : FetchResult) : Eff View unit :=
  tryCatch
    (match result with
     | Broken error => throw error
     | Answered code message =>
         if negb (ok code) then
           throw (mkError (lit "Error") (orElse message (lit "Failed to start monitoring")))
         else
           setIsRunning true ;;
           status (lit "Job monitoring started") ;;
           log ([0x2705%N] ++ lit " Monitoring started with "
                ++ ofNat (length filteredLinks) ++ lit " links and "
                ++ ofNat (length filteredPositions) ++ lit " positions")
     end)
    (fun error =>
       inSession (consoleCall LevelError
                    [VStr (lit "Error starting monitoring:"); ofError error]) ;;
       status (lit "Error: "
               ++ orElse (Some (errMessage error)) (lit "Failed to connect to server")) ;;
       log ([0x274C%N] ++ lit " Error starting monitoring: " ++ errMessage error)).

(** [stopMonitoring], up to its first await. *)
Definition stopMonitoring : Eff View unit :=
  status (lit "Stopping job monitor...") ;;
  log ([0xD83D; 0xDED1]%N ++ lit " Attempting to stop monitoring...") ;;
  fetch PostStop.

Definition stopAnswered (result : FetchResult) : Eff View unit :=
  tryCatch
    (match result with
     | Broken error => throw error
     | Answered code message =>
         if negb (ok code) then
           throw (mkError (lit "Error") (orElse message (lit "Failed to stop monitoring")))
         else
           setIsRunning false ;;
           status (lit "Job monitoring stopped") ;;
           log ([0x2705%N] ++ lit " Monitoring stopped successfully")
     end)
    (fun error =>
       inSession (consoleCall LevelError
                    [VStr (lit "Error stopping monitoring:"); ofError error]) ;;
       status (lit "Error: "
               ++ orElse (Some (errMessage error)) (lit "Failed to connect to server")) ;;
       log ([0x274C%N] ++ lit " Error stopping monitoring: " ++ errMessage error)).

End Requests.

(** *** The buttons of the form *)

(** What the user can click in the form: the buttons that add and remove
    fields, and the start button. Typing into a field is not among
    them. *)
Inductive Click :=
| AddLink
| RemoveLink (index : nat)
| AddPosition
| RemovePosition (index : nat)
| StartClick.

Definition click (toLocaleTimeString : nat -> jsstring) (c : Click) : Eff View unit :=
  match c with
  | AddLink => addLink
  | RemoveLink index => removeLink index
  | AddPosition => addPosition
  | RemovePosition index => removePosition index
  | StartClick => startMonitoring toLocaleTimeString
  end.

Definition clicks (toLocaleTimeString : nat -> jsstring) (cs : list Click) (v : View)
    : View :=
  fold_left (fun v c => exec (click toLocaleTimeString c) v) cs v.

(** The component as it is first rendered: one empty field of each kind. *)
Definition initial : View :=
  mkView Client.initial [[]] [[]] (mkErrors [] []) false [].

End App.

(** ** The two programs on one wire *)

Module Wire.

(** What [JSON.parse] in the message handler of the client makes of a
    frame the backend sent with [JSON.stringify]. *)
Definition delivered (f : Backend.Frame) : Client.ServerMessage :=
  match f with
  | Backend.LogFrame log => Client.Parsed (Some log)
  | Backend.HeartbeatResponse => Client.Parsed None
  end.

(** The [message] of the JSON body of a response. *)
Definition messageOf (b : Backend.Body) : option jsstring :=
  match b with
  | Backend.Message m => Some m
  | Backend.Started m _ => Some m
  | Backend.Failed m _ => Some m
  | Backend.Status _ => None
  end.

(** A response of the backend, as [fetch] hands it to the client. *)
Definition answerOf (r : Backend.Response) : App.FetchResult :=
  App.Answered (Backend.status r) (messageOf (Backend.body r)).

(** The body of POST /start as [express.json()] hands it to the route. *)
Definition startRequestOf (links positions : list jsstring) : Backend.StartRequest :=
  Backend.mkStartRequest (Some links) (Some positions).

End Wire.

(** ** Notions of the further statements *)

Module TextNotions.

(** The code unit is white space for [trim]. *)
Definition blank (c : N) : Prop := isWhiteSpace c = true.

(** The string is empty. *)
Definition isNil (s : jsstring) : bool :=
  match s with
  | [] => true
  | _ :: _ => false
  end.

End TextNotions.

Module ChannelNotions.

Import Backend BackendNotions.

(** The exception [send] raises on the subscriber [c], if [broadcastLog]
    calls it and it raises one. *)
Definition failure (s : Server) (c : nat) : option Error :=
  match heap s !! c with
  | Some k => if readyState k =? 1 then sendFault k else None
  | None => None
  end.

Definition sendErrorLine (e : Error) : list Value :=
  [VStr (lit "[BROADCAST] Error sending to client:"); ofError e].

(** An event that publishes or may publish: a call of [broadcastLog] or of
    the console, or a request. *)
Definition publication (e : Event) : Prop :=
  match e with
  | Publish _ | ConsoleLog _ | ConsoleError _ | Start _ | Stop | GetStatus => True
  | _ => False
  end.

Definition startingText (link : jsstring) : jsstring :=
  [0xD83D; 0xDE80]%N ++ lit " Starting with job link: " ++ link.

Definition lookingText (positions : list jsstring) : jsstring :=
  [0xD83D; 0xDD0D]%N ++ lit " Looking for positions: "
  ++ join (lit ", ") (List.filter nonEmpty (List.map trim positions)).

Definition stoppedText : jsstring := [0xD83D; 0xDED1]%N ++ lit " Script stopped".

Definition welcomeText : jsstring := lit "Connected to Amazon Jobs Monitor".

Definition heartbeatMessage : ClientMessage := Parsed (Some (lit "heartbeat")).

(** The computation leaves alone the socket [c], which is not subscribed,
    and the subscriber set. *)
Definition spares {A} (c : nat) (m : Eff Server A) : Prop :=
  forall s, NoDup (clients s) -> c ∉ clients s ->
    heap (exec m s) !! c = heap s !! c /\ clients (exec m s) = clients s.

(** Socket objects are handed out in increasing order: the members of the
    two sets are older than the next one. *)
Definition fresh (s : Server) : Prop :=
  (forall c, c ∈ clients s -> (c < nextSocket s)%nat)
  /\ (forall c, c ∈ wssClients s -> (c < nextSocket s)%nat).

(** Two subscribers that take frames. *)
Definition twoSubscribers : Server :=
  mkServer
    (<[0%nat := openSocket None]> (<[1%nat := openSocket None]> ∅))
    2 [0; 1]%nat [0; 1]%nat [] [] [] (mkWorker false []).

(** The same two subscribers while the worker runs. *)
Definition twoWatching : Server :=
  mkServer
    (<[0%nat := openSocket None]> (<[1%nat := openSocket None]> ∅))
    2 [0; 1]%nat [0; 1]%nat [] [] [] (mkWorker true [goodConfig]).

End ChannelNotions.

Module SessionNotions.

Import Client ClientNotions.

(** A socket in this state is connecting or open. *)
Definition live (state : Z) : bool := (state =? OPEN) || (state =? CONNECTING).

(** No socket but the current one is connecting or open. *)
Definition lone (s : Session) : Prop :=
  forall w state,
    wsCurrent s <> Some w -> sockets s !! w = Some state -> live state = false.

(** The current socket is open. *)
Definition currentOpen (s : Session) : bool :=
  match wsCurrent s with
  | Some w => default CLOSED (sockets s !! w) =? OPEN
  | None => false
  end.

(** Timer handles are handed out in increasing order, and the handle
    [retryTimeoutRef] holds is not the handle of an interval. *)
Definition handlesApart (s : Session) : Prop :=
  (forall id, is_Some (intervals s !! id) -> (id < nextHandle s)%nat)
  /\ (forall r, retryTimeoutRef s = Some r ->
        (r < nextHandle s)%nat /\ intervals s !! r = None).



(** The text the message handler appends for a frame of the backend, if
    it appends one. *)
Definition shown (f : Backend.Frame) : option jsstring :=
  match f with
  | Backend.LogFrame (c :: l) => Some (c :: l)
  | _ => None
  end.

Definition receive (f : Backend.Frame) : Event := SocketMessage (Wire.delivered f).

(** The component mounted, its socket open, then a manual reconnect whose
    socket opened as well. *)
Definition reconnected : Session :=
  run clock browserGlobals
    [Mount None; SocketOpens 0; ManualReconnect None; SocketOpens 1] initial.

(** The constructor refused the attempt at mount and the two retries
    after it. *)
Definition thriceRefused : Session :=
  run clock browserGlobals (firstn 3 tenRefusals) initial.

End SessionNotions.

Module AppNotions.

Import Client App.

(** The message [validateInputs] leaves for a link field and for a
    position field; [count] is the number of fields of the kind. *)
Definition linkMessage (count : nat) (link : jsstring) : jsstring :=
  if nonBlank link then
    if Backend.acceptsLink link then []
    else lit "Must be a valid Amazon hiring link"
  else if (1 <? count)%nat then []
  else lit "Job link cannot be empty".

Definition positionMessage (count : nat) (position : jsstring) : jsstring :=
  if nonBlank position then []
  else if (1 <? count)%nat then []
  else lit "Position cannot be empty".

(** No field would be left with a message. *)
Definition verdict (v : View) : bool :=
  forallb (fun link => TextNotions.isNil (linkMessage (length (jobLinks v)) link))
    (jobLinks v)
  && forallb (fun p => TextNotions.isNil (positionMessage (length (positions v)) p))
       (positions v).

(** The messages [validateInputs] leaves. *)
Definition messages (v : View) : Errors :=
  mkErrors
    (List.map (fun link => Some (linkMessage (length (jobLinks v)) link)) (jobLinks v))
    (List.map (fun p => Some (positionMessage (length (positions v)) p)) (positions v)).

(** Every element of the array is the empty string: no field shows a
    message. *)
Definition silent (a : sparse jsstring) : Prop := Forall (fun m => m = Some []) a.

(** Every link that is not blank is accepted by the backend, and one link
    and one position are not blank. *)
Definition sendable (v : View) : bool :=
  forallb (fun link => negb (nonBlank link) || Backend.acceptsLink link) (jobLinks v)
  && existsb nonBlank (jobLinks v) && existsb nonBlank (positions v).

(** The index in the old array of the element that [filter((_, i) => i
    !== index)] puts at the index [i]. *)
Definition skip (index i : nat) : nat := if (i <? index)%nat then i else S i.

(** The configuration the backend builds for the links and positions the
    client sent. *)
Definition configSent (path_join : list jsstring -> jsstring) (dir first : jsstring)
    (positions : list jsstring) : Backend.Config :=
  Backend.mkConfig (path_join [dir; lit "Google"; lit "Chrome"; lit "User Data"])
    [lit "Profile 11"] 30000 (List.map trim positions) first.

(** The array of messages has no hole and is no longer than the array of
    fields. *)
Definition covered (messages : sparse jsstring) (fields : list jsstring) : Prop :=
  exists dense, messages = List.map Some dense /\ (length dense <= length fields)%nat.

(** There is a field of each kind, and the messages fit the fields. *)
Definition wellFormed (v : View) : Prop :=
  jobLinks v <> [] /\ positions v <> []
  /\ covered (errors_links (errors v)) (jobLinks v)
  /\ covered (errors_positions (errors v)) (positions v).

(** *** Concrete forms *)

(** Three link fields, the second blank and the third padded, and two
    position fields, one blank. *)
Definition filled : View :=
  mkView Client.initial
    [lit "https://hiring.amazon.com/a"; lit "  "; lit " https://hiring.amazon.com/b"]
    [lit " Warehouse Associate "; []]
    (mkErrors [] []) false [].

(** A link of another site among the fields, once [validateInputs]
    looked at them. *)
Definition mistyped : View :=
  mkView Client.initial
    [lit "https://hiring.amazon.com/a"; lit "https://jobs.example.org/b"]
    [lit "Picker"; lit "Packer"]
    (mkErrors [Some []; Some (lit "Must be a valid Amazon hiring link")]
       [Some []; Some []])
    false [].

End AppNotions.

(** ** The string operations on examples *)

Module JsFacts.

Example trim_both_ends : trim (lit "  ab c ") = lit "ab c".
Proof. reflexivity. Qed.

Example trim_unicode_blanks : trim ([0xA0; 0x2003; 0x61; 0x0A; 0xFEFF]%N) = [0x61%N].
Proof. reflexivity. Qed.

Example trim_blank : trim (lit "   ") = [].
Proof. reflexivity. Qed.

Example startsWith_prefix :
  startsWith (lit "https://hiring.amazon.com/app") (lit "https://hiring.amazon") = true
  /\ startsWith (lit "http://hiring.amazon.com") (lit "https://hiring.amazon") = false.
Proof. split; reflexivity. Qed.

Example includes_marker :
  includes (lit "x [BROADCAST] y") (lit "[BROADCAST]") = true
  /\ includes (lit "[BROADCAS] T") (lit "[BROADCAST]") = false.
Proof. split; reflexivity. Qed.

Example join_spaces : join (lit " ") [lit "job"; lit "found"; lit "now"] = lit "job found now".
Proof. reflexivity. Qed.

Example ofNat_ten : ofNat 10 = lit "10".
Proof. reflexivity. Qed.

Lemma startsWith_app (s p : jsstring) : startsWith (p ++ s) p = true.
Proof.
  induction p as [|a p IH]; [now destruct s|]. cbn. now rewrite N.eqb_refl.
Qed.

Lemma startsWith_inv (s p : jsstring) :
  startsWith s p = true -> exists rest, s = p ++ rest.
Proof.
  revert s. induction p as [|a p IH]; intros s H.
  - now exists s.
  - destruct s as [|b s]; [discriminate H|]. cbn in H.
    apply andb_true_iff in H as [Hab H]. apply N.eqb_eq in Hab. subst b.
    destruct (IH s H) as [rest ->]. now exists rest.
Qed.

End JsFacts.

(** ** Reasoning about computations *)

Module EffFacts.

Section Eff.
Context {St : Type}.

Lemma total_ret {A} (a : A) : total (mret a : Eff St A).
Proof. intros s. now exists a. Qed.

Lemma total_gets {A} (f : St -> A) : total (gets f).
Proof. intros s. now exists (f s). Qed.

Lemma total_modify (f : St -> St) : total (modify f).
Proof. intros s. now exists tt. Qed.

Lemma total_bind {A B} (m : Eff St A) (k : A -> Eff St B) :
  total m -> (forall a, total (k a)) -> total (m ≫= k).
Proof.
  intros Hm Hk s. destruct (Hm s) as [a Ha]. unfold returns in *.
  unfold mbind, eff_bind. destruct (m s) as [c s']. simpl in Ha. subst c.
  apply Hk.
Qed.

Lemma total_tryCatch {A} (m : Eff St A) (h : Error -> Eff St A) :
  (forall e, total (h e)) -> total (tryCatch m h).
Proof.
  intros Hh s. unfold returns, tryCatch. destruct (m s) as [[a|e] s'].
  - now exists a.
  - apply Hh.
Qed.

Lemma total_forEach {A} (f : A -> Eff St unit) (l : list A) :
  (forall x, total (f x)) -> total (forEach f l).
Proof.
  intros Hf. induction l as [|x t IH]; simpl.
  - apply total_ret.
  - apply total_bind; [apply Hf | intros _; exact IH].
Qed.

Lemma total_if {A} (b : bool) (m1 m2 : Eff St A) :
  total m1 -> total m2 -> total (if b then m1 else m2).
Proof. now destruct b. Qed.

(** The result of a total computation. *)
Lemma total_run {A} (m : Eff St A) s :
  total m -> exists a, m s = (Normal a, exec m s).
Proof.
  intros H. destruct (H s) as [a Ha]. exists a. unfold exec.
  destruct (m s); simpl in *; now subst.
Qed.

Lemma exec_bind {A B} (m : Eff St A) (k : A -> Eff St B) s a :
  fst (m s) = Normal a -> exec (m ≫= k) s = exec (k a) (exec m s).
Proof.
  unfold exec, mbind, eff_bind. destruct (m s) as [c s']; simpl.
  now intros ->.
Qed.

Lemma keeps_ret {A B} (f : St -> B) (a : A) : keeps f (mret a : Eff St A).
Proof. now intros s. Qed.

Lemma keeps_gets {A B} (f : St -> B) (g : St -> A) : keeps f (gets g).
Proof. now intros s. Qed.

Lemma keeps_throw {A B} (f : St -> B) (e : Error) : keeps f (throw e : Eff St A).
Proof. now intros s. Qed.

Lemma keeps_modify {B} (f : St -> B) (g : St -> St) :
  (forall s, f (g s) = f s) -> keeps f (modify g).
Proof. intros H s. apply H. Qed.

Lemma keeps_bind {A B C} (f : St -> C) (m : Eff St A) (k : A -> Eff St B) :
  keeps f m -> (forall a, keeps f (k a)) -> keeps f (m ≫= k).
Proof.
  intros Hm Hk s. specialize (Hm s). unfold exec, mbind, eff_bind in *.
  destruct (m s) as [[a|e] s']; simpl in *.
  - rewrite <- Hm. apply Hk.
  - exact Hm.
Qed.

Lemma keeps_tryCatch {A C} (f : St -> C) (m : Eff St A) (h : Error -> Eff St A) :
  keeps f m -> (forall e, keeps f (h e)) -> keeps f (tryCatch m h).
Proof.
  intros Hm Hh s. specialize (Hm s). unfold exec, tryCatch in *.
  destruct (m s) as [[a|e] s']; simpl in *.
  - exact Hm.
  - rewrite <- Hm. apply Hh.
Qed.

Lemma keeps_forEach {A C} (f : St -> C) (g : A -> Eff St unit) (l : list A) :
  (forall x, keeps f (g x)) -> keeps f (forEach g l).
Proof.
  intros Hg. induction l as [|x t IH]; simpl.
  - apply keeps_ret.
  - apply keeps_bind; [apply Hg | intros _; exact IH].
Qed.

Lemma keeps_if {A C} (f : St -> C) (b : bool) (m1 m2 : Eff St A) :
  keeps f m1 -> keeps f m2 -> keeps f (if b then m1 else m2).
Proof. now destruct b. Qed.

End Eff.

Create HintDb eff.

#[export] Hint Resolve total_ret total_gets total_modify keeps_ret keeps_gets
  keeps_throw : eff.

(** One syntax-directed step on a goal [total m] or [keeps f m]. *)
Ltac eff_step :=
  lazymatch goal with
  | |- total (mbind _ _) => apply total_bind; [|intros ?]
  | |- total (tryCatch _ _) => apply total_tryCatch; intros ?
  | |- total (forEach _ _) => apply total_forEach; intros ?
  | |- total (match ?x with _ => _ end) => first [apply total_if | destruct x]
  | |- keeps _ (mbind _ _) => apply keeps_bind; [|intros ?]
  | |- keeps _ (tryCatch _ _) => apply keeps_tryCatch; [|intros ?]
  | |- keeps _ (forEach _ _) => apply keeps_forEach; intros ?
  | |- keeps _ (match ?x with _ => _ end) => first [apply keeps_if | destruct x]
  | |- keeps _ (modify _) => apply keeps_modify; intros ?; reflexivity
  | _ => solve [auto with eff]
  end.

End EffFacts.

(** ** Properties of the backend *)

Module BackendProofs.

Import Backend BackendNotions EffFacts.

(** *** Lists *)

Lemma filter_head {A} (f : A -> bool) l x rest :
  List.filter f l = x :: rest ->
  exists before after,
    l = before ++ x :: after /\ Forall (fun y => f y = false) before
    /\ f x = true /\ rest = List.filter f after.
Proof.
  induction l as [|y t IH]; cbn; [discriminate|].
  destruct (f y) eqn:E.
  - intros [= -> <-]. exists [], t. now repeat split.
  - intros H. destruct (IH H) as (b & a & -> & Hb & Hx & Hr).
    exists (y :: b), a. repeat split; auto.
Qed.

Lemma filter_skip {A} (f : A -> bool) before x after :
  Forall (fun y => f y = false) before -> f x = true ->
  List.filter f (before ++ x :: after) = x :: List.filter f after.
Proof.
  induction 1 as [|y b Hy _ IH]; intros Hx; cbn.
  - now rewrite Hx.
  - rewrite Hy. now apply IH.
Qed.

Lemma filter_nil_Forall {A} (f : A -> bool) l :
  List.filter f l = [] <-> Forall (fun y => f y = false) l.
Proof.
  induction l as [|y t IH]; cbn; [now split|].
  destruct (f y) eqn:E; split.
  - discriminate.
  - intros H. inversion H; congruence.
  - intros H. constructor; [exact E | now apply IH].
  - intros H. inversion H. now apply IH.
Qed.

Lemma nonEmpty_true s : nonEmpty s = true <-> s <> [].
Proof. destruct s; cbn; split; (congruence || discriminate || lia || auto). Qed.

Lemma acceptsLink_true l : acceptsLink l = true <-> linkAccepted l.
Proof. reflexivity. Qed.

Lemma acceptsLink_false l : acceptsLink l = false <-> ~ linkAccepted l.
Proof.
  unfold linkAccepted. fold HIRING_PREFIX. fold (acceptsLink l).
  destruct (acceptsLink l); split; congruence.
Qed.

(** The code trims first and filters then; the outcome is the trimmed
    form of each position that is not blank. *)
Lemma targetPositions_spec ps :
  List.filter nonEmpty (List.map trim ps) = List.map trim (filter positionAccepted ps).
Proof.
  induction ps as [|p t IH]; [reflexivity|].
  cbn [List.map List.filter]. rewrite filter_cons.
  destruct (decide (positionAccepted p)) as [Hp|Hp].
  - apply nonEmpty_true in Hp. rewrite Hp. cbn. now rewrite IH.
  - destruct (nonEmpty (trim p)) eqn:E; [|exact IH].
    apply nonEmpty_true in E. contradiction.
Qed.


(** *** Totality and frames of the channel operations *)

Ltac server_simpl :=
  cbn [fst snd heap nextSocket clients wssClients closing stdout stderr worker
       withHeap withNextSocket withClients withWssClients withClosing
       withStdout withStderr withWorker].


Lemma total_originalConsoleLog args : total (originalConsoleLog args).
Proof. apply total_modify. Qed.

Lemma total_originalConsoleError args : total (originalConsoleError args).
Proof. apply total_modify. Qed.

Lemma total_updateSocket ws f : total (updateSocket ws f).
Proof. apply total_modify. Qed.

Lemma total_readField {A} ws (f : Socket -> A) d : total (readField ws f d).
Proof. apply total_gets. Qed.

#[export] Hint Resolve total_originalConsoleLog total_originalConsoleError
  total_updateSocket total_readField : eff.

Lemma total_sendTo logMessage client : total (sendTo logMessage client).
Proof. unfold sendTo, originalConsoleError. repeat eff_step. Qed.

#[export] Hint Resolve total_sendTo : eff.

Lemma total_broadcastLog message : total (broadcastLog message).
Proof.
  unfold broadcastLog, originalConsoleLog. repeat eff_step.
Qed.

#[export] Hint Resolve total_broadcastLog : eff.

Lemma total_console_log args : total (console_log args).
Proof. unfold console_log. repeat eff_step. Qed.

Lemma total_console_error args : total (console_error args).
Proof. unfold console_error. repeat eff_step. Qed.

#[export] Hint Resolve total_console_log total_console_error : eff.

Lemma keeps_send {B} (f : Server -> B) ws frame :
  (forall h s, f (withHeap h s) = f s) -> keeps f (send ws frame).
Proof.
  intros H. unfold send, readField, updateSocket.
  eff_step; [eff_step|]. eff_step; [eff_step|].
  eff_step; [eff_step|]. eff_step; [|eff_step].
  apply keeps_modify. intros s. apply H.
Qed.

Lemma keeps_sendTo {B} (f : Server -> B) logMessage client :
  (forall h s, f (withHeap h s) = f s) ->
  (forall o s, f (withStderr o s) = f s) ->
  keeps f (sendTo logMessage client).
Proof.
  intros Hh He. unfold sendTo, readField.
  eff_step; [eff_step|]. apply keeps_if; [|eff_step].
  apply keeps_tryCatch; [now apply keeps_send|].
  intros e. apply keeps_modify. intros s. apply He.
Qed.

Lemma keeps_worker_send ws frame : keeps worker (send ws frame).
Proof. now apply keeps_send. Qed.

Lemma keeps_worker_sendTo logMessage client :
  keeps worker (sendTo logMessage client).
Proof. now apply keeps_sendTo. Qed.

Lemma keeps_broadcastLog {B} (f : Server -> B) message :
  (forall h s, f (withHeap h s) = f s) ->
  (forall o s, f (withStderr o s) = f s) ->
  (forall o s, f (withStdout o s) = f s) ->
  keeps f (broadcastLog message).
Proof.
  intros Hh He Ho. unfold broadcastLog.
  eff_step.
  - apply keeps_if; [|eff_step]. apply keeps_modify. intros s. apply Ho.
  - eff_step; [eff_step|]. apply keeps_forEach. intros x.
    now apply keeps_sendTo.
Qed.

Lemma keeps_worker_broadcastLog message : keeps worker (broadcastLog message).
Proof. now apply keeps_broadcastLog. Qed.

#[export] Hint Resolve keeps_worker_send keeps_worker_sendTo
  keeps_worker_broadcastLog : eff.

Lemma broadcastLog_run message s :
  broadcastLog message s = (Normal tt, exec (broadcastLog message) s).
Proof.
  destruct (total_run (broadcastLog message) s (total_broadcastLog message))
    as [[] H].
  exact H.
Qed.

Lemma worker_broadcastLog message s :
  worker (exec (broadcastLog message) s) = worker s.
Proof. apply keeps_worker_broadcastLog. Qed.

(** *** The fan-out *)

Lemma exec_then {St A B} (m : Eff St A) (k : A -> Eff St B) s :
  total m -> exists a, exec (m ≫= k) s = exec (k a) (exec m s).
Proof.
  intros H. destruct (H s) as [a Ha]. exists a. now apply exec_bind.
Qed.

Lemma sendTo_heap logMessage x s :
  heap (exec (sendTo logMessage x) s) =
    match heap s !! x with
    | Some k =>
        if takesFrames k then alter (pushFrame (LogFrame logMessage)) x (heap s)
        else heap s
    | None => heap s
    end.
Proof.
  unfold exec, sendTo, send, readField, tryCatch, mbind, eff_bind, gets, throw,
    updateSocket, modify, originalConsoleError, takesFrames, OPEN.
  cbn beta. destruct (heap s !! x) as [k|] eqn:E; cbn; [|reflexivity].
  destruct (readyState k =? 1) eqn:Eo; cbn; [|reflexivity].
  rewrite ?E. cbn. destruct (sendFault k); [reflexivity|].
  cbn. rewrite ?E. cbn. now rewrite Eo.
Qed.

Lemma sendTo_lookup logMessage x s y :
  heap (exec (sendTo logMessage x) s) !! y =
    (fun k => if bool_decide (y = x) && takesFrames k
              then pushFrame (LogFrame logMessage) k else k) <$> heap s !! y.
Proof.
  rewrite sendTo_heap. destruct (decide (y = x)) as [->|Hne].
  - rewrite bool_decide_eq_true_2 by reflexivity. cbn [andb].
    destruct (heap s !! x) as [k|] eqn:E; [|now rewrite E].
    destruct (takesFrames k) eqn:Et.
    + rewrite lookup_alter_eq, E. cbn. now rewrite Et.
    + rewrite E. cbn. now rewrite Et.
  - rewrite bool_decide_eq_false_2 by exact Hne. cbn [andb].
    assert (heap s !! y = (fun k : Socket => k) <$> heap s !! y) as Hid
      by (now destruct (heap s !! y)).
    destruct (heap s !! x) as [k|]; [|exact Hid].
    destruct (takesFrames k); [|exact Hid].
    rewrite lookup_alter_ne by congruence. exact Hid.
Qed.

(** After the loop every socket of the list that takes frames holds one
    more frame, and no other socket changed. *)
Lemma forEach_sendTo_lookup logMessage l :
  NoDup l -> forall s y,
  heap (exec (forEach (sendTo logMessage) l) s) !! y =
    (fun k => if bool_decide (y ∈ l) && takesFrames k
              then pushFrame (LogFrame logMessage) k else k) <$> heap s !! y.
Proof.
  induction 1 as [|x t Hx Ht IH]; intros s y.
  - cbn. now destruct (heap s !! y).
  - cbn [forEach].
    destruct (exec_then (sendTo logMessage x) (fun _ => forEach (sendTo logMessage) t) s
                (total_sendTo _ _)) as [[] ->].
    rewrite IH, sendTo_lookup. destruct (heap s !! y) as [k|]; [|reflexivity].
    cbn. f_equal. destruct (decide (y = x)) as [->|Hne].
    + rewrite (bool_decide_eq_false_2 (x ∈ t)) by exact Hx.
      rewrite (bool_decide_eq_true_2 (x = x)) by reflexivity.
      rewrite (bool_decide_eq_true_2 (x ∈ x :: t)) by (left).
      reflexivity.
    + rewrite (bool_decide_eq_false_2 (y = x)) by exact Hne. cbn [andb].
      rewrite (bool_decide_ext (y ∈ x :: t) (y ∈ t)); [reflexivity|].
      rewrite elem_of_cons. tauto.
Qed.

Lemma broadcastLog_lookup message s y :
  NoDup (clients s) ->
  heap (exec (broadcastLog message) s) !! y =
    (fun k => if bool_decide (y ∈ clients s) && takesFrames k
              then pushFrame (LogFrame (logText message)) k else k) <$> heap s !! y.
Proof.
  intros Hnd. unfold broadcastLog.
  set (echo := if negb (includes (logText message) BROADCAST)
               then originalConsoleLog [VStr (logText message)] else mret ()).
  assert (He : total echo) by (subst echo; destruct (negb _); auto with eff).
  destruct (exec_then echo
              (fun _ => subscribers ← gets clients;
                        forEach (sendTo (logText message)) subscribers) s He)
    as [[] ->].
  assert (Hc : clients (exec echo s) = clients s /\ heap (exec echo s) = heap s).
  { subst echo. destruct (negb _); split; reflexivity. }
  destruct Hc as [Hc Hh].
  unfold exec at 1, mbind, eff_bind, gets. rewrite Hc.
  fold (exec (forEach (sendTo (logText message)) (clients s)) (exec echo s)).
  now rewrite forEach_sendTo_lookup, Hh.
Qed.

(** C1. Publishing a message never throws. Every subscriber of the live
    set whose channel is open and whose transport takes the frame holds
    the frame [{log: message}] afterwards, whatever the transports of the
    other subscribers did; an open subscriber whose transport raises is
    left as it was. *)
Theorem publish_reaches_open_subscribers (message : jsstring) (s : Server) :
  NoDup (clients s) ->
  returns (broadcastLog (VStr message)) s
  /\ forall c k,
      c ∈ clients s -> heap s !! c = Some k -> readyState k = OPEN ->
      heap (exec (broadcastLog (VStr message)) s) !! c =
        Some (match sendFault k with
              | None => pushFrame (LogFrame message) k
              | Some _ => k
              end).
Proof.
  intros Hnd. split; [apply total_broadcastLog|].
  intros c k Hc Hk Ho.
  rewrite broadcastLog_lookup by exact Hnd. rewrite Hk. cbn. f_equal.
  rewrite bool_decide_eq_true_2 by exact Hc. unfold takesFrames.
  rewrite Ho. cbn. now destruct (sendFault k).
Qed.

(** *** Log interception *)

Lemma console_log_marked args s :
  includes (joined args) BROADCAST = true ->
  exec (console_log args) s = withStdout (stdout s ++ [args]) s.
Proof.
  intros H. unfold console_log. fold (joined args). rewrite H. reflexivity.
Qed.

Lemma console_error_marked args s :
  includes (joined args) BROADCAST = true ->
  exec (console_error args) s = withStderr (stderr s ++ [args]) s.
Proof.
  intros H. unfold console_error. fold (joined args). rewrite H. reflexivity.
Qed.

Lemma console_log_unmarked args s :
  includes (joined args) BROADCAST = false ->
  exec (console_log args) s =
    exec (broadcastLog (VStr (joined args))) (withStdout (stdout s ++ [args]) s).
Proof.
  intros H. unfold console_log. fold (joined args). rewrite H. reflexivity.
Qed.

Lemma console_error_unmarked args s :
  includes (joined args) BROADCAST = false ->
  exec (console_error args) s =
    exec (broadcastLog (VStr (lit "ERROR: " ++ joined args)))
      (withStderr (stderr s ++ [args]) s).
Proof.
  intros H. unfold console_error. fold (joined args). rewrite H. reflexivity.
Qed.

(** C8. A call of the intercepted [console.log] or [console.error] whose
    joined text contains the marker does nothing but the original call:
    no socket is touched. A call whose joined text does not contain it
    hands exactly one frame, carrying the text (after 'ERROR: ' for
    [console.error]), to every subscriber that takes frames, and leaves
    every other socket as it was. *)
Theorem interception_broadcasts_unmarked_once (args : list Value) (s : Server) :
  NoDup (clients s) ->
  (includes (joined args) BROADCAST = true ->
     exec (console_log args) s = withStdout (stdout s ++ [args]) s
     /\ exec (console_error args) s = withStderr (stderr s ++ [args]) s)
  /\ (includes (joined args) BROADCAST = false ->
      forall c k, heap s !! c = Some k ->
        heap (exec (console_log args) s) !! c =
          Some (if bool_decide (c ∈ clients s) && takesFrames k
                then pushFrame (LogFrame (joined args)) k else k)
        /\ heap (exec (console_error args) s) !! c =
          Some (if bool_decide (c ∈ clients s) && takesFrames k
                then pushFrame (LogFrame (lit "ERROR: " ++ joined args)) k else k)).
Proof.
  intros Hnd. split.
  - intros H. split; [now apply console_log_marked | now apply console_error_marked].
  - intros H c k Hk. split.
    + rewrite console_log_unmarked by exact H.
      rewrite broadcastLog_lookup by exact Hnd. cbn. now rewrite Hk.
    + rewrite console_error_unmarked by exact H.
      rewrite broadcastLog_lookup by exact Hnd. cbn. now rewrite Hk.
Qed.

(** *** The start and stop routes, case by case *)

Section RouteCases.

Variable LOCALAPPDATA : option jsstring.
Variable path_join : list jsstring -> jsstring.

Abbreviation postStart := (postStart LOCALAPPDATA path_join).

Abbreviation configOf := (configOf path_join).

Lemma postStart_not_arrays req s :
  links req = None \/ positions req = None ->
  postStart req s = (Normal invalidFormat, s).
Proof.
  intros H. unfold Backend.postStart.
  destruct (links req), (positions req); try reflexivity.
  destruct H; discriminate.
Qed.

Lemma postStart_running req ls ps s :
  links req = Some ls -> positions req = Some ps ->
  isRunning (worker s) = true ->
  postStart req s = (Normal alreadyRunning, s).
Proof.
  intros Hl Hp Hr. unfold Backend.postStart. rewrite Hl, Hp.
  unfold mbind, eff_bind, isJobMonitorRunning, gets. now rewrite Hr.
Qed.

Lemma postStart_nothing_valid req ls ps s :
  links req = Some ls -> positions req = Some ps ->
  isRunning (worker s) = false ->
  List.filter acceptsLink ls = [] \/ List.filter nonEmpty (List.map trim ps) = [] ->
  postStart req s = (Normal invalidInput, s).
Proof.
  intros Hl Hp Hr Hv. unfold Backend.postStart. rewrite Hl, Hp.
  unfold mbind, eff_bind, isJobMonitorRunning, gets. rewrite Hr.
  destruct (List.filter acceptsLink ls) as [|first rest]; [reflexivity|].
  destruct Hv as [Hv|Hv]; [discriminate|]. now rewrite Hv.
Qed.

Lemma postStart_accepts req ls ps first rest dir s :
  LOCALAPPDATA = Some dir ->
  links req = Some ls -> positions req = Some ps ->
  isRunning (worker s) = false ->
  List.filter acceptsLink ls = first :: rest ->
  List.filter nonEmpty (List.map trim ps) <> [] ->
  exists s',
    postStart req s =
      (Normal (mkResponse 200 (Started (lit "Script started") (configOf dir first ps))), s')
    /\ worker s' = mkWorker true (configOf dir first ps :: launched (worker s)).
Proof.
  intros Hd Hl Hp Hr Hf Hn. unfold Backend.postStart. rewrite Hl, Hp.
  unfold mbind at 1, eff_bind at 1, isJobMonitorRunning, gets. rewrite Hr, Hf.
  destruct (List.filter nonEmpty (List.map trim ps)) as [|p0 pt] eqn:Ep;
    [contradiction|].
  cbn [length Nat.eqb]. unfold userDataDir. rewrite Hd.
  unfold mbind, eff_bind, mret, eff_ret, tryCatch.
  rewrite !broadcastLog_run.
  unfold startMonitoringJobs, modify. cbn [AMAZON_JOBS_URL TARGET_JOBS].
  eexists. split.
  - unfold configOf. rewrite Ep. reflexivity.
  - cbn [worker withWorker]. rewrite !worker_broadcastLog.
    unfold configOf. now rewrite Ep.
Qed.

Lemma postStart_no_appdata req ls ps first rest s :
  LOCALAPPDATA = None ->
  links req = Some ls -> positions req = Some ps ->
  isRunning (worker s) = false ->
  List.filter acceptsLink ls = first :: rest ->
  List.filter nonEmpty (List.map trim ps) <> [] ->
  exists e, postStart req s = (Throw e, s).
Proof.
  intros Hd Hl Hp Hr Hf Hn. unfold Backend.postStart. rewrite Hl, Hp.
  unfold mbind at 1, eff_bind at 1, isJobMonitorRunning, gets. rewrite Hr, Hf.
  destruct (List.filter nonEmpty (List.map trim ps)) as [|p0 pt] eqn:Ep;
    [contradiction|].
  cbn [length Nat.eqb]. unfold userDataDir. rewrite Hd.
  eexists. reflexivity.
Qed.

Lemma postStop_idle s :
  isRunning (worker s) = false -> postStop s = (Normal notRunning, s).
Proof.
  intros Hr. unfold postStop, mbind, eff_bind, isJobMonitorRunning, gets.
  now rewrite Hr.
Qed.

(** Only the two routes touch the worker. *)
Lemma keeps_worker_socket_events e :
  match e with Start _ | Stop => False | _ => True end ->
  keeps worker (handle LOCALAPPDATA path_join e).
Proof.
  destruct e; intros H; try contradiction; cbn [handle].
  - unfold accept, onConnection, setIsAlive, updateSocket, originalConsoleLog.
    repeat eff_step.
  - unfold onPong, setIsAlive, updateSocket. repeat eff_step.
  - unfold onMessage, originalConsoleError. repeat eff_step.
  - unfold onError, originalConsoleError. repeat eff_step.
  - unfold emitClose, onClose, updateSocket, originalConsoleLog. repeat eff_step.
  - unfold pingCallback, checkAlive, terminate, ping, setIsAlive, updateSocket,
      readField, originalConsoleLog.
    repeat eff_step.
  - apply keeps_worker_broadcastLog.
  - unfold console_log, originalConsoleLog. repeat eff_step.
  - unfold console_error, originalConsoleError. repeat eff_step.
  - unfold getStatus, isJobMonitorRunning. repeat eff_step.
Qed.

Lemma running_step s e :
  e <> Stop -> isRunning (worker s) = true ->
  isRunning (worker (step LOCALAPPDATA path_join s e)) = true.
Proof.
  intros Hne Hr. unfold step.
  destruct e; try (rewrite keeps_worker_socket_events; [exact Hr | exact I]).
  - cbn [handle]. destruct (links req) as [ls|] eqn:El.
    + destruct (positions req) as [ps|] eqn:Ep.
      * unfold exec, mbind, eff_bind.
        rewrite (postStart_running req ls ps s El Ep Hr). exact Hr.
      * unfold exec, mbind, eff_bind.
        rewrite postStart_not_arrays by now right. exact Hr.
    + unfold exec, mbind, eff_bind.
      rewrite postStart_not_arrays by now left. exact Hr.
  - contradiction.
Qed.

Lemma running_run es s :
  Forall (fun e => e <> Stop) es -> isRunning (worker s) = true ->
  isRunning (worker (run LOCALAPPDATA path_join es s)) = true.
Proof.
  intros Hes. revert s. induction Hes as [|e es He _ IH]; intros s Hr.
  - exact Hr.
  - cbn. apply IH. now apply running_step.
Qed.

(** What a start request that was answered with a configuration went
    through. *)
Lemma postStart_started req s message config s' :
  postStart req s = (Normal (mkResponse 200 (Started message config)), s') ->
  exists ls ps first rest dir,
    links req = Some ls /\ positions req = Some ps /\ LOCALAPPDATA = Some dir
    /\ isRunning (worker s) = false
    /\ List.filter acceptsLink ls = first :: rest
    /\ config = configOf dir first ps
    /\ worker s' = mkWorker true (config :: launched (worker s)).
Proof.
  intros H.
  destruct (links req) as [ls|] eqn:El;
    [|rewrite postStart_not_arrays in H by (now left); discriminate].
  destruct (positions req) as [ps|] eqn:Ep;
    [|rewrite postStart_not_arrays in H by (now right); discriminate].
  destruct (isRunning (worker s)) eqn:Er;
    [rewrite (postStart_running req ls ps) in H by assumption; discriminate|].
  destruct (List.filter acceptsLink ls) as [|first rest] eqn:Ef;
    [rewrite (postStart_nothing_valid req ls ps) in H by (auto); discriminate|].
  destruct (List.filter nonEmpty (List.map trim ps)) as [|p0 pt] eqn:En;
    [rewrite (postStart_nothing_valid req ls ps) in H by (auto); discriminate|].
  assert (Hn : List.filter nonEmpty (List.map trim ps) <> []) by (now rewrite En).
  assert (Hd : (exists dir, LOCALAPPDATA = Some dir) \/ LOCALAPPDATA = None)
    by (destruct LOCALAPPDATA; eauto).
  destruct Hd as [[dir Hd]|Hd].
  - destruct (postStart_accepts req ls ps first rest dir s Hd El Ep Er Ef Hn)
      as (s1 & Hs1 & Hw).
    rewrite Hs1 in H. injection H as <- <- <-.
    exists ls, ps, first, rest, dir. now repeat split.
  - destruct (postStart_no_appdata req ls ps first rest s Hd El Ep Er Ef Hn)
      as (e & He).
    rewrite He in H. discriminate.
Qed.

(** C4. A start request answered with a configuration starts the worker;
    whatever happens next short of a stop request, a further start
    request is answered 400, with 'Script is already running' when its
    two fields are arrays, and leaves the process as it was, so that no
    second worker is started. A stop request while no worker runs is
    answered 400 'Script is not running' and leaves the process as it
    was. *)
Theorem second_start_and_idle_stop_rejected :
  (forall s req1 message config s1 es req2,
      postStart req1 s = (Normal (mkResponse 200 (Started message config)), s1) ->
      Forall (fun e => e <> Stop) es ->
      let s2 := run LOCALAPPDATA path_join es s1 in
      exists resp,
        postStart req2 s2 = (Normal resp, s2) /\ status resp = 400
        /\ (is_Some (links req2) -> is_Some (positions req2) ->
            resp = alreadyRunning))
  /\ (forall s, isRunning (worker s) = false ->
        postStop s = (Normal notRunning, s)).
Proof.
  split; [|apply postStop_idle].
  intros s req1 message config s1 es req2 H1 Hes s2.
  destruct (postStart_started _ _ _ _ _ H1) as (_ & _ & _ & _ & _ & _ & _ & _ & _ & _ & _ & Hw).
  assert (Hr : isRunning (worker s2) = true).
  { apply running_run; [exact Hes|]. now rewrite Hw. }
  destruct (links req2) as [ls|] eqn:El.
  - destruct (positions req2) as [ps|] eqn:Ep.
    + exists alreadyRunning. split; [|now split].
      now apply (postStart_running req2 ls ps).
    + exists invalidFormat. split; [apply postStart_not_arrays; now right|].
      split; [reflexivity|]. intros _ [? ?]. discriminate.
  - exists invalidFormat. split; [apply postStart_not_arrays; now left|].
    split; [reflexivity|]. intros [? ?]. discriminate.
Qed.


(** C6. When a start request is answered with a configuration, its two
    fields are arrays, the primary target of the configuration is the
    first link that begins, once trimmed, with 'https://hiring.amazon',
    the target positions are the positions that are not empty once
    trimmed, each in its trimmed form and in their order, and this
    configuration is the one the worker is started with. *)
Theorem start_config_of_accepted req s message config s' :
  postStart req s = (Normal (mkResponse 200 (Started message config)), s') ->
  exists ls ps,
    links req = Some ls /\ positions req = Some ps
    /\ firstSuch linkAccepted (AMAZON_JOBS_URL config) ls
    /\ TARGET_JOBS config = List.map trim (filter positionAccepted ps)
    /\ launched (worker s') = config :: launched (worker s).
Proof.
  intros H.
  destruct (postStart_started _ _ _ _ _ H)
    as (ls & ps & first & rest & dir & Hl & Hp & _ & _ & Hf & -> & Hw).
  exists ls, ps. repeat split; auto.
  - destruct (filter_head _ _ _ _ Hf) as (b & a & -> & Hb & Hx & _).
    exists b, a. repeat split; auto.
    eapply Forall_impl; [exact Hb|]. intros l. apply acceptsLink_false.
  - apply targetPositions_spec.
  - now rewrite Hw.
Qed.

(** C10. A start request with array fields, received while no worker
    runs and with the environment entry defined, is answered with a
    configuration as soon as one link and one position are accepted. The
    primary target is then the first accepted link as it was supplied:
    the trimmed form serves the prefix test only. The target positions
    are the trimmed forms of the accepted positions. *)
Theorem start_stores_link_untrimmed dir s before link after ps :
  LOCALAPPDATA = Some dir ->
  isRunning (worker s) = false ->
  Forall (fun l => ~ linkAccepted l) before -> linkAccepted link ->
  Exists positionAccepted ps ->
  exists config s',
    postStart (mkStartRequest (Some (before ++ link :: after)) (Some ps)) s =
      (Normal (mkResponse 200 (Started (lit "Script started") config)), s')
    /\ AMAZON_JOBS_URL config = link
    /\ TARGET_JOBS config = List.map trim (filter positionAccepted ps)
    /\ Forall (fun t => exists p, p ∈ ps /\ positionAccepted p /\ t = trim p)
         (TARGET_JOBS config).
Proof.
  intros Hd Hr Hb Hx Hps.
  assert (Hf : List.filter acceptsLink (before ++ link :: after)
               = link :: List.filter acceptsLink after).
  { apply filter_skip; [|exact Hx].
    eapply Forall_impl; [exact Hb|]. intros l. apply acceptsLink_false. }
  assert (Hn : List.filter nonEmpty (List.map trim ps) <> []).
  { rewrite targetPositions_spec. intros E. apply map_eq_nil in E.
    apply Exists_exists in Hps as (p & Hin & Hp).
    assert (p ∈ filter positionAccepted ps) as Hm.
    { apply list_elem_of_filter. now split. }
    rewrite E in Hm. inversion Hm. }
  destruct (postStart_accepts (mkStartRequest (Some (before ++ link :: after)) (Some ps))
              _ ps link _ dir s Hd eq_refl eq_refl Hr Hf Hn) as (s' & Hs' & _).
  exists (configOf dir link ps), s'. repeat split; auto.
  - apply targetPositions_spec.
  - unfold BackendNotions.configOf. cbn [TARGET_JOBS].
    rewrite targetPositions_spec. apply Forall_forall. intros t Ht.
    apply list_elem_of_fmap in Ht as (p & -> & Hin).
    apply list_elem_of_filter in Hin as [Hp Hin].
    now exists p.
Qed.

End RouteCases.

(** *** The liveness check *)

Lemma elem_of_setAdd x y l : y ∈ setAdd x l <-> y = x \/ y ∈ l.
Proof.
  unfold setAdd. case_bool_decide as Hx.
  - split; [now right|]. intros [->|H]; assumption.
  - rewrite elem_of_app, list_elem_of_singleton. tauto.
Qed.

Lemma elem_of_setDelete x y l : y ∈ setDelete x l <-> y <> x /\ y ∈ l.
Proof.
  unfold setDelete. rewrite !list_elem_of_In, List.filter_In.
  rewrite negb_true_iff, Nat.eqb_neq.
  split; intros [? ?]; split; auto.
Qed.

Lemma NoDup_setAdd x l : NoDup l -> NoDup (setAdd x l).
Proof.
  intros H. unfold setAdd. case_bool_decide as Hx; [exact H|].
  apply NoDup_app. split; [exact H|]. split.
  - intros y Hy Hy'. apply list_elem_of_singleton in Hy'. now subst.
  - apply NoDup_singleton.
Qed.

Lemma NoDup_setDelete x l : NoDup l -> NoDup (setDelete x l).
Proof.
  intros H. unfold setDelete. apply NoDup_ListNoDup, List.NoDup_filter.
  now apply NoDup_ListNoDup.
Qed.

Lemma vitals_heap c h s :
  (fun k => (readyState k, isAlive k, pings k)) <$> h !! c
    = (fun k => (readyState k, isAlive k, pings k)) <$> heap s !! c ->
  vitals c (withHeap h s) = vitals c s.
Proof. unfold vitals. cbn. now intros ->. Qed.

Lemma keeps_vitals_updateSocket c x f :
  x <> c \/ (forall k, (readyState (f k), isAlive (f k), pings (f k))
                      = (readyState k, isAlive k, pings k)) ->
  keeps (vitals c) (updateSocket x f).
Proof.
  intros H s. unfold updateSocket, exec, modify. cbn [snd].
  apply vitals_heap. destruct (decide (x = c)) as [->|Hne].
  - destruct H as [H|H]; [contradiction|].
    rewrite lookup_alter_eq. destruct (heap s !! c) as [k|]; cbn; [|reflexivity].
    now rewrite H.
  - now rewrite lookup_alter_ne.
Qed.

Lemma keeps_vitals_send c x frame : keeps (vitals c) (send x frame).
Proof.
  unfold send, readField. eff_step; [eff_step|]. eff_step; [eff_step|].
  eff_step; [eff_step|]. eff_step; [|eff_step].
  apply keeps_vitals_updateSocket. now right.
Qed.

Lemma keeps_vitals_sendTo c logMessage x : keeps (vitals c) (sendTo logMessage x).
Proof.
  unfold sendTo, readField, originalConsoleError. eff_step; [eff_step|].
  eff_step; [|eff_step]. eff_step; [apply keeps_vitals_send | eff_step].
Qed.

Lemma keeps_vitals_broadcastLog c message : keeps (vitals c) (broadcastLog message).
Proof.
  unfold broadcastLog, originalConsoleLog. repeat eff_step.
  apply keeps_vitals_sendTo.
Qed.

Lemma total_checkAlive x : total (checkAlive x).
Proof.
  unfold checkAlive, terminate, ping, setIsAlive, originalConsoleLog.
  repeat eff_step.
Qed.

Lemma checkAlive_heap x s :
  heap (exec (checkAlive x) s) = alter afterCheck x (heap s).
Proof.
  unfold exec, checkAlive, terminate, ping, setIsAlive, readField, updateSocket,
    originalConsoleLog, mbind, eff_bind, gets, modify, mret, eff_ret.
  cbn beta. apply map_eq. intros y.
  destruct (heap s !! x) as [k|] eqn:E; cbn [from_option].
  - unfold afterCheck.
    destruct (bool_decide (isAlive k = Some false)) eqn:Ea.
    + server_simpl. rewrite E. cbn [from_option].
      destruct (readyState k =? CLOSED) eqn:Ec; server_simpl.
      * destruct (decide (x = y)) as [->|Hne].
        -- rewrite lookup_alter_eq, E. cbn. now rewrite Ea, Ec.
        -- now rewrite lookup_alter_ne.
      * destruct (decide (x = y)) as [->|Hne].
        -- rewrite !lookup_alter_eq, E. cbn. now rewrite Ea, Ec.
        -- now rewrite !lookup_alter_ne.
    + server_simpl. rewrite lookup_alter_eq, E. cbn [fmap option_fmap option_map from_option readyState].
      destruct (readyState k =? OPEN) eqn:Eo; server_simpl.
      * destruct (decide (x = y)) as [->|Hne].
        -- rewrite !lookup_alter_eq, E. cbn. now rewrite Ea, Eo.
        -- now rewrite !lookup_alter_ne.
      * destruct (decide (x = y)) as [->|Hne].
        -- rewrite !lookup_alter_eq, E. cbn. now rewrite Ea, Eo.
        -- now rewrite !lookup_alter_ne.
  - rewrite bool_decide_eq_false_2 by discriminate.
    server_simpl. rewrite lookup_alter_eq, E. cbn [fmap option_fmap option_map from_option].
    change (CLOSED =? OPEN) with false. server_simpl.
    destruct (decide (x = y)) as [->|Hne].
    + now rewrite !lookup_alter_eq, E.
    + now rewrite !lookup_alter_ne.
Qed.

Lemma forEach_checkAlive_lookup l :
  NoDup l -> forall s y,
  heap (exec (forEach checkAlive l) s) !! y =
    (fun k => if bool_decide (y ∈ l) then afterCheck k else k) <$> heap s !! y.
Proof.
  induction 1 as [|x t Hx Ht IH]; intros s y.
  - cbn. now destruct (heap s !! y).
  - cbn [forEach].
    destruct (exec_then (checkAlive x) (fun _ => forEach checkAlive t) s
                (total_checkAlive x)) as [[] ->].
    rewrite IH, checkAlive_heap. destruct (decide (y = x)) as [->|Hne].
    + rewrite lookup_alter_eq.
      rewrite (bool_decide_eq_false_2 (x ∈ t)) by exact Hx.
      rewrite (bool_decide_eq_true_2 (x ∈ x :: t)) by (left).
      now destruct (heap s !! x).
    + rewrite lookup_alter_ne by congruence.
      rewrite (bool_decide_ext (y ∈ x :: t) (y ∈ t)); [reflexivity|].
      rewrite elem_of_cons. tauto.
Qed.

Lemma closing_checkAlive x s c :
  c ∈ closing s -> c ∈ closing (exec (checkAlive x) s).
Proof.
  intros Hc.
  unfold exec, checkAlive, terminate, ping, setIsAlive, readField, updateSocket,
    originalConsoleLog, mbind, eff_bind, gets, modify, mret, eff_ret.
  cbn beta.
  destruct (bool_decide (from_option isAlive None (heap s !! x) = Some false)).
  - server_simpl.
    destruct (from_option readyState CLOSED (heap s !! x) =? CLOSED); server_simpl;
      [exact Hc|].
    apply elem_of_setAdd. now right.
  - server_simpl.
    destruct (from_option readyState CLOSED
                (alter (fun k => mkSocket (readyState k) (Some false) (sendFault k)
                                   (outbox k) (pings k)) x (heap s) !! x) =? OPEN);
      server_simpl; exact Hc.
Qed.

Lemma closing_forEach_checkAlive l c :
  forall s, c ∈ closing s -> c ∈ closing (exec (forEach checkAlive l) s).
Proof.
  induction l as [|x t IH]; intros s Hc; [exact Hc|].
  cbn [forEach].
  destruct (exec_then (checkAlive x) (fun _ => forEach checkAlive t) s
              (total_checkAlive x)) as [[] ->].
  apply IH. now apply closing_checkAlive.
Qed.

Lemma closing_terminated c s k :
  heap s !! c = Some k -> isAlive k = Some false -> readyState k <> CLOSED ->
  c ∈ closing (exec (checkAlive c) s).
Proof.
  intros Hk Ha Hr.
  unfold exec, checkAlive, terminate, ping, setIsAlive, readField, updateSocket,
    originalConsoleLog, mbind, eff_bind, gets, modify, mret, eff_ret.
  cbn beta. rewrite Hk. cbn [from_option]. rewrite Ha.
  rewrite bool_decide_eq_true_2 by reflexivity. server_simpl.
  rewrite Hk. cbn [from_option].
  destruct (readyState k =? CLOSED) eqn:E; [apply Z.eqb_eq in E; contradiction|].
  server_simpl. apply elem_of_setAdd. now left.
Qed.

Lemma forEach_checkAlive_terminates l c :
  forall s k, c ∈ l -> heap s !! c = Some k ->
  isAlive k = Some false -> readyState k <> CLOSED ->
  c ∈ closing (exec (forEach checkAlive l) s).
Proof.
  induction l as [|x t IH]; intros s k Hin Hk Ha Hr; [inversion Hin|].
  cbn [forEach].
  destruct (exec_then (checkAlive x) (fun _ => forEach checkAlive t) s
              (total_checkAlive x)) as [[] ->].
  destruct (decide (x = c)) as [->|Hne].
  - apply closing_forEach_checkAlive. now apply (closing_terminated c s k).
  - apply elem_of_cons in Hin as [->|Hin]; [contradiction|].
    apply (IH _ k); auto.
    rewrite checkAlive_heap, lookup_alter_ne by exact Hne. exact Hk.
Qed.

Lemma keeps_watch {A} c (m : Eff Server A) :
  keeps (vitals c) m -> keeps nextSocket m -> keeps wssClients m ->
  keeps (watch c) m.
Proof. intros H1 H2 H3 s. unfold watch. now rewrite H1, H2, H3. Qed.

Lemma watch_inv c s s' :
  watch c s' = watch c s ->
  vitals c s' = vitals c s /\ nextSocket s' = nextSocket s
  /\ wssClients s' = wssClients s.
Proof. unfold watch. intros H. repeat split; congruence. Qed.

Lemma keeps_watch_broadcastLog c message : keeps (watch c) (broadcastLog message).
Proof.
  apply keeps_watch; [apply keeps_vitals_broadcastLog| |];
    now apply keeps_broadcastLog.
Qed.

Lemma keeps_watch_send c x frame : keeps (watch c) (send x frame).
Proof.
  apply keeps_watch; [apply keeps_vitals_send| |]; now apply keeps_send.
Qed.

#[export] Hint Resolve keeps_watch_broadcastLog : eff.

Section Liveness.

Variable LOCALAPPDATA : option jsstring.
Variable path_join : list jsstring -> jsstring.

Abbreviation step := (step LOCALAPPDATA path_join).
Abbreviation run := (run LOCALAPPDATA path_join).
Abbreviation handle := (handle LOCALAPPDATA path_join).

Lemma keeps_watch_routes c e :
  match e with
  | FromClient _ _ | SocketError _ _
  | Publish _ | ConsoleLog _ | ConsoleError _ | Start _ | Stop | GetStatus => True
  | _ => False
  end ->
  keeps (watch c) (handle e).
Proof.
  destruct e; intros H; try contradiction; cbn [Backend.handle].
  - unfold onMessage, originalConsoleError. repeat eff_step.
    apply keeps_watch_send.
  - unfold onError, originalConsoleError. repeat eff_step.
  - apply keeps_watch_broadcastLog.
  - unfold console_log, originalConsoleLog. repeat eff_step.
  - unfold console_error, originalConsoleError. repeat eff_step.
  - unfold postStart, userDataDir, isJobMonitorRunning, startMonitoringJobs,
      console_error, originalConsoleError.
    repeat eff_step.
  - unfold postStop, isJobMonitorRunning, stopMonitoringJobs. repeat eff_step.
  - unfold getStatus, isJobMonitorRunning. repeat eff_step.
Qed.

Lemma quiet_pong c w s :
  w <> c -> watch c (step s (Pong w)) = watch c s.
Proof.
  intros Hne. apply (keeps_watch c (onPong w)).
  - apply keeps_vitals_updateSocket. now left.
  - unfold onPong, setIsAlive, updateSocket. eff_step.
  - unfold onPong, setIsAlive, updateSocket. eff_step.
Qed.

Lemma quiet_close c w code reason s :
  w <> c ->
  vitals c (step s (Close w code reason)) = vitals c s
  /\ nextSocket (step s (Close w code reason)) = nextSocket s
  /\ wssClients (step s (Close w code reason)) = setDelete w (wssClients s).
Proof.
  intros Hne. split; [|split; reflexivity].
  unfold vitals, Backend.step, exec, Backend.handle, emitClose, onClose,
    updateSocket, originalConsoleLog, modify, mbind, eff_bind.
  server_simpl. rewrite lookup_alter_ne by exact Hne.
  f_equal; [f_equal|]; apply bool_decide_ext; rewrite elem_of_setDelete;
    intuition congruence.
Qed.

Lemma quiet_connection c fault s :
  (c < nextSocket s)%nat ->
  vitals c (step s (Connection fault)) = vitals c s
  /\ nextSocket (step s (Connection fault)) = S (nextSocket s)
  /\ wssClients (step s (Connection fault)) = setAdd (nextSocket s) (wssClients s).
Proof.
  intros Hlt.
  assert (Hne : nextSocket s <> c) by lia.
  unfold Backend.step, Backend.handle, accept.
  set (s1 := withNextSocket (S (nextSocket s))
               (withWssClients (setAdd (nextSocket s) (wssClients s))
                  (withHeap (<[nextSocket s := mkSocket OPEN None fault [] 0]> (heap s)) s))).
  assert (Hs1 : forall k : nat -> Eff Server unit,
             exec (ws ← (ws ← gets nextSocket;
                         modify (fun s =>
                           withNextSocket (S ws)
                             (withWssClients (setAdd ws (wssClients s))
                                (withHeap (<[ws := mkSocket OPEN None fault [] 0]> (heap s)) s))) ;;
                         mret ws); k ws) s
             = exec (k (nextSocket s)) s1) by reflexivity.
  rewrite Hs1.
  assert (Hk : keeps (watch c) (onConnection (nextSocket s))).
  { apply keeps_watch.
    - unfold onConnection, setIsAlive, originalConsoleLog.
      eff_step; [eff_step|]. eff_step.
      + intros s0. unfold exec, modify, vitals. server_simpl.
        f_equal. f_equal. apply bool_decide_ext. rewrite elem_of_setAdd.
        split; [intros [->|?]; [contradiction|assumption] | now right].
      + eff_step; [apply keeps_vitals_updateSocket; now left|].
        apply keeps_vitals_send.
    - unfold onConnection, setIsAlive, updateSocket, originalConsoleLog.
      repeat eff_step. now apply keeps_send.
    - unfold onConnection, setIsAlive, updateSocket, originalConsoleLog.
      repeat eff_step. now apply keeps_send. }
  destruct (watch_inv _ _ _ (Hk s1)) as (Hv & Hn & Hw).
  rewrite Hv, Hn, Hw. split; [|split; reflexivity].
  unfold vitals. subst s1. server_simpl. rewrite lookup_insert_ne by exact Hne.
  f_equal. apply bool_decide_ext. rewrite elem_of_setAdd.
  split; [intros [->|?]; [contradiction|assumption] | now right].
Qed.

(** A quiet event leaves the vitals of [c] alone, and the two facts the
    next tick relies on. *)
Lemma quiet_step c e s :
  quiet c e -> (c < nextSocket s)%nat -> NoDup (wssClients s) ->
  vitals c (step s e) = vitals c s
  /\ (c < nextSocket (step s e))%nat /\ NoDup (wssClients (step s e)).
Proof.
  intros Hq Hlt Hnd. destruct e; cbn [quiet] in Hq; try contradiction.
  - destruct (quiet_connection c fault s Hlt) as (Hv & Hn & Hw).
    rewrite Hv, Hn, Hw. repeat split; [lia | now apply NoDup_setAdd].
  - destruct (watch_inv _ _ _ (quiet_pong c ws s Hq)) as (Hv & Hn & Hw).
    rewrite Hv, Hn, Hw. auto.
  - destruct (watch_inv _ _ _ (keeps_watch_routes c (FromClient ws message) I s))
      as (Hv & Hn & Hw).
    unfold Backend.step. rewrite Hv, Hn, Hw. auto.
  - destruct (watch_inv _ _ _ (keeps_watch_routes c (SocketError ws error) I s))
      as (Hv & Hn & Hw).
    unfold Backend.step. rewrite Hv, Hn, Hw. auto.
  - destruct (quiet_close c ws code reason s Hq) as (Hv & Hn & Hw).
    rewrite Hv, Hn, Hw. repeat split; [lia | now apply NoDup_setDelete].
  - destruct (watch_inv _ _ _ (keeps_watch_routes c (Publish message) I s)) as (Hv & Hn & Hw).
    unfold Backend.step. rewrite Hv, Hn, Hw. auto.
  - destruct (watch_inv _ _ _ (keeps_watch_routes c (ConsoleLog args) I s)) as (Hv & Hn & Hw).
    unfold Backend.step. rewrite Hv, Hn, Hw. auto.
  - destruct (watch_inv _ _ _ (keeps_watch_routes c (ConsoleError args) I s)) as (Hv & Hn & Hw).
    unfold Backend.step. rewrite Hv, Hn, Hw. auto.
  - destruct (watch_inv _ _ _ (keeps_watch_routes c (Start req) I s)) as (Hv & Hn & Hw).
    unfold Backend.step. rewrite Hv, Hn, Hw. auto.
  - destruct (watch_inv _ _ _ (keeps_watch_routes c Stop I s)) as (Hv & Hn & Hw).
    unfold Backend.step. rewrite Hv, Hn, Hw. auto.
  - destruct (watch_inv _ _ _ (keeps_watch_routes c GetStatus I s)) as (Hv & Hn & Hw).
    unfold Backend.step. rewrite Hv, Hn, Hw. auto.
Qed.

Lemma quiet_run c es :
  Forall (quiet c) es -> forall s,
  (c < nextSocket s)%nat -> NoDup (wssClients s) ->
  vitals c (run es s) = vitals c s
  /\ (c < nextSocket (run es s))%nat /\ NoDup (wssClients (run es s)).
Proof.
  induction 1 as [|e es He _ IH]; intros s Hlt Hnd; [now repeat split|].
  change (run (e :: es) s) with (run es (step s e)).
  destruct (quiet_step c e s He Hlt Hnd) as (Hv & Hlt' & Hnd').
  destruct (IH _ Hlt' Hnd') as (Hv2 & ? & ?).
  rewrite Hv2, Hv. auto.
Qed.

(** *** The subscriber set holds each socket once *)

Lemma keeps_clients_send ws frame : keeps clients (send ws frame).
Proof. now apply keeps_send. Qed.

Lemma keeps_clients_broadcastLog message : keeps clients (broadcastLog message).
Proof. now apply keeps_broadcastLog. Qed.

#[local] Hint Resolve keeps_clients_send keeps_clients_broadcastLog : eff.

Lemma clients_step s e :
  clients (step s e) =
    match e with
    | Connection _ => setAdd (nextSocket s) (clients s)
    | Close w _ _ => setDelete w (clients s)
    | _ => clients s
    end.
Proof.
  destruct e; unfold Backend.step; cbn [Backend.handle];
    try (match goal with
         | |- clients (exec ?m s) = clients s =>
             assert (Hk : keeps clients m); [|exact (Hk s)]
         end).
  - set (s1 := withNextSocket (S (nextSocket s))
                 (withWssClients (setAdd (nextSocket s) (wssClients s))
                    (withHeap (<[nextSocket s := mkSocket OPEN None fault [] 0]> (heap s)) s))).
    change (exec (ws ← accept fault; onConnection ws) s)
      with (exec (onConnection (nextSocket s)) s1).
    set (s2 := withClients (setAdd (nextSocket s) (clients s1))
                 (withStdout
                    (stdout s1 ++ [[VStr (lit "[BROADCAST] New WebSocket client connected")]])
                    s1)).
    change (exec (onConnection (nextSocket s)) s1)
      with (exec (setIsAlive (nextSocket s) true ;;
                  send (nextSocket s) (LogFrame (lit "Connected to Amazon Jobs Monitor")))
              s2).
    assert (Hk : keeps clients
                   (setIsAlive (nextSocket s) true ;;
                    send (nextSocket s) (LogFrame (lit "Connected to Amazon Jobs Monitor")))).
    { unfold setIsAlive, updateSocket. repeat eff_step. }
    rewrite Hk. reflexivity.
  - unfold onPong, setIsAlive, updateSocket. repeat eff_step.
  - unfold onMessage, originalConsoleError. repeat eff_step.
  - unfold onError, originalConsoleError. repeat eff_step.
  - reflexivity.
  - unfold pingCallback, checkAlive, terminate, ping, setIsAlive, readField,
      updateSocket, originalConsoleLog.
    repeat eff_step.
  - apply keeps_clients_broadcastLog.
  - unfold console_log, originalConsoleLog. repeat eff_step.
  - unfold console_error, originalConsoleError. repeat eff_step.
  - unfold postStart, userDataDir, isJobMonitorRunning, startMonitoringJobs,
      console_error, originalConsoleError.
    repeat eff_step.
  - unfold postStop, isJobMonitorRunning, stopMonitoringJobs. repeat eff_step.
  - unfold getStatus, isJobMonitorRunning. repeat eff_step.
Qed.

(** From the start of the process on, [clients] holds no socket twice. *)
Lemma clients_NoDup es : NoDup (clients (run es initial)).
Proof.
  assert (H : forall s, NoDup (clients s) -> NoDup (clients (run es s))).
  { induction es as [|e es IH]; intros s Hs; [exact Hs|].
    change (run (e :: es) s) with (run es (step s e)).
    apply IH. rewrite clients_step.
    destruct e; auto using NoDup_setAdd, NoDup_setDelete. }
  apply H. constructor.
Qed.

Lemma tick_frame s :
  clients (step s PingTimer) = clients s
  /\ wssClients (step s PingTimer) = wssClients s
  /\ nextSocket (step s PingTimer) = nextSocket s.
Proof.
  assert (H : keeps (fun s => (clients s, wssClients s, nextSocket s)) pingCallback).
  { unfold pingCallback, checkAlive, terminate, ping, setIsAlive, readField,
      updateSocket, originalConsoleLog.
    repeat eff_step. }
  specialize (H s). unfold Backend.step, Backend.handle.
  repeat split; congruence.
Qed.

Lemma tick_socket s c k :
  NoDup (wssClients s) -> c ∈ wssClients s -> heap s !! c = Some k ->
  heap (step s PingTimer) !! c = Some (afterCheck k).
Proof.
  intros Hnd Hc Hk. unfold Backend.step, Backend.handle, pingCallback.
  unfold exec at 1, mbind, eff_bind, gets.
  fold (exec (forEach checkAlive (wssClients s)) s).
  rewrite forEach_checkAlive_lookup by exact Hnd. rewrite Hk. cbn.
  now rewrite bool_decide_eq_true_2 by exact Hc.
Qed.

Lemma tick_terminates s c k :
  c ∈ wssClients s -> heap s !! c = Some k ->
  isAlive k = Some false -> readyState k <> CLOSED ->
  c ∈ closing (step s PingTimer).
Proof.
  intros Hc Hk Ha Hr. unfold Backend.step, Backend.handle, pingCallback.
  unfold exec at 1, mbind, eff_bind, gets.
  fold (exec (forEach checkAlive (wssClients s)) s).
  now apply (forEach_checkAlive_terminates _ c s k).
Qed.

Lemma pong_socket s c k :
  heap s !! c = Some k ->
  heap (step s (Pong c)) !! c =
    Some (mkSocket (readyState k) (Some true) (sendFault k) (outbox k) (pings k))
  /\ clients (step s (Pong c)) = clients s
  /\ wssClients (step s (Pong c)) = wssClients s
  /\ nextSocket (step s (Pong c)) = nextSocket s.
Proof.
  intros Hk. split; [|now repeat split].
  unfold Backend.step, Backend.handle, onPong, setIsAlive, updateSocket, exec, modify.
  server_simpl. now rewrite lookup_alter_eq, Hk.
Qed.

Lemma close_removes s c code reason :
  (c ∉ clients (step s (Close c code reason)))
  /\ (c ∉ wssClients (step s (Close c code reason))).
Proof.
  unfold Backend.step, exec, Backend.handle, emitClose, onClose,
    updateSocket, originalConsoleLog, modify, mbind, eff_bind.
  server_simpl. rewrite !elem_of_setDelete. tauto.
Qed.

Lemma vitals_socket c s s' k :
  vitals c s' = vitals c s -> heap s !! c = Some k ->
  exists k', heap s' !! c = Some k' /\ readyState k' = readyState k
             /\ isAlive k' = isAlive k /\ pings k' = pings k.
Proof.
  unfold vitals. intros H Hk. rewrite Hk in H. injection H as H _ _.
  destruct (heap s' !! c) as [k'|]; [|discriminate].
  injection H as ? ? ?. now exists k'.
Qed.

Lemma vitals_members c s s' :
  vitals c s' = vitals c s ->
  (c ∈ clients s -> c ∈ clients s') /\ (c ∈ wssClients s -> c ∈ wssClients s').
Proof.
  unfold vitals. intros H. injection H as _ Hc Hw. split; intros Hin.
  - apply (bool_decide_unpack _). rewrite Hc. now apply bool_decide_pack.
  - apply (bool_decide_unpack _). rewrite Hw. now apply bool_decide_pack.
Qed.

Lemma run_app es1 es2 s : run (es1 ++ es2) s = run es2 (run es1 s).
Proof. apply fold_left_app. Qed.

(** Quiet events, then a tick of the ping timer: the tick finds the
    socket [c] as the quiet events found it. *)
Lemma quiet_then_tick s c k es :
  c ∈ wssClients s -> NoDup (wssClients s) -> (c < nextSocket s)%nat ->
  heap s !! c = Some k -> Forall (quiet c) es ->
  let s' := run (es ++ [PingTimer]) s in
  exists k',
    readyState k' = readyState k /\ isAlive k' = isAlive k /\ pings k' = pings k
    /\ heap s' !! c = Some (afterCheck k')
    /\ c ∈ wssClients s' /\ (c ∈ clients s -> c ∈ clients s')
    /\ NoDup (wssClients s') /\ (c < nextSocket s')%nat
    /\ (isAlive k = Some false -> readyState k <> CLOSED -> c ∈ closing s').
Proof.
  intros Hc Hnd Hlt Hk Hes s'. subst s'. rewrite run_app.
  destruct (quiet_run c es Hes s Hlt Hnd) as (Hv & Hlt1 & Hnd1).
  destruct (vitals_socket _ _ _ _ Hv Hk) as (k' & Hk' & Hr & Ha & Hp).
  destruct (vitals_members _ _ _ Hv) as (Hmc & Hmw).
  set (s1 := run es s) in *.
  change (run [PingTimer] s1) with (step s1 PingTimer).
  destruct (tick_frame s1) as (Hcl & Hw & Hn).
  exists k'. rewrite Hcl, Hw, Hn. repeat split; auto.
  - now apply tick_socket; auto.
  - intros Hf Hnc. apply (tick_terminates s1 c k'); auto; congruence.
Qed.

(** C7. An open socket of the server's set that answers is pinged by the
    ping timer. If no pong of it arrives before the next tick, that tick
    terminates it: the socket is closing, no second ping was sent, and
    its close event is due; handling the close event takes it out of the
    subscriber set. If a pong of it arrives in time, the next tick pings
    it again and leaves it open and in the sets. *)
Theorem unanswered_ping_terminates s c k :
  c ∈ wssClients s -> NoDup (wssClients s) -> (c < nextSocket s)%nat ->
  heap s !! c = Some k -> readyState k = OPEN -> isAlive k <> Some false ->
  (forall es, Forall (quiet c) es ->
     let s2 := run (PingTimer :: es ++ [PingTimer]) s in
     (exists k2, heap s2 !! c = Some k2 /\ readyState k2 = CLOSING
                 /\ pings k2 = S (pings k))
     /\ c ∈ closing s2
     /\ forall code reason,
         (c ∉ clients (step s2 (Close c code reason)))
         /\ (c ∉ wssClients (step s2 (Close c code reason))))
  /\ (forall es1 es2, Forall (quiet c) es1 -> Forall (quiet c) es2 ->
     let s2 := run (PingTimer :: es1 ++ Pong c :: es2 ++ [PingTimer]) s in
     (exists k2, heap s2 !! c = Some k2 /\ readyState k2 = OPEN
                 /\ isAlive k2 = Some false /\ pings k2 = S (S (pings k)))
     /\ c ∈ wssClients s2 /\ (c ∈ clients s -> c ∈ clients s2)).
Proof.
  intros Hc Hnd Hlt Hk Ho Ha.
  destruct (quiet_then_tick s c k [] Hc Hnd Hlt Hk (List.Forall_nil _))
    as (k0 & Hr0 & Ha0 & Hp0 & Hk1 & Hc1 & Hcl1 & Hnd1 & Hlt1 & _).
  change (run ([] ++ [PingTimer]) s) with (step s PingTimer) in *.
  set (s1 := step s PingTimer) in *.
  set (k1 := afterCheck k0) in *.
  assert (Hv1 : readyState k1 = OPEN /\ isAlive k1 = Some false
                /\ pings k1 = S (pings k)).
  { subst k1. unfold afterCheck.
    rewrite bool_decide_eq_false_2 by congruence. cbn.
    rewrite Hr0, Ho, Hp0. now repeat split. }
  destruct Hv1 as (Hr1 & Ha1 & Hp1).
  split.
  - intros es Hes s2. subst s2.
    change (run (PingTimer :: es ++ [PingTimer]) s) with (run (es ++ [PingTimer]) s1).
    destruct (quiet_then_tick s1 c k1 es Hc1 Hnd1 Hlt1 Hk1 Hes)
      as (k' & Hr' & Ha' & Hp' & Hk2 & _ & _ & _ & _ & Hclosing).
    split; [|split; [|intros code reason; apply close_removes]].
    + exists (afterCheck k'). split; [exact Hk2|].
      unfold afterCheck. rewrite Ha', Ha1, bool_decide_eq_true_2 by reflexivity.
      rewrite Hr', Hr1. cbn. split; [reflexivity | congruence].
    + apply Hclosing; [exact Ha1|]. rewrite Hr1. discriminate.
  - intros es1 es2 Hes1 Hes2 s2. subst s2.
    change (run (PingTimer :: es1 ++ Pong c :: es2 ++ [PingTimer]) s)
      with (run (es1 ++ Pong c :: es2 ++ [PingTimer]) s1).
    rewrite run_app.
    destruct (quiet_run c es1 Hes1 s1 Hlt1 Hnd1) as (Hv & Hlt2 & Hnd2).
    destruct (vitals_socket _ _ _ _ Hv Hk1) as (k1' & Hk1' & Hr1' & Ha1' & Hp1').
    destruct (vitals_members _ _ _ Hv) as (Hmc & Hmw).
    set (s1' := run es1 s1) in *.
    change (run (Pong c :: es2 ++ [PingTimer]) s1')
      with (run (es2 ++ [PingTimer]) (step s1' (Pong c))).
    destruct (pong_socket s1' c k1' Hk1') as (Hkp & Hclp & Hwp & Hnp).
    set (sp := step s1' (Pong c)) in *.
    assert (Hcp : c ∈ wssClients sp) by (rewrite Hwp; auto).
    assert (Hndp : NoDup (wssClients sp)) by (now rewrite Hwp).
    assert (Hltp : (c < nextSocket sp)%nat) by (now rewrite Hnp).
    destruct (quiet_then_tick sp c _ es2 Hcp Hndp Hltp Hkp Hes2)
      as (k' & Hr' & Ha' & Hp' & Hk2 & Hc2 & Hcl2 & _ & _ & _).
    cbn [readyState isAlive pings] in Hr', Ha', Hp'.
    split; [|split; [exact Hc2|]].
    + exists (afterCheck k'). split; [exact Hk2|].
      unfold afterCheck. rewrite Ha', bool_decide_eq_false_2 by discriminate.
      cbn. rewrite Hr', Hr1', Hr1, Hp', Hp1', Hp1. now repeat split.
    + intros Hin. apply Hcl2. rewrite Hclp. auto.
Qed.

End Liveness.

(** *** The channel on concrete subscribers *)

Lemma fourSubscribers_NoDup : NoDup (clients fourSubscribers).
Proof. apply (bool_decide_unpack _). reflexivity. Defined.

Lemma publish_reaches_open_subscribers_witness :
  NoDup (clients fourSubscribers)
  /\ returns (broadcastLog (VStr (lit "hello"))) fourSubscribers
  /\ heap (exec (broadcastLog (VStr (lit "hello"))) fourSubscribers) !! 2%nat =
       Some (pushFrame (LogFrame (lit "hello")) (openSocket None))
  /\ heap (exec (broadcastLog (VStr (lit "hello"))) fourSubscribers) !! 1%nat =
       Some (openSocket (Some brokenPipe)).
Proof.
  pose proof (publish_reaches_open_subscribers (lit "hello") fourSubscribers
                fourSubscribers_NoDup) as [Hr Hd].
  split; [exact fourSubscribers_NoDup|]. split; [exact Hr|]. split.
  - apply (Hd 2%nat (openSocket None)); [|reflexivity..].
    apply (bool_decide_unpack _). reflexivity.
  - apply (Hd 1%nat (openSocket (Some brokenPipe))); [|reflexivity..].
    apply (bool_decide_unpack _). reflexivity.
Defined.

Lemma interception_broadcasts_unmarked_once_witness :
  NoDup (clients fourSubscribers)
  /\ includes (joined [VStr (lit "[BROADCAST] New"); VStr (lit "client")]) BROADCAST = true
  /\ exec (console_log [VStr (lit "[BROADCAST] New"); VStr (lit "client")]) fourSubscribers
      = withStdout [[VStr (lit "[BROADCAST] New"); VStr (lit "client")]] fourSubscribers
  /\ includes (joined [VStr (lit "job"); VStr (lit "found")]) BROADCAST = false
  /\ heap (exec (console_log [VStr (lit "job"); VStr (lit "found")]) fourSubscribers) !! 2%nat
      = Some (pushFrame (LogFrame (lit "job found")) (openSocket None))
  /\ heap (exec (console_error [VStr (lit "job"); VStr (lit "found")]) fourSubscribers) !! 2%nat
      = Some (pushFrame (LogFrame (lit "ERROR: job found")) (openSocket None)).
Proof.
  pose proof (interception_broadcasts_unmarked_once
                [VStr (lit "[BROADCAST] New"); VStr (lit "client")] fourSubscribers
                fourSubscribers_NoDup) as [Hm _].
  pose proof (interception_broadcasts_unmarked_once
                [VStr (lit "job"); VStr (lit "found")] fourSubscribers
                fourSubscribers_NoDup) as [_ Hu].
  split; [exact fourSubscribers_NoDup|]. split; [reflexivity|].
  split; [exact (proj1 (Hm eq_refl))|]. split; [reflexivity|].
  destruct (Hu eq_refl 2%nat (openSocket None) eq_refl) as [Hl He].
  split; [exact Hl | exact He].
Defined.

(** *** The liveness check on a concrete subscriber *)

Lemma unanswered_ping_terminates_witness :
  (0%nat ∈ wssClients oneSubscriber /\ NoDup (wssClients oneSubscriber)
   /\ (0 < nextSocket oneSubscriber)%nat /\ heap oneSubscriber !! 0%nat = Some welcomed
   /\ readyState welcomed = OPEN /\ isAlive welcomed <> Some false)
  /\ (let s2 := run None joinBackslash
                  (PingTimer :: [Publish (VStr (lit "tick"))] ++ [PingTimer]) oneSubscriber in
      (exists k2, heap s2 !! 0%nat = Some k2 /\ readyState k2 = CLOSING
                  /\ pings k2 = S (pings welcomed))
      /\ 0%nat ∈ closing s2
      /\ (0%nat ∉ clients (step None joinBackslash s2 (Close 0 1006 (VStr [])))))
  /\ (let s2 := run None joinBackslash
                  (PingTimer :: [] ++ Pong 0 :: [GetStatus] ++ [PingTimer]) oneSubscriber in
      (exists k2, heap s2 !! 0%nat = Some k2 /\ readyState k2 = OPEN
                  /\ isAlive k2 = Some false /\ pings k2 = S (S (pings welcomed)))
      /\ 0%nat ∈ wssClients s2).
Proof.
  assert (H1 : 0%nat ∈ wssClients oneSubscriber)
    by (apply (bool_decide_unpack _); vm_compute; reflexivity).
  assert (H2 : NoDup (wssClients oneSubscriber))
    by (apply (bool_decide_unpack _); vm_compute; reflexivity).
  assert (H3 : (0 < nextSocket oneSubscriber)%nat) by (vm_compute; lia).
  assert (H4 : heap oneSubscriber !! 0%nat = Some welcomed) by (vm_compute; reflexivity).
  assert (H5 : readyState welcomed = OPEN) by reflexivity.
  assert (H6 : isAlive welcomed <> Some false) by discriminate.
  destruct (unanswered_ping_terminates None joinBackslash oneSubscriber 0%nat welcomed
              H1 H2 H3 H4 H5 H6) as [Hsilent Hpong].
  split; [now repeat split|]. split.
  - assert (Hq : Forall (quiet 0) [Publish (VStr (lit "tick"))])
      by (repeat constructor).
    destruct (Hsilent _ Hq) as (Hk & Hc & Hclose).
    split; [exact Hk|]. split; [exact Hc|].
    exact (proj1 (Hclose 1006 (VStr []))).
  - assert (Hq1 : Forall (quiet 0) []) by constructor.
    assert (Hq2 : Forall (quiet 0) [GetStatus]) by (repeat constructor).
    destruct (Hpong _ _ Hq1 Hq2) as (Hk & Hw & _).
    split; [exact Hk | exact Hw].
Defined.

(** *** The routes on concrete requests *)

Example good_request_started :
  postStart (Some appData) joinBackslash goodRequest initial =
    (Normal (mkResponse 200 (Started (lit "Script started") goodConfig)), started).
Proof. reflexivity. Qed.

Example other_site_rejected :
  fst (postStart (Some appData) joinBackslash
         (mkStartRequest (Some [lit "https://careers.other.com/x"]) (Some [lit "Engineer"]))
         initial) = Normal invalidInput.
Proof. reflexivity. Qed.

Lemma second_start_and_idle_stop_rejected_witness :
  (postStart (Some appData) joinBackslash goodRequest initial =
     (Normal (mkResponse 200 (Started (lit "Script started") goodConfig)), started)
   /\ Forall (fun e => e <> Stop) [GetStatus; Publish (VStr (lit "tick"))])
  /\ (exists resp,
        postStart (Some appData) joinBackslash blankRequest
          (run (Some appData) joinBackslash [GetStatus; Publish (VStr (lit "tick"))] started)
        = (Normal resp,
           run (Some appData) joinBackslash [GetStatus; Publish (VStr (lit "tick"))] started)
        /\ status resp = 400
        /\ (is_Some (links blankRequest) -> is_Some (positions blankRequest) ->
            resp = alreadyRunning))
  /\ (isRunning (worker initial) = false /\ postStop initial = (Normal notRunning, initial)).
Proof.
  assert (H1 : postStart (Some appData) joinBackslash goodRequest initial =
     (Normal (mkResponse 200 (Started (lit "Script started") goodConfig)), started))
    by reflexivity.
  assert (H2 : Forall (fun e => e <> Stop) [GetStatus; Publish (VStr (lit "tick"))])
    by (repeat constructor; discriminate).
  split; [now split|]. split.
  - exact (proj1 (second_start_and_idle_stop_rejected (Some appData) joinBackslash)
             initial goodRequest _ _ _ _ blankRequest H1 H2).
  - split; [reflexivity|].
    exact (proj2 (second_start_and_idle_stop_rejected (Some appData) joinBackslash)
             initial eq_refl).
Defined.



Lemma start_config_of_accepted_witness :
  postStart (Some appData) joinBackslash mixedRequest stoppedOnce =
    (Normal (mkResponse 200 (Started (lit "Script started") mixedConfig)), restarted)
  /\ (~ linkAccepted (lit "https://careers.other.com/x")
      /\ paddedLink <> trim paddedLink
      /\ ~ positionAccepted (lit "   ")
      /\ lit "Picker " <> trim (lit "Picker ")
      /\ launched (worker stoppedOnce) = [goodConfig])
  /\ exists ls ps,
      links mixedRequest = Some ls /\ positions mixedRequest = Some ps
      /\ firstSuch linkAccepted (AMAZON_JOBS_URL mixedConfig) ls
      /\ TARGET_JOBS mixedConfig = List.map trim (filter positionAccepted ps)
      /\ launched (worker restarted) = mixedConfig :: launched (worker stoppedOnce).
Proof.
  assert (H : postStart (Some appData) joinBackslash mixedRequest stoppedOnce =
    (Normal (mkResponse 200 (Started (lit "Script started") mixedConfig)), restarted))
    by (vm_compute; reflexivity).
  split; [exact H|]. split.
  - split; [intros E; discriminate E|]. split; [intros E; discriminate E|].
    split; [intros E; apply E; reflexivity|]. split; [intros E; discriminate E|].
    vm_compute. reflexivity.
  - exact (start_config_of_accepted (Some appData) joinBackslash mixedRequest stoppedOnce
             (lit "Script started") mixedConfig restarted H).
Defined.

Lemma start_stores_link_untrimmed_witness :
  (Some appData = Some appData /\ isRunning (worker initial) = false
   /\ Forall (fun l => ~ linkAccepted l) [lit "https://careers.other.com/x"]
   /\ linkAccepted paddedLink /\ Exists positionAccepted [[]; paddedPosition])
  /\ paddedLink <> trim paddedLink
  /\ exists config s',
      postStart (Some appData) joinBackslash
        (mkStartRequest (Some ([lit "https://careers.other.com/x"] ++ paddedLink :: []))
           (Some [[]; paddedPosition])) initial =
        (Normal (mkResponse 200 (Started (lit "Script started") config)), s')
      /\ AMAZON_JOBS_URL config = paddedLink
      /\ TARGET_JOBS config = List.map trim (filter positionAccepted [[]; paddedPosition])
      /\ Forall (fun t => exists p, p ∈ [[]; paddedPosition] /\ positionAccepted p /\ t = trim p)
           (TARGET_JOBS config).
Proof.
  assert (Hb : Forall (fun l => ~ linkAccepted l) [lit "https://careers.other.com/x"]).
  { repeat constructor. intros E. discriminate E. }
  assert (Hx : linkAccepted paddedLink) by reflexivity.
  assert (Hp : Exists positionAccepted [[]; paddedPosition]).
  { right. left. intros E. discriminate E. }
  split; [now repeat split|]. split; [intros E; discriminate E|].
  exact (start_stores_link_untrimmed (Some appData) joinBackslash appData initial
           _ paddedLink [] _ eq_refl eq_refl Hb Hx Hp).
Defined.

End BackendProofs.

(** ** Properties of the client session *)

Module ClientProofs.

Import Client ClientNotions EffFacts.

Ltac session_simpl :=
  cbn [fst snd logs isConnected statusMessage retryCount retryTimeoutRef wsCurrent
       sockets timeouts intervals nextHandle nextSocket console statusRequests
       clockReads with_logs with_isConnected with_statusMessage with_retryCount
       with_retryTimeoutRef with_wsCurrent with_sockets with_timeouts
       with_intervals with_nextHandle with_nextSocket with_console
       with_statusRequests with_clockReads].

Ltac session_unfold :=
  unfold exec, returns, handleCheckConnection, connectWebSocket,
    onclose, onopen, fetchStatus, appendLog, setIsConnected, setStatusMessage,
    newWebSocket, closeSocket, readyStateOf, setTimeout, setInterval, clearTimer,
    clearInterval, globalReference, consoleCall, tryCatch, throw, modify, gets,
    mbind, eff_bind, mret, eff_ret;
  cbn beta.

(** *** The backoff delay *)

Lemma retryDelay_formula (n : nat) :
  (1 <= n)%nat ->
  retryDelay n = Z.min (1000 * 2 ^ (Z.of_nat n - 1)) 30000.
Proof.
  intros H. destruct n as [|k]; [lia|]. unfold retryDelay.
  replace (Z.of_nat (S k) - 1) with (Z.of_nat k) by lia. reflexivity.
Qed.

Lemma retryDelay_capped (n : nat) : (6 <= n)%nat -> retryDelay n = 30000.
Proof.
  intros H. destruct n as [|k]; [lia|]. unfold retryDelay.
  assert (2 ^ 5 <= 2 ^ Z.of_nat k) by (apply Z.pow_le_mono_r; lia).
  change (2 ^ 5) with 32 in *. lia.
Qed.

Section Session.

Variable toLocaleTimeString : nat -> jsstring.
Variable window : gmap string GlobalValue.

Abbreviation connectWebSocket := (connectWebSocket toLocaleTimeString).
Abbreviation handleCheckConnection := (handleCheckConnection toLocaleTimeString).
Abbreviation onclose := (onclose toLocaleTimeString window).
Abbreviation onopen := (onopen toLocaleTimeString).
Abbreviation handle := (handle toLocaleTimeString window).
Abbreviation step := (step toLocaleTimeString window).
Abbreviation run := (run toLocaleTimeString window).
Abbreviation prepared := (prepared toLocaleTimeString).
Abbreviation fetched := (fetched toLocaleTimeString).

(** [connectWebSocket] at the ceiling. *)
Lemma connectWebSocket_gave_up failure s :
  (MAX_RETRIES <= retryCount s)%nat ->
  connectWebSocket failure s =
    (Normal tt,
     with_isConnected false
       (with_statusMessage gaveUpMessage
          (with_console
             (console (cleared s)
              ++ [(LevelError, [VStr (lit "WebSocket: Max retries reached.")])])
             (cleared s)))).
Proof.
  intros H. apply Nat.leb_le in H. unfold cleared. session_unfold.
  destruct (truthyHandle (retryTimeoutRef s)); session_simpl; now rewrite H.
Qed.

Lemma timeouts_cleared s : timeouts (cleared s) ⊆ timeouts s.
Proof.
  unfold cleared. destruct (truthyHandle (retryTimeoutRef s)); session_simpl.
  - apply delete_subseteq.
  - reflexivity.
Qed.

Lemma timeouts_cleared_ref s id :
  retryTimeoutRef s = Some id -> id <> O -> timeouts (cleared s) !! id = None.
Proof.
  intros Hr Hid. unfold cleared, truthyHandle. rewrite Hr.
  destruct (Nat.eqb_spec id 0); [contradiction|]. cbn [negb].
  session_simpl. cbn [default from_option]. apply lookup_delete_eq.
Qed.

Lemma timeouts_cleared_tracked s : tracked s -> timeouts (cleared s) = ∅.
Proof.
  intros Ht. apply map_empty. intros id.
  destruct (timeouts s !! id) as [d|] eqn:E.
  - destruct (Ht id (ex_intro _ d E)) as [Hr Hid].
    now apply timeouts_cleared_ref.
  - destruct (timeouts (cleared s) !! id) as [d|] eqn:E'; [|reflexivity].
    pose proof (lookup_weaken _ _ _ _ E' (timeouts_cleared s)). congruence.
Qed.

(** [connectWebSocket] below the ceiling, when the constructor gives a
    socket. *)
Lemma connectWebSocket_attempt s :
  (retryCount s < MAX_RETRIES)%nat ->
  let s' := exec (connectWebSocket None) s in
  returns (connectWebSocket None) s
  /\ retryCount s' = retryCount s
  /\ timeouts s' = timeouts (cleared s)
  /\ retryTimeoutRef s' = retryTimeoutRef s
  /\ wsCurrent s' = Some (nextSocket s)
  /\ nextSocket s' = S (nextSocket s)
  /\ sockets s' = <[nextSocket s := CONNECTING]> (closedCurrent s)
  /\ logs s' = logs s ++ [mkLogEntry (attemptText (retryCount s))
                            (toLocaleTimeString (clockReads s))]
  /\ clockReads s' = S (clockReads s)
  /\ isConnected s' = isConnected s
  /\ statusMessage s' = statusMessage s
  /\ statusRequests s' = statusRequests s
  /\ nextHandle s' = nextHandle s.
Proof.
  intros H. apply Nat.leb_gt in H. unfold cleared, closedCurrent, attemptText.
  session_unfold.
  destruct (truthyHandle (retryTimeoutRef s)); session_simpl; rewrite H;
    (destruct (wsCurrent s) as [w|] eqn:Ew; session_simpl; rewrite ?Ew;
     [destruct ((default CLOSED (sockets s !! w) =? OPEN)
                || (default CLOSED (sockets s !! w) =? CONNECTING)) eqn:Ec;
      session_simpl; rewrite ?Ec; session_simpl|];
     repeat split; eauto).
Qed.

(** [connectWebSocket] below the ceiling, when the constructor throws. *)
Lemma connectWebSocket_refused e s :
  (retryCount s < MAX_RETRIES)%nat ->
  let s' := exec (connectWebSocket (Some e)) s in
  returns (connectWebSocket (Some e)) s
  /\ retryCount s' = S (retryCount s)
  /\ timeouts s' = <[nextHandle s := retryDelay (S (retryCount s))]> (timeouts (cleared s))
  /\ retryTimeoutRef s' = Some (nextHandle s)
  /\ nextHandle s' = S (nextHandle s)
  /\ wsCurrent s' = wsCurrent s
  /\ nextSocket s' = nextSocket s
  /\ sockets s' = closedCurrent s.
Proof.
  intros H. apply Nat.leb_gt in H. unfold cleared, closedCurrent.
  session_unfold.
  destruct (truthyHandle (retryTimeoutRef s)); session_simpl; rewrite H;
    (destruct (wsCurrent s) as [w|] eqn:Ew; session_simpl; rewrite ?Ew;
     [destruct ((default CLOSED (sockets s !! w) =? OPEN)
                || (default CLOSED (sockets s !! w) =? CONNECTING)) eqn:Ec;
      session_simpl; rewrite ?Ec; session_simpl|];
     repeat split; eauto).
Qed.

Lemma total_connectWebSocket failure : total (connectWebSocket failure).
Proof.
  intros s. destruct (Nat.le_gt_cases MAX_RETRIES (retryCount s)) as [H|H].
  - unfold returns. rewrite (connectWebSocket_gave_up failure s H). now exists tt.
  - destruct failure as [e|].
    + apply (connectWebSocket_refused e s H).
    + apply (connectWebSocket_attempt s H).
Qed.

(** *** The manual reconnect request *)

Lemma total_fetchStatus : total (fetchStatus toLocaleTimeString).
Proof. unfold fetchStatus, appendLog. repeat eff_step. Qed.

Lemma total_handleCheckConnection failure : total (handleCheckConnection failure).
Proof.
  unfold Client.handleCheckConnection, appendLog. repeat eff_step.
  - apply total_connectWebSocket.
  - apply total_fetchStatus.
Qed.

Lemma handleCheckConnection_exec failure s :
  exec (handleCheckConnection failure) s
  = fetched (exec (connectWebSocket failure) (prepared s)).
Proof.
  destruct (total_run _ (prepared s) (total_connectWebSocket failure)) as [[] H].
  unfold Client.handleCheckConnection.
  rewrite (exec_bind (appendLog toLocaleTimeString manualText) _ s tt eq_refl).
  rewrite (exec_bind (modify (with_retryCount O)) _ _ tt eq_refl).
  change (exec (modify (with_retryCount O)) (exec (appendLog toLocaleTimeString manualText) s))
    with (prepared s).
  rewrite (exec_bind (connectWebSocket failure) _ (prepared s) tt)
    by (now rewrite H).
  reflexivity.
Qed.

Lemma cleared_prepared s :
  timeouts (cleared (prepared s)) = timeouts (cleared s)
  /\ closedCurrent (prepared s) = closedCurrent s.
Proof.
  unfold cleared, prepared, closedCurrent. session_simpl.
  now destruct (truthyHandle (retryTimeoutRef s)).
Qed.

Lemma cleared_twice s s' :
  retryTimeoutRef s' = retryTimeoutRef s ->
  timeouts s' = timeouts (cleared s) ->
  timeouts (cleared s') = timeouts s'.
Proof.
  intros Hr Ht. unfold cleared in *. rewrite Hr.
  destruct (truthyHandle (retryTimeoutRef s)); session_simpl; [|reflexivity].
  cbn [timeouts with_timeouts with_intervals] in Ht. rewrite Ht.
  apply delete_delete_eq.
Qed.

(** What a manual reconnect request leaves behind when the constructor
    gives a socket. *)
Lemma handleCheckConnection_attempt s :
  let s' := exec (handleCheckConnection None) s in
  retryCount s' = O
  /\ timeouts s' = timeouts (cleared s)
  /\ retryTimeoutRef s' = retryTimeoutRef s
  /\ wsCurrent s' = Some (nextSocket s)
  /\ nextSocket s' = S (nextSocket s)
  /\ sockets s' = <[nextSocket s := CONNECTING]> (closedCurrent s)
  /\ logs s' =
       logs s ++ [mkLogEntry manualText (toLocaleTimeString (clockReads s));
                  mkLogEntry (attemptText 0) (toLocaleTimeString (S (clockReads s)));
                  mkLogEntry checkingText (toLocaleTimeString (S (S (clockReads s))))]
  /\ statusRequests s' = S (statusRequests s)
  /\ isConnected s' = isConnected s
  /\ statusMessage s' = statusMessage s.
Proof.
  intros s'. subst s'. rewrite handleCheckConnection_exec.
  assert (H : (retryCount (prepared s) < MAX_RETRIES)%nat)
    by (unfold prepared, MAX_RETRIES; session_simpl; lia).
  destruct (connectWebSocket_attempt (prepared s) H)
    as (_ & Hrc & Ht & Hr & Hw & Hn & Hs & Hl & Hc & Hi & Hm & Hq & _).
  destruct (cleared_prepared s) as [Hcp Hcc].
  unfold fetched. session_simpl.
  rewrite Hrc, Ht, Hr, Hw, Hn, Hs, Hl, Hc, Hi, Hm, Hq, Hcp, Hcc.
  unfold prepared. session_simpl. rewrite <- !app_assoc. now repeat split.
Qed.

(** What a manual reconnect request leaves behind when the constructor
    throws. *)
Lemma handleCheckConnection_refused e s :
  let s' := exec (handleCheckConnection (Some e)) s in
  retryCount s' = 1%nat
  /\ timeouts s' = <[nextHandle s := 1000]> (timeouts (cleared s))
  /\ retryTimeoutRef s' = Some (nextHandle s)
  /\ nextHandle s' = S (nextHandle s)
  /\ wsCurrent s' = wsCurrent s
  /\ nextSocket s' = nextSocket s
  /\ sockets s' = closedCurrent s.
Proof.
  intros s'. subst s'. rewrite handleCheckConnection_exec.
  assert (H : (retryCount (prepared s) < MAX_RETRIES)%nat)
    by (unfold prepared, MAX_RETRIES; session_simpl; lia).
  destruct (connectWebSocket_refused e (prepared s) H)
    as (_ & Hrc & Ht & Hr & Hh & Hw & Hn & Hs).
  destruct (cleared_prepared s) as [Hcp Hcc].
  unfold fetched. session_simpl.
  rewrite Hrc, Ht, Hr, Hh, Hw, Hn, Hs, Hcp, Hcc.
  unfold prepared. session_simpl. now repeat split.
Qed.

(** C9, as the code has it. A manual reconnect request always returns.
    When the constructor gives a socket, the request cancels the timeout
    that [retryTimeoutRef] holds and schedules none, so that no timeout is
    pending when the pending ones were tracked; it leaves the retry
    counter at 0, makes a new connecting socket the current one, sends one
    status request and appends three entries to the log. A second request
    right after the first leaves the retry counter, the pending timeouts,
    the connection flag and the status message as the first left them,
    and again a connecting socket as the current one; the log has grown
    by three more entries. *)
Theorem manual_reconnect_effect s :
  let s1 := exec (handleCheckConnection None) s in
  let s2 := exec (handleCheckConnection None) s1 in
  returns (handleCheckConnection None) s
  /\ (forall id, retryTimeoutRef s = Some id -> id <> O -> timeouts s1 !! id = None)
  /\ timeouts s1 ⊆ timeouts s
  /\ (tracked s -> timeouts s1 = ∅)
  /\ retryCount s1 = O
  /\ (exists w, wsCurrent s1 = Some w /\ sockets s1 !! w = Some CONNECTING
                /\ nextSocket s1 = S (nextSocket s))
  /\ statusRequests s1 = S (statusRequests s)
  /\ length (logs s1) = (length (logs s) + 3)%nat
  /\ (retryCount s2 = retryCount s1 /\ timeouts s2 = timeouts s1
      /\ isConnected s2 = isConnected s1 /\ statusMessage s2 = statusMessage s1
      /\ (exists w, wsCurrent s2 = Some w /\ sockets s2 !! w = Some CONNECTING)
      /\ length (logs s2) = (length (logs s1) + 3)%nat).
Proof.
  intros s1 s2.
  destruct (handleCheckConnection_attempt s)
    as (Hrc & Ht & Hr & Hw & Hn & Hs & Hl & Hq & Hi & Hm).
  destruct (handleCheckConnection_attempt s1)
    as (Hrc2 & Ht2 & Hr2 & Hw2 & Hn2 & Hs2 & Hl2 & Hq2 & Hi2 & Hm2).
  fold s1 in Hrc, Ht, Hr, Hw, Hn, Hs, Hl, Hq, Hi, Hm.
  fold s2 in Hrc2, Ht2, Hr2, Hw2, Hn2, Hs2, Hl2, Hq2, Hi2, Hm2.
  split; [apply total_handleCheckConnection|].
  split; [intros id Hid Hne; rewrite Ht; now apply timeouts_cleared_ref|].
  split; [rewrite Ht; apply timeouts_cleared|].
  split; [intros Htr; rewrite Ht; now apply timeouts_cleared_tracked|].
  split; [exact Hrc|].
  split; [exists (nextSocket s); rewrite Hs, lookup_insert_eq; auto|].
  split; [exact Hq|].
  split; [rewrite Hl, length_app; reflexivity|].
  split; [congruence|].
  split; [rewrite Ht2; now apply (cleared_twice s)|].
  split; [exact Hi2|]. split; [exact Hm2|].
  split; [exists (nextSocket s1); rewrite Hs2, lookup_insert_eq; auto|].
  rewrite Hl2, length_app. reflexivity.
Qed.

(** *** The close handler *)

Lemma onclose_unbound code s :
  window !! "heartbeatInterval" = None ->
  onclose code s =
    (Throw notDefined, with_console (console s ++ [disconnectedWarning code]) s).
Proof.
  intros H. session_unfold. rewrite H. reflexivity.
Qed.

(** Were the name bound, the handler would count the failure, log it and
    schedule the retry. *)
Lemma onclose_bound v code s :
  window !! "heartbeatInterval" = Some v ->
  let s' := exec (onclose code) s in
  returns (onclose code) s
  /\ retryCount s' = S (retryCount s)
  /\ logs s' = logs s ++ [mkLogEntry (retryingText (S (retryCount s)))
                            (toLocaleTimeString (clockReads s))]
  /\ timeouts s' !! nextHandle s = Some (retryDelay (S (retryCount s)))
  /\ retryTimeoutRef s' = Some (nextHandle s)
  /\ isConnected s' = false
  /\ nextSocket s' = nextSocket s /\ wsCurrent s' = wsCurrent s
  /\ sockets s' = sockets s.
Proof.
  intros H. unfold retryingText. session_unfold. rewrite H.
  destruct v as [id|]; session_simpl;
    (split; [now exists tt|]); repeat split; try reflexivity;
    apply lookup_insert_eq.
Qed.

Lemma step_closes w code s :
  step s (SocketCloses w code) =
    if default CLOSED (sockets s !! w) =? CLOSED then s
    else exec (onclose code) (with_sockets (<[w := CLOSED]> (sockets s)) s).
Proof.
  unfold Client.step, exec, Client.handle, readyStateOf, mbind, eff_bind, gets, modify.
  cbn beta. now destruct (default CLOSED (sockets s !! w) =? CLOSED).
Qed.

(** C2, on the code. With no global of the name [heartbeatInterval], the
    close handler throws a ReferenceError after its console warning: the
    retry counter, the log, the pending timeouts and [retryTimeoutRef]
    are as they were, so that the close of an open or connecting socket
    counts no failure and schedules no reconnect. *)
Theorem close_handler_throws code s :
  window !! "heartbeatInterval" = None ->
  let s' := exec (onclose code) s in
  fst (onclose code s) = Throw notDefined
  /\ retryCount s' = retryCount s /\ logs s' = logs s
  /\ timeouts s' = timeouts s /\ retryTimeoutRef s' = retryTimeoutRef s
  /\ isConnected s' = isConnected s
  /\ forall w,
       retryCount (step s (SocketCloses w code)) = retryCount s
       /\ timeouts (step s (SocketCloses w code)) = timeouts s
       /\ logs (step s (SocketCloses w code)) = logs s
       /\ isConnected (step s (SocketCloses w code)) = isConnected s.
Proof.
  intros H s'. subst s'. unfold exec. rewrite (onclose_unbound code s H).
  repeat split; try reflexivity;
    (rewrite step_closes;
     destruct (default CLOSED (sockets s !! w) =? CLOSED); [reflexivity|];
     unfold exec; rewrite onclose_unbound by exact H; reflexivity).
Qed.

(** *** Sessions reached while the close handler throws *)

Lemma step_timeout id failure s :
  step s (TimeoutFires id failure) =
    match timeouts s !! id with
    | Some _ => exec (connectWebSocket failure) (with_timeouts (delete id (timeouts s)) s)
    | None => s
    end.
Proof.
  unfold Client.step, exec, Client.handle, mbind, eff_bind, gets, modify.
  cbn beta. now destruct (timeouts s !! id).
Qed.

Lemma step_opens w s :
  step s (SocketOpens w) =
    if default CLOSED (sockets s !! w) =? CONNECTING
    then exec onopen (with_sockets (<[w := OPEN]> (sockets s)) s)
    else s.
Proof.
  unfold Client.step, exec, Client.handle, readyStateOf, mbind, eff_bind, gets, modify.
  cbn beta. now destruct (default CLOSED (sockets s !! w) =? CONNECTING).
Qed.

Lemma closedCurrent_current s w :
  wsCurrent s = Some w -> closedCurrent s !! w <> Some CONNECTING.
Proof.
  intros Hw. unfold closedCurrent. rewrite Hw.
  destruct (sockets s !! w) as [st|] eqn:E; cbn [default from_option id].
  - destruct (st =? OPEN) eqn:Eo; cbn [orb].
    + rewrite lookup_alter_eq, E. discriminate.
    + destruct (st =? CONNECTING) eqn:Ec.
      * rewrite lookup_alter_eq, E. discriminate.
      * rewrite E. intros [= ->]. discriminate Ec.
  - change ((CLOSED =? OPEN) || (CLOSED =? CONNECTING)) with false.
    cbv iota. rewrite E. discriminate.
Qed.

Lemma closedCurrent_other s w :
  wsCurrent s <> Some w -> closedCurrent s !! w = sockets s !! w.
Proof.
  intros Hw. unfold closedCurrent. destruct (wsCurrent s) as [c|]; [|reflexivity].
  destruct ((default CLOSED (sockets s !! c) =? OPEN)
            || (default CLOSED (sockets s !! c) =? CONNECTING)); [|reflexivity].
  apply lookup_alter_ne. congruence.
Qed.

Lemma tracked_subseteq s s' :
  timeouts s' ⊆ timeouts s -> retryTimeoutRef s' = retryTimeoutRef s ->
  tracked s -> tracked s'.
Proof.
  intros Hsub Hr Ht id [d Hd]. rewrite Hr. apply Ht. exists d.
  eapply lookup_weaken; eassumption.
Qed.

(** The events that call neither [connectWebSocket] nor a socket's open
    or close handler. *)
Lemma idle_step e s :
  match e with
  | IntervalFires _ | StatusCheckDue | SocketMessage _ | SocketError _ => True
  | _ => False
  end ->
  nextSocket (step s e) = nextSocket s /\ wsCurrent (step s e) = wsCurrent s
  /\ retryCount (step s e) = retryCount s /\ sockets (step s e) = sockets s
  /\ retryTimeoutRef (step s e) = retryTimeoutRef s
  /\ nextHandle (step s e) = nextHandle s
  /\ timeouts (step s e) ⊆ timeouts s.
Proof.
  intros He.
  assert (Hk : keeps (fun s => (nextSocket s, wsCurrent s, retryCount s, sockets s,
                                retryTimeoutRef s, nextHandle s)) (handle e)).
  { destruct e; try contradiction; cbn [Client.handle].
    - unfold heartbeat, readyStateOf, clearTimer. repeat eff_step.
    - unfold fetchStatus, appendLog. repeat eff_step.
    - unfold onmessage, appendLog, consoleCall. repeat eff_step.
    - unfold onerror, appendLog, consoleCall. repeat eff_step. }
  specialize (Hk s). unfold Client.step. injection Hk as -> -> -> -> -> ->.
  repeat split.
  destruct e; try contradiction; unfold exec, Client.handle.
  - unfold heartbeat, readyStateOf, clearTimer, mbind, eff_bind, gets, modify, mret, eff_ret.
    cbn beta. destruct (intervals s !! id); [|reflexivity].
    destruct (wsCurrent s) as [w|]; session_simpl;
      [destruct (default CLOSED (sockets s !! w) =? OPEN); session_simpl|];
      (reflexivity || apply delete_subseteq).
  - reflexivity.
  - unfold onmessage, tryCatch, appendLog, consoleCall, throw, modify, mret, eff_ret.
    destruct m as [err|[[|c l]|]]; reflexivity.
  - reflexivity.
Qed.

Lemma connectWebSocket_ceiling failure s :
  (MAX_RETRIES <= retryCount s)%nat ->
  let s' := exec (connectWebSocket failure) s in
  nextSocket s' = nextSocket s /\ sockets s' = sockets s
  /\ wsCurrent s' = wsCurrent s /\ retryCount s' = retryCount s
  /\ nextHandle s' = nextHandle s /\ timeouts s' ⊆ timeouts s
  /\ retryTimeoutRef s' = retryTimeoutRef s /\ isConnected s' = false.
Proof.
  intros Hmax s'. subst s'. unfold exec.
  rewrite connectWebSocket_gave_up by exact Hmax.
  pose proof (timeouts_cleared s) as Hsub. unfold cleared in *.
  destruct (truthyHandle (retryTimeoutRef s)); session_simpl; now repeat split.
Qed.

Lemma settled_frame s s' :
  nextHandle s' = nextHandle s -> timeouts s' ⊆ timeouts s ->
  retryTimeoutRef s' = retryTimeoutRef s -> sockets s' = sockets s ->
  wsCurrent s' = wsCurrent s -> retryCount s' = retryCount s ->
  settled s -> settled s'.
Proof.
  intros Hn Hsub Hr Hs Hw Hrc (Hh & Ht & Hk & Hl).
  split; [lia|]. split; [now apply (tracked_subseteq s)|].
  rewrite Hs, Hw, Hrc. split; [exact Hk|].
  intros Hmax w. rewrite Hs. now apply Hl.
Qed.

Lemma connectWebSocket_handles failure s :
  (nextHandle s <= nextHandle (exec (connectWebSocket failure) s))%nat.
Proof.
  destruct (Nat.le_gt_cases MAX_RETRIES (retryCount s)) as [H|H].
  - destruct (connectWebSocket_ceiling failure s H) as (_ & _ & _ & _ & -> & _). lia.
  - destruct failure as [e|].
    + destruct (connectWebSocket_refused e s H) as (_ & _ & _ & _ & -> & _). lia.
    + destruct (connectWebSocket_attempt s H)
        as (_ & _ & _ & _ & _ & _ & _ & _ & _ & _ & _ & _ & ->).
      lia.
Qed.

Lemma settled_connectWebSocket failure s :
  settled s -> settled (exec (connectWebSocket failure) s).
Proof.
  intros (Hh & Ht & Hk & Hl).
  pose proof (connectWebSocket_handles failure s) as Hh'.
  destruct (Nat.le_gt_cases MAX_RETRIES (retryCount s)) as [H|H].
  - destruct (connectWebSocket_ceiling failure s H)
      as (_ & Hs & Hw & Hrc & Hn & Hsub & Hr & _).
    split; [lia|]. split; [now apply (tracked_subseteq s)|].
    rewrite Hs, Hw, Hrc. split; [exact Hk|].
    intros Hmax w. rewrite Hs. now apply Hl.
  - destruct failure as [e|].
    + destruct (connectWebSocket_refused e s H)
        as (_ & Hrc & Hto & Hr & Hn & Hw & _ & Hs).
      split; [lia|]. split; [|split].
      * intros id [d Hd]. rewrite Hto in Hd. rewrite Hr.
        destruct (decide (nextHandle s = id)) as [<-|Hne]; [split; [reflexivity|lia]|].
        rewrite lookup_insert_ne in Hd by exact Hne.
        assert (Hd' : is_Some (timeouts s !! id)).
        { exists d. eapply lookup_weaken; [exact Hd | apply timeouts_cleared]. }
        destruct (Ht id Hd') as [Href Hid].
        rewrite (timeouts_cleared_ref s id Href Hid) in Hd. discriminate.
      * intros w Hne. rewrite Hw in Hne. rewrite Hs, closedCurrent_other by exact Hne.
        now apply Hk.
      * intros _ w. rewrite Hs.
        destruct (decide (wsCurrent s = Some w)) as [Hc|Hc].
        -- now apply closedCurrent_current.
        -- rewrite closedCurrent_other by exact Hc. now apply Hk.
    + destruct (connectWebSocket_attempt s H)
        as (_ & Hrc & Hto & Hr & Hw & _ & Hs & _).
      split; [lia|]. split; [|split].
      * apply (tracked_subseteq s); auto. rewrite Hto. apply timeouts_cleared.
      * intros w Hne. rewrite Hw in Hne. rewrite Hs.
        rewrite lookup_insert_ne by congruence.
        destruct (decide (wsCurrent s = Some w)) as [Hc|Hc].
        -- now apply closedCurrent_current.
        -- rewrite closedCurrent_other by exact Hc. now apply Hk.
      * rewrite Hrc. intros Hmax. lia.
Qed.

Lemma onopen_exec s :
  let s' := exec onopen s in
  retryCount s' = O /\ timeouts s' = timeouts s
  /\ retryTimeoutRef s' = retryTimeoutRef s /\ sockets s' = sockets s
  /\ wsCurrent s' = wsCurrent s /\ nextHandle s' = S (nextHandle s)
  /\ isConnected s' = true.
Proof. now repeat split. Qed.

Lemma settled_step e s :
  window !! "heartbeatInterval" = None -> settled s -> settled (step s e).
Proof.
  intros Hwin Hs.
  destruct e as [f|f|id f|id| |w|m|err|w code];
    try (match goal with
         | |- settled (step s ?e) =>
             destruct (idle_step e s I) as (_ & Hw & Hrc & Hso & Hr & Hn & Hsub)
         end;
         now apply (settled_frame s)).
  - now apply settled_connectWebSocket.
  - change (step s (ManualReconnect f)) with (exec (handleCheckConnection f) s).
    rewrite handleCheckConnection_exec.
    assert (Hp : settled (prepared s)).
    { destruct Hs as (Hh & Ht & Hk & Hl). repeat split; auto.
      - now apply Ht.
      - now apply Ht.
      - unfold ClientNotions.prepared, MAX_RETRIES. session_simpl. lia. }
    destruct (settled_connectWebSocket f _ Hp) as (Hh & Ht & Hk & Hl).
    repeat split; auto; try (now apply Ht).
  - rewrite step_timeout. destruct (timeouts s !! id) as [d|]; [|exact Hs].
    apply settled_connectWebSocket.
    apply (settled_frame s); auto. apply delete_subseteq.
  - rewrite step_opens.
    destruct (default CLOSED (sockets s !! w) =? CONNECTING); [|exact Hs].
    destruct Hs as (Hh & Ht & Hk & Hl).
    destruct (onopen_exec (with_sockets (<[w := OPEN]> (sockets s)) s))
      as (Hrc & Hto & Hr & Hso & Hw & Hn & _).
    split; [rewrite Hn; session_simpl; lia|]. split; [|split].
    + intros id Hid. rewrite Hto in Hid. rewrite Hr. now apply Ht.
    + intros w' Hne. rewrite Hw in Hne. rewrite Hso. session_simpl.
      destruct (decide (w = w')) as [->|Hww].
      * rewrite lookup_insert_eq. discriminate.
      * rewrite lookup_insert_ne by exact Hww. now apply Hk.
    + rewrite Hrc. unfold MAX_RETRIES. lia.
  - rewrite step_closes.
    destruct (default CLOSED (sockets s !! w) =? CLOSED); [exact Hs|].
    unfold exec. rewrite onclose_unbound by exact Hwin.
    destruct Hs as (Hh & Ht & Hk & Hl). session_simpl.
    assert (Hins : forall w', sockets s !! w' <> Some CONNECTING ->
                     <[w := CLOSED]> (sockets s) !! w' <> Some CONNECTING).
    { intros w' Hw'. destruct (decide (w = w')) as [->|Hww].
      - rewrite lookup_insert_eq. discriminate.
      - now rewrite lookup_insert_ne by exact Hww. }
    repeat split; auto; try (now apply Ht).
    intros Hmax w'. apply Hins. now apply Hl.
Qed.

Lemma settled_initial : settled initial.
Proof.
  repeat split.
  - cbn. lia.
  - destruct H as [d Hd]. cbn in Hd. rewrite lookup_empty in Hd. discriminate.
  - destruct H as [d Hd]. cbn in Hd. rewrite lookup_empty in Hd. discriminate.
  - intros w _. cbn. rewrite lookup_empty. discriminate.
  - intros _ w. cbn. rewrite lookup_empty. discriminate.
Qed.

(** Every session the component reaches, in a page with no global of the
    name [heartbeatInterval], is settled. *)
Lemma settled_run es :
  window !! "heartbeatInterval" = None -> settled (run es initial).
Proof.
  intros Hwin. assert (H : forall s, settled s -> settled (run es s)).
  { induction es as [|e es IH]; intros s Hs; [exact Hs|].
    change (run (e :: es) s) with (run es (step s e)).
    apply IH. now apply settled_step. }
  apply H, settled_initial.
Qed.

(** *** After the ceiling *)

Lemma onclose_frame code s :
  let s' := exec (onclose code) s in
  nextSocket s' = nextSocket s /\ wsCurrent s' = wsCurrent s
  /\ sockets s' = sockets s /\ (retryCount s <= retryCount s')%nat.
Proof.
  intros s'. subst s'.
  destruct (window !! "heartbeatInterval") as [v|] eqn:E.
  - destruct (onclose_bound v code s E) as (_ & Hrc & _ & _ & _ & _ & Hn & Hw & Hs).
    rewrite Hrc, Hn, Hw, Hs. repeat split; lia.
  - unfold exec. rewrite (onclose_unbound code s E). now repeat split.
Qed.

Lemma automatic_step e s :
  (MAX_RETRIES <= retryCount s)%nat -> noneConnecting s -> automatic e ->
  nextSocket (step s e) = nextSocket s /\ wsCurrent (step s e) = wsCurrent s
  /\ (MAX_RETRIES <= retryCount (step s e))%nat /\ noneConnecting (step s e).
Proof.
  intros Hmax Hnc Ha.
  destruct e as [f|f|id f|id| |w|m|err|w code];
    try (match goal with
         | |- context [step s ?e] =>
             destruct (idle_step e s I) as (Hn & Hw & Hrc & Hso & _)
         end;
         rewrite Hn, Hw, Hrc; repeat split; auto; intros w'; rewrite Hso; apply Hnc).
  - destruct (connectWebSocket_ceiling f s Hmax) as (Hn & Hso & Hw & Hrc & _).
    change (step s (Mount f)) with (exec (connectWebSocket f) s).
    rewrite Hn, Hw, Hrc. repeat split; auto. intros w'. rewrite Hso. apply Hnc.
  - contradiction.
  - rewrite step_timeout.
    destruct (timeouts s !! id) as [d|]; [|auto].
    destruct (connectWebSocket_ceiling f (with_timeouts (delete id (timeouts s)) s) Hmax)
      as (Hn & Hso & Hw & Hrc & _).
    rewrite Hn, Hw, Hrc. repeat split; auto. intros w'. rewrite Hso. apply Hnc.
  - rewrite step_opens.
    assert (Hne : (default CLOSED (sockets s !! w) =? CONNECTING) = false).
    { apply Z.eqb_neq. intros E. apply (Hnc w).
      destruct (sockets s !! w) as [st|]; [cbn in E; now subst|discriminate E]. }
    rewrite Hne. auto.
  - rewrite step_closes.
    destruct (default CLOSED (sockets s !! w) =? CLOSED); [auto|].
    destruct (onclose_frame code (with_sockets (<[w := CLOSED]> (sockets s)) s))
      as (Hn & Hw & Hs & Hrc).
    rewrite Hn, Hw. session_simpl. repeat split.
    + cbn [retryCount with_sockets] in Hrc. lia.
    + intros w'. rewrite Hs. session_simpl.
      destruct (decide (w = w')) as [->|Hne].
      * rewrite lookup_insert_eq. discriminate.
      * rewrite lookup_insert_ne by exact Hne. apply Hnc.
Qed.

Lemma automatic_run es :
  Forall automatic es -> forall s,
  (MAX_RETRIES <= retryCount s)%nat -> noneConnecting s ->
  nextSocket (run es s) = nextSocket s /\ wsCurrent (run es s) = wsCurrent s
  /\ (MAX_RETRIES <= retryCount (run es s))%nat.
Proof.
  induction 1 as [|e es He _ IH]; intros s Hmax Hnc; [now repeat split|].
  change (run (e :: es) s) with (run es (step s e)).
  destruct (automatic_step e s Hmax Hnc He) as (Hn & Hw & Hmax' & Hnc').
  destruct (IH _ Hmax' Hnc') as (Hn2 & Hw2 & Hmax2).
  rewrite Hn2, Hw2, Hn, Hw. now repeat split.
Qed.

(** In a page with no global of the name [heartbeatInterval]: once an
    execution has brought the counter to the ceiling, no automatic event
    constructs a socket. *)
Lemma no_attempt_after_ceiling es1 es2 :
  window !! "heartbeatInterval" = None ->
  (MAX_RETRIES <= retryCount (run es1 initial))%nat ->
  Forall automatic es2 ->
  nextSocket (run (es1 ++ es2) initial) = nextSocket (run es1 initial)
  /\ (MAX_RETRIES <= retryCount (run (es1 ++ es2) initial))%nat.
Proof.
  intros Hwin Hmax Hes.
  destruct (settled_run es1 Hwin) as (_ & _ & _ & Hl).
  unfold Client.run at 1 3. rewrite fold_left_app.
  destruct (automatic_run es2 Hes _ Hmax (Hl Hmax)) as (Hn & _ & Hrc).
  now split.
Qed.

(** In such a page a manual reconnect request leaves no timeout
    pending, at whatever point of an execution it comes. *)
Lemma manual_reconnect_clears_timeouts es :
  window !! "heartbeatInterval" = None ->
  timeouts (exec (handleCheckConnection None) (run es initial)) = ∅.
Proof.
  intros Hwin. destruct (settled_run es Hwin) as (_ & Ht & _).
  destruct (handleCheckConnection_attempt (run es initial)) as (_ & -> & _).
  now apply timeouts_cleared_tracked.
Qed.

(** C3, as the code has it. With the retry counter at the ceiling or
    above, a call of [connectWebSocket] returns without constructing a
    socket or scheduling a timeout; it clears the timeout
    [retryTimeoutRef] holds and reports the session as not connected. No
    sequence of events other than manual reconnect requests constructs a
    socket or brings the counter below the ceiling, as long as no socket
    was connecting. A manual reconnect request returns, whatever the
    WebSocket constructor does. When the constructor gives a socket, the
    request leaves the counter at 0 and makes a new connecting socket the
    current one. When the constructor throws, the request constructs no
    socket and leaves the current one as it was, the counter at 1 and a
    timeout of 1000 ms pending, held by [retryTimeoutRef]; when that
    timeout fires and the constructor gives a socket, a new connecting
    socket becomes the current one. The refused attempt that brings the
    counter to the ceiling still schedules a timeout, of 30000 ms. *)
Theorem gave_up_until_manual_reconnect s :
  (MAX_RETRIES <= retryCount s)%nat ->
  (forall failure,
     let s' := exec (connectWebSocket failure) s in
     returns (connectWebSocket failure) s
     /\ nextSocket s' = nextSocket s /\ sockets s' = sockets s
     /\ wsCurrent s' = wsCurrent s /\ retryCount s' = retryCount s
     /\ nextHandle s' = nextHandle s /\ timeouts s' ⊆ timeouts s
     /\ isConnected s' = false)
  /\ (forall es, noneConnecting s -> Forall automatic es ->
      nextSocket (run es s) = nextSocket s /\ wsCurrent (run es s) = wsCurrent s
      /\ (MAX_RETRIES <= retryCount (run es s))%nat)
  /\ (forall failure, returns (handleCheckConnection failure) s)
  /\ (let s' := exec (handleCheckConnection None) s in
      retryCount s' = O /\ wsCurrent s' = Some (nextSocket s)
      /\ sockets s' !! nextSocket s = Some CONNECTING
      /\ nextSocket s' = S (nextSocket s))
  /\ (forall e,
      let s' := exec (handleCheckConnection (Some e)) s in
      let s'' := step s' (TimeoutFires (nextHandle s) None) in
      retryCount s' = 1%nat /\ nextSocket s' = nextSocket s
      /\ wsCurrent s' = wsCurrent s
      /\ timeouts s' !! nextHandle s = Some 1000
      /\ retryTimeoutRef s' = Some (nextHandle s)
      /\ retryCount s'' = 1%nat /\ wsCurrent s'' = Some (nextSocket s)
      /\ sockets s'' !! nextSocket s = Some CONNECTING
      /\ nextSocket s'' = S (nextSocket s))
  /\ (forall e s0, S (retryCount s0) = MAX_RETRIES ->
      let s1 := exec (connectWebSocket (Some e)) s0 in
      retryCount s1 = MAX_RETRIES
      /\ timeouts s1 !! nextHandle s0 = Some 30000
      /\ retryTimeoutRef s1 = Some (nextHandle s0)).
Proof.
  intros Hmax. split; [|split; [|split; [|split; [|split]]]].
  - intros failure s'. subst s'. split; [apply total_connectWebSocket|].
    destruct (connectWebSocket_ceiling failure s Hmax)
      as (Hn & Hs & Hw & Hrc & Hh & Hsub & _ & Hi).
    now repeat split.
  - intros es Hnc Hes. now apply automatic_run.
  - intros failure. apply total_handleCheckConnection.
  - destruct (handleCheckConnection_attempt s)
      as (Hrc & _ & _ & Hw & Hn & Hs & _).
    cbn zeta. rewrite Hrc, Hw, Hn, Hs, lookup_insert_eq. now repeat split.
  - intros e s' s''.
    destruct (handleCheckConnection_refused e s)
      as (Hrc & Ht & Hr & _ & Hw & Hn & _).
    fold s' in Hrc, Ht, Hr, Hw, Hn.
    assert (Hp : timeouts s' !! nextHandle s = Some 1000)
      by (rewrite Ht; apply lookup_insert_eq).
    assert (Hlt : (retryCount (with_timeouts (delete (nextHandle s) (timeouts s')) s')
                   < MAX_RETRIES)%nat)
      by (session_simpl; rewrite Hrc; unfold MAX_RETRIES; lia).
    destruct (connectWebSocket_attempt _ Hlt)
      as (_ & Hrc2 & _ & _ & Hw2 & Hn2 & Hs2 & _).
    assert (Es : s'' = exec (connectWebSocket None)
                         (with_timeouts (delete (nextHandle s) (timeouts s')) s'))
      by (subst s''; rewrite step_timeout, Hp; reflexivity).
    rewrite Es, Hrc2, Hw2, Hn2, Hs2. session_simpl.
    rewrite Hn, lookup_insert_eq. now repeat split.
  - intros e s0 H9 s1. subst s1.
    assert (Hlt : (retryCount s0 < MAX_RETRIES)%nat) by lia.
    destruct (connectWebSocket_refused e s0 Hlt)
      as (_ & Hrc & Ht & Hr & _).
    rewrite Hrc, Ht, Hr, H9, lookup_insert_eq. now repeat split.
Qed.

End Session.

(** *** The session on concrete runs *)

Example connected_state :
  isConnected connected = true /\ retryCount connected = O
  /\ sockets connected !! O = Some OPEN.
Proof. vm_compute. auto. Qed.

Example backoff_delays :
  List.map retryDelay (seq 1 7) = [1000; 2000; 4000; 8000; 16000; 30000; 30000].
Proof. vm_compute. reflexivity. Qed.

Lemma close_handler_throws_witness :
  browserGlobals !! "heartbeatInterval" = None
  /\ fst (onclose clock browserGlobals 1006 connected) = Throw notDefined
  /\ retryCount (exec (onclose clock browserGlobals 1006) connected) = retryCount connected
  /\ logs (exec (onclose clock browserGlobals 1006) connected) = logs connected
  /\ timeouts (exec (onclose clock browserGlobals 1006) connected) = timeouts connected
  /\ retryCount (step clock browserGlobals connected (SocketCloses 0 1006)) = O
  /\ isConnected (step clock browserGlobals connected (SocketCloses 0 1006)) = true.
Proof.
  assert (H : browserGlobals !! "heartbeatInterval" = None)
    by (vm_compute; reflexivity).
  destruct (close_handler_throws clock browserGlobals 1006 connected H)
    as (Ht & Hrc & Hl & Hto & _ & _ & Hstep).
  destruct (Hstep O) as (Hrc' & _ & _ & Hi').
  split; [exact H|]. split; [exact Ht|]. split; [exact Hrc|].
  split; [exact Hl|]. split; [exact Hto|].
  split; [rewrite Hrc'; vm_compute; reflexivity | rewrite Hi'; vm_compute; reflexivity].
Defined.

(** C3, as stated: were no reconnect scheduled once the counter is at the
    ceiling, no execution would reach a state with the counter at 10 and a
    timeout pending. After ten refused attempts the counter is 10 and the
    timeout of the tenth failure, 30000 ms, is pending. *)
Lemma retry_scheduled_at_ceiling :
  ~ (forall now globals es,
        (MAX_RETRIES <= retryCount (run now globals es initial))%nat ->
        timeouts (run now globals es initial) = ∅).
Proof.
  intros H. specialize (H clock browserGlobals tenRefusals).
  assert (Hc : (MAX_RETRIES
                <= retryCount (run clock browserGlobals tenRefusals initial))%nat)
    by (vm_compute; lia).
  assert (Hp : timeouts (run clock browserGlobals tenRefusals initial) !! 10%nat
               = Some 30000) by (vm_compute; reflexivity).
  rewrite (H Hc), lookup_empty in Hp. discriminate Hp.
Qed.

Example gave_up_state :
  retryCount gaveUp = 10%nat /\ timeouts gaveUp !! 10%nat = Some 30000
  /\ retryTimeoutRef gaveUp = Some 10%nat /\ nextSocket gaveUp = O.
Proof. vm_compute. auto. Qed.

Lemma gave_up_until_manual_reconnect_witness :
  (MAX_RETRIES <= retryCount gaveUp)%nat
  /\ nextSocket (exec (connectWebSocket clock None) gaveUp) = nextSocket gaveUp
  /\ timeouts (exec (connectWebSocket clock None) gaveUp) ⊆ timeouts gaveUp
  /\ nextSocket (run clock browserGlobals
                   [TimeoutFires 10 None; SocketCloses 0 1006; TimeoutFires 11 None] gaveUp)
     = nextSocket gaveUp
  /\ retryCount (exec (handleCheckConnection clock None) gaveUp) = O
  /\ wsCurrent (exec (handleCheckConnection clock None) gaveUp) = Some (nextSocket gaveUp)
  /\ retryCount (exec (handleCheckConnection clock (Some refused)) gaveUp) = 1%nat
  /\ nextSocket (exec (handleCheckConnection clock (Some refused)) gaveUp) = nextSocket gaveUp
  /\ timeouts (exec (handleCheckConnection clock (Some refused)) gaveUp) !! nextHandle gaveUp
     = Some 1000
  /\ wsCurrent (step clock browserGlobals
                  (exec (handleCheckConnection clock (Some refused)) gaveUp)
                  (TimeoutFires (nextHandle gaveUp) None))
     = Some (nextSocket gaveUp)
  /\ (S (retryCount (run clock browserGlobals (firstn 9 tenRefusals) initial)) = MAX_RETRIES
      /\ timeouts (exec (connectWebSocket clock (Some refused))
                     (run clock browserGlobals (firstn 9 tenRefusals) initial))
         !! nextHandle (run clock browserGlobals (firstn 9 tenRefusals) initial)
         = Some 30000).
Proof.
  assert (Hc : (MAX_RETRIES <= retryCount gaveUp)%nat) by (vm_compute; lia).
  destruct (gave_up_until_manual_reconnect clock browserGlobals gaveUp Hc)
    as (Hguard & Htrace & _ & Hmanual & Hrefused & Hlast).
  destruct (Hguard None) as (_ & Hn & _ & _ & _ & _ & Hsub & _).
  assert (Hes : Forall automatic
                  [TimeoutFires 10 None; SocketCloses 0 1006; TimeoutFires 11 None])
    by (repeat constructor).
  assert (Hnc : noneConnecting gaveUp).
  { assert (Hw : browserGlobals !! "heartbeatInterval" = None)
      by (vm_compute; reflexivity).
    destruct (settled_run clock browserGlobals tenRefusals Hw) as (_ & _ & _ & Hl).
    apply Hl. vm_compute. lia. }
  destruct (Htrace _ Hnc Hes) as (Hn' & _ & _).
  destruct Hmanual as (Hrc & Hw & _ & _).
  destruct (Hrefused refused) as (Hrc1 & Hn1 & _ & Ht1 & _ & _ & Hw1 & _).
  assert (H9 : S (retryCount (run clock browserGlobals (firstn 9 tenRefusals) initial))
               = MAX_RETRIES) by (vm_compute; reflexivity).
  destruct (Hlast refused _ H9) as (_ & Ht9 & _).
  split; [exact Hc|]. split; [exact Hn|]. split; [exact Hsub|].
  split; [exact Hn'|]. split; [exact Hrc|]. split; [exact Hw|].
  split; [exact Hrc1|]. split; [exact Hn1|]. split; [exact Ht1|].
  split; [exact Hw1|]. split; [exact H9 | exact Ht9].
Defined.

(** C9, as stated: were the request idempotent on the session, a second
    request would leave the session as the first left it. From the
    initial session the log has three entries after one request and six
    after two. *)
Lemma manual_reconnect_not_idempotent :
  ~ (forall now s,
        exec (handleCheckConnection now None) (exec (handleCheckConnection now None) s)
        = exec (handleCheckConnection now None) s).
Proof.
  intros H. specialize (H clock initial).
  apply (f_equal (fun s => length (logs s))) in H.
  vm_compute in H. discriminate H.
Qed.

Lemma manual_reconnect_effect_witness :
  retryCount (exec (handleCheckConnection clock None) gaveUp) = O
  /\ timeouts (exec (handleCheckConnection clock None) gaveUp) !! 10%nat = None
  /\ statusRequests (exec (handleCheckConnection clock None) gaveUp)
     = S (statusRequests gaveUp)
  /\ timeouts (exec (handleCheckConnection clock None)
                 (exec (handleCheckConnection clock None) gaveUp))
     = timeouts (exec (handleCheckConnection clock None) gaveUp).
Proof.
  destruct (manual_reconnect_effect clock gaveUp)
    as (_ & Hcancel & _ & _ & Hrc & _ & Hq & _ & _ & Ht2 & _).
  split; [exact Hrc|].
  split; [apply Hcancel; [vm_compute; reflexivity | discriminate]|].
  split; [exact Hq | exact Ht2].
Defined.

End ClientProofs.

(** ** Further properties of the broadcast channel *)

Module ChannelProofs.

Import Backend BackendNotions ChannelNotions EffFacts BackendProofs.

Lemma takesFrames_pushFrame frame k :
  takesFrames (pushFrame frame k) = takesFrames k.
Proof. reflexivity. Qed.

Lemma fmap_id_lookup (h : gmap nat Socket) (y : nat) :
  (fun k : Socket => k) <$> h !! y = h !! y.
Proof. now destruct (h !! y). Qed.

(** What [broadcastLog] does to the socket of a subscriber that takes
    frames, and to a socket that is not subscribed. *)
Lemma broadcastLog_subscriber message s c k :
  NoDup (clients s) -> c ∈ clients s -> heap s !! c = Some k ->
  takesFrames k = true ->
  heap (exec (broadcastLog message) s) !! c
    = Some (pushFrame (LogFrame (logText message)) k).
Proof.
  intros Hnd Hc Hk Ht. rewrite broadcastLog_lookup by exact Hnd.
  rewrite Hk. cbn. now rewrite bool_decide_eq_true_2, Ht by exact Hc.
Qed.

Lemma broadcastLog_stranger message s c :
  NoDup (clients s) -> c ∉ clients s ->
  heap (exec (broadcastLog message) s) !! c = heap s !! c.
Proof.
  intros Hnd Hc. rewrite broadcastLog_lookup by exact Hnd.
  rewrite <- (fmap_id_lookup (heap s) c) at 2.
  destruct (heap s !! c) as [k|]; [|reflexivity]. cbn.
  now rewrite bool_decide_eq_false_2 by exact Hc.
Qed.

Lemma clients_broadcastLog message s :
  clients (exec (broadcastLog message) s) = clients s.
Proof. apply keeps_clients_broadcastLog. Qed.

(** *** A computation that leaves alone the sockets that are not subscribed *)

Lemma spares_ret {A} c (a : A) : spares c (mret a : Eff Server A).
Proof. now intros s. Qed.

Lemma spares_gets {A} c (f : Server -> A) : spares c (gets f).
Proof. now intros s. Qed.

Lemma spares_throw {A} c e : spares c (throw e : Eff Server A).
Proof. now intros s. Qed.

Lemma spares_modify c (g : Server -> Server) :
  (forall s, heap (g s) = heap s /\ clients (g s) = clients s) ->
  spares c (modify g).
Proof.
  intros H s _ _. unfold exec, modify. cbn [snd].
  destruct (H s) as [-> ->]. now split.
Qed.

Lemma spares_bind {A B} c (m : Eff Server A) (k : A -> Eff Server B) :
  spares c m -> (forall a, spares c (k a)) -> spares c (m ≫= k).
Proof.
  unfold spares, exec. intros Hm Hk s Hnd Hc. destruct (Hm s Hnd Hc) as [Hh Hcl].
  unfold mbind, eff_bind in *.
  destruct (m s) as [[a|e] s1]; cbn [snd] in *; [|now split].
  destruct (Hk a s1) as [Hh' Hcl']; [now rewrite Hcl | now rewrite Hcl |].
  split; congruence.
Qed.

Lemma spares_tryCatch {A} c (m : Eff Server A) (h : Error -> Eff Server A) :
  spares c m -> (forall e, spares c (h e)) -> spares c (tryCatch m h).
Proof.
  unfold spares, exec. intros Hm Hh s Hnd Hc. destruct (Hm s Hnd Hc) as [H1 H2].
  unfold tryCatch in *.
  destruct (m s) as [[a|e] s1]; cbn [snd] in *; [now split|].
  destruct (Hh e s1) as [H1' H2']; [now rewrite H2 | now rewrite H2 |].
  split; congruence.
Qed.

Lemma spares_if {A} c (b : bool) (m1 m2 : Eff Server A) :
  spares c m1 -> spares c m2 -> spares c (if b then m1 else m2).
Proof. now destruct b. Qed.

Lemma spares_broadcastLog c message : spares c (broadcastLog message).
Proof.
  intros s Hnd Hc. split;
    [now apply broadcastLog_stranger | apply clients_broadcastLog].
Qed.

#[export] Hint Resolve spares_ret spares_gets spares_throw spares_broadcastLog : eff.

Ltac spares_step :=
  lazymatch goal with
  | |- spares _ (mbind _ _) => apply spares_bind; [|intros ?]
  | |- spares _ (tryCatch _ _) => apply spares_tryCatch; [|intros ?]
  | |- spares _ (match ?x with _ => _ end) => first [apply spares_if | destruct x]
  | |- spares _ (modify _) => apply spares_modify; intros ?; split; reflexivity
  | _ => solve [auto with eff]
  end.

Lemma spares_console_log c args : spares c (console_log args).
Proof. unfold console_log, originalConsoleLog. repeat spares_step. Qed.

Lemma spares_console_error c args : spares c (console_error args).
Proof. unfold console_error, originalConsoleError. repeat spares_step. Qed.

(** *** What [broadcastLog] writes to the console *)

Lemma failure_sendTo logMessage x s y :
  failure (exec (sendTo logMessage x) s) y = failure s y.
Proof.
  unfold failure. rewrite sendTo_lookup.
  destruct (heap s !! y) as [k|]; [|reflexivity]. cbn.
  now destruct (bool_decide (y = x) && takesFrames k).
Qed.

Lemma sendTo_stderr logMessage x s :
  stderr (exec (sendTo logMessage x) s) =
    stderr s ++ match failure s x with
                | Some e => [sendErrorLine e]
                | None => []
                end.
Proof.
  unfold failure, exec, sendTo, send, readField, tryCatch, mbind, eff_bind, gets,
    throw, updateSocket, modify, originalConsoleError, sendErrorLine, OPEN.
  cbn beta. destruct (heap s !! x) as [k|] eqn:E; cbn;
    [|now rewrite app_nil_r].
  destruct (readyState k =? 1) eqn:Eo; cbn; [|now rewrite app_nil_r].
  rewrite ?E. cbn. destruct (sendFault k); [reflexivity|].
  cbn. rewrite ?E. cbn. rewrite Eo. cbn. now rewrite app_nil_r.
Qed.

Lemma omap_failure_sendTo logMessage x s (l : list nat) :
  omap (failure (exec (sendTo logMessage x) s)) l = omap (failure s) l.
Proof.
  induction l as [|y t IH]; [reflexivity|].
  cbn. now rewrite failure_sendTo, IH.
Qed.

Lemma forEach_sendTo_stderr logMessage l : forall s,
  stderr (exec (forEach (sendTo logMessage) l) s) =
    stderr s ++ List.map sendErrorLine (omap (failure s) l).
Proof.
  induction l as [|x t IH]; intros s.
  - cbn. now rewrite app_nil_r.
  - cbn [forEach].
    destruct (exec_then (sendTo logMessage x) (fun _ => forEach (sendTo logMessage) t) s
                (total_sendTo _ _)) as [[] ->].
    rewrite IH, sendTo_stderr, omap_failure_sendTo, <- app_assoc. f_equal.
    cbn [omap list_omap]. now destruct (failure s x).
Qed.

Lemma forEach_sendTo_stdout logMessage l s :
  stdout (exec (forEach (sendTo logMessage) l) s) = stdout s.
Proof.
  apply (keeps_forEach stdout). intros x. now apply keeps_sendTo.
Qed.

Lemma broadcastLog_console message s :
  stdout (exec (broadcastLog message) s) =
    stdout s ++ (if includes (logText message) BROADCAST then []
                 else [[VStr (logText message)]])
  /\ stderr (exec (broadcastLog message) s) =
       stderr s ++ List.map sendErrorLine (omap (failure s) (clients s)).
Proof.
  unfold broadcastLog.
  set (echo := if negb (includes (logText message) BROADCAST)
               then originalConsoleLog [VStr (logText message)] else mret ()).
  assert (He : total echo) by (subst echo; destruct (negb _); auto with eff).
  destruct (exec_then echo
              (fun _ => subscribers ← gets clients;
                        forEach (sendTo (logText message)) subscribers) s He)
    as [[] ->].
  unfold exec at 1 3, mbind, eff_bind, gets.
  fold (exec (forEach (sendTo (logText message)) (clients (exec echo s))) (exec echo s)).
  rewrite forEach_sendTo_stdout, forEach_sendTo_stderr.
  subst echo. destruct (includes (logText message) BROADCAST); cbn [negb].
  - split; [now rewrite app_nil_r | reflexivity].
  - split; reflexivity.
Qed.

Lemma includes_error_prefix (m : jsstring) :
  includes (lit "ERROR: " ++ m) BROADCAST = includes m BROADCAST.
Proof. reflexivity. Qed.

Lemma setDelete_setAdd x l : x ∉ l -> setDelete x (setAdd x l) = l.
Proof.
  intros Hx. unfold setAdd. rewrite bool_decide_eq_false_2 by exact Hx.
  unfold setDelete. rewrite List.filter_app. cbn. rewrite Nat.eqb_refl. cbn.
  rewrite app_nil_r. induction l as [|y t IH]; [reflexivity|].
  apply not_elem_of_cons in Hx as [Hne Hx]. cbn.
  destruct (Nat.eqb_spec x y) as [->|_]; [contradiction|].
  cbn. now rewrite IH.
Qed.

Section Channel.

Variable LOCALAPPDATA : option jsstring.
Variable path_join : list jsstring -> jsstring.

Abbreviation step := (step LOCALAPPDATA path_join).
Abbreviation run := (run LOCALAPPDATA path_join).
Abbreviation handle := (handle LOCALAPPDATA path_join).
Abbreviation postStart := (postStart LOCALAPPDATA path_join).

Lemma spares_publication c e : publication e -> spares c (handle e).
Proof.
  destruct e; intros H; try contradiction; cbn [Backend.handle].
  - apply spares_broadcastLog.
  - apply spares_console_log.
  - apply spares_console_error.
  - unfold Backend.postStart, userDataDir, isJobMonitorRunning, startMonitoringJobs.
    repeat (spares_step || apply spares_console_error).
  - unfold postStop, isJobMonitorRunning, stopMonitoringJobs. repeat spares_step.
  - unfold getStatus, isJobMonitorRunning. repeat spares_step.
Qed.

Lemma publish_run_lookup (messages : list Value) :
  forall s c k,
    NoDup (clients s) -> c ∈ clients s -> heap s !! c = Some k ->
    takesFrames k = true ->
    heap (run (List.map Publish messages) s) !! c =
      Some (mkSocket (readyState k) (isAlive k) (sendFault k)
              (outbox k ++ List.map (fun m => LogFrame (logText m)) messages)
              (pings k)).
Proof.
  induction messages as [|m ms IH]; intros s c k Hnd Hc Hk Ht.
  - cbn. rewrite app_nil_r. now destruct k.
  - cbn [List.map].
    change (run (Publish m :: List.map Publish ms) s)
      with (run (List.map Publish ms) (step s (Publish m))).
    rewrite (IH _ c (pushFrame (LogFrame (logText m)) k)).
    + cbn. now rewrite <- app_assoc.
    + now rewrite clients_step.
    + now rewrite clients_step.
    + now apply broadcastLog_subscriber.
    + exact Ht.
Qed.

(** X1. A run of publications reaches every subscriber that takes frames
    in the order of publication, each message once: the frames handed to
    its transport are the ones it held, followed by one frame for each
    message, in order. Every other socket, be it not subscribed, not open
    or with a transport that raises, is left as it was. *)
Theorem publications_arrive_in_order (messages : list Value) :
  forall s c,
    NoDup (clients s) ->
    heap (run (List.map Publish messages) s) !! c =
      (fun k =>
         if bool_decide (c ∈ clients s) && takesFrames k
         then mkSocket (readyState k) (isAlive k) (sendFault k)
                (outbox k ++ List.map (fun m => LogFrame (logText m)) messages)
                (pings k)
         else k) <$> heap s !! c.
Proof.
  induction messages as [|m ms IH]; intros s c Hnd.
  - cbn [List.map Backend.run fold_left]. destruct (heap s !! c) as [k|]; [|reflexivity].
    cbn. rewrite app_nil_r. destruct k. now destruct (_ && _).
  - cbn [List.map].
    change (run (Publish m :: List.map Publish ms) s)
      with (run (List.map Publish ms) (step s (Publish m))).
    rewrite IH by (rewrite clients_step; exact Hnd).
    rewrite clients_step. unfold Backend.step. cbn [Backend.handle].
    rewrite broadcastLog_lookup by exact Hnd.
    destruct (heap s !! c) as [k|]; [|reflexivity]. cbn [fmap option_fmap option_map].
    f_equal. destruct (bool_decide (c ∈ clients s)); cbn [andb]; [|reflexivity].
    destruct (takesFrames k) eqn:Et.
    + rewrite takesFrames_pushFrame, Et. unfold pushFrame.
      cbn [readyState isAlive sendFault outbox pings List.map].
      now rewrite <- app_assoc.
    + now rewrite Et.
Qed.

(** X2. Once the close event of a subscriber was handled, nothing that is
    published reaches its socket: publications, console calls and requests
    leave the socket as the close event left it, and the socket stays out
    of the subscriber set. *)
Theorem closed_subscriber_gets_nothing s c code reason es :
  NoDup (clients s) -> Forall publication es ->
  heap (run es (step s (Close c code reason))) !! c
    = heap (step s (Close c code reason)) !! c
  /\ c ∉ clients (run es (step s (Close c code reason))).
Proof.
  intros Hnd Hes.
  assert (Hc : c ∉ clients (step s (Close c code reason)))
    by apply close_removes.
  assert (Hnd1 : NoDup (clients (step s (Close c code reason)))).
  { rewrite clients_step. now apply NoDup_setDelete. }
  revert Hc Hnd1. generalize (step s (Close c code reason)). clear s Hnd.
  induction Hes as [|e es He _ IH]; intros s Hc Hnd; [now split|].
  change (run (e :: es) s) with (run es (step s e)).
  destruct (spares_publication c e He s Hnd Hc) as [Hh Hcl].
  fold (step s e) in Hh, Hcl.
  destruct (IH (step s e)) as [IH1 IH2]; [now rewrite Hcl | now rewrite Hcl |].
  split; [congruence | exact IH2].
Qed.

(** X3. What a publication writes to the console: the message itself on
    the original standard output unless it carries the marker, and on the
    original standard error one line for every open subscriber whose
    transport raised, in the order of the set. *)
Theorem publication_console_lines message s :
  stdout (step s (Publish message)) =
    stdout s ++ (if includes (logText message) BROADCAST then []
                 else [[VStr (logText message)]])
  /\ stderr (step s (Publish message)) =
       stderr s ++ List.map sendErrorLine (omap (failure s) (clients s)).
Proof. apply broadcastLog_console. Qed.

(** X4. A call of the intercepted [console.log] whose joined text does not
    carry the marker is written twice to the original standard output:
    with its arguments, and once more as the published text. One that
    carries the marker is written once. *)
Theorem console_log_written_twice args s :
  stdout (step s (ConsoleLog args)) =
    stdout s ++ args :: (if includes (joined args) BROADCAST then []
                         else [[VStr (joined args)]]).
Proof.
  unfold Backend.step. cbn [Backend.handle].
  destruct (includes (joined args) BROADCAST) eqn:E.
  - now rewrite console_log_marked.
  - rewrite console_log_unmarked by exact E.
    destruct (broadcastLog_console (VStr (joined args))
                (withStdout (stdout s ++ [args]) s)) as [-> _].
    cbn [logText stdout withStdout]. rewrite E, <- app_assoc. reflexivity.
Qed.

(** X5. A call of the intercepted [console.error] whose joined text does
    not carry the marker is written to the original standard error with
    its arguments, followed by one line for each subscriber whose
    transport raised, and to the original standard output as the
    published text, which begins with 'ERROR: '. One that carries the
    marker is written to the standard error only. *)
Theorem console_error_lines args s :
  stderr (step s (ConsoleError args)) =
    stderr s ++ args :: (if includes (joined args) BROADCAST then []
                         else List.map sendErrorLine (omap (failure s) (clients s)))
  /\ stdout (step s (ConsoleError args)) =
       stdout s ++ (if includes (joined args) BROADCAST then []
                    else [[VStr (lit "ERROR: " ++ joined args)]]).
Proof.
  unfold Backend.step. cbn [Backend.handle].
  destruct (includes (joined args) BROADCAST) eqn:E.
  - rewrite console_error_marked by exact E. cbn [stdout stderr withStderr].
    now rewrite app_nil_r.
  - rewrite console_error_unmarked by exact E.
    destruct (broadcastLog_console (VStr (lit "ERROR: " ++ joined args))
                (withStderr (stderr s ++ [args]) s)) as [-> ->].
    cbn [logText stdout stderr withStderr clients].
    rewrite includes_error_prefix, E, <- app_assoc. split; reflexivity.
Qed.

(** *** Connections *)

Lemma alter_insert_same (f : Socket -> Socket) (i : nat) (x : Socket)
    (m : gmap nat Socket) :
  alter f i (<[i := x]> m) = <[i := f x]> m.
Proof.
  apply map_eq. intros y. destruct (decide (y = i)) as [->|Hne].
  - now rewrite lookup_alter_eq, !lookup_insert_eq.
  - now rewrite lookup_alter_ne, !lookup_insert_ne by congruence.
Qed.

Lemma connection_exec fault s :
  handle (Connection fault) s =
    (match fault with
     | Some e => Throw e
     | None => Normal tt
     end,
     mkServer
       (<[nextSocket s :=
            mkSocket OPEN (Some true) fault
              (match fault with
               | Some _ => []
               | None => [LogFrame welcomeText]
               end) 0]> (heap s))
       (S (nextSocket s))
       (setAdd (nextSocket s) (clients s))
       (setAdd (nextSocket s) (wssClients s))
       (closing s)
       (stdout s ++ [[VStr (lit "[BROADCAST] New WebSocket client connected")]])
       (stderr s) (worker s)).
Proof.
  unfold Backend.handle, accept, onConnection, setIsAlive, send, readField,
    updateSocket, originalConsoleLog, mbind, eff_bind, gets, modify, throw,
    mret, eff_ret, welcomeText.
  cbn beta. server_simpl.
  rewrite !alter_insert_same. cbn [readyState isAlive sendFault outbox pings].
  rewrite !lookup_insert_eq. cbn [from_option sendFault readyState].
  destruct fault as [e|]; [reflexivity|].
  cbn iota beta. unfold withHeap. server_simpl.
  rewrite lookup_insert_eq. cbn [from_option readyState].
  change (OPEN =? OPEN) with true. cbn iota beta. server_simpl.
  rewrite alter_insert_same. reflexivity.
Qed.

(** X6. A connection is subscribed before it is greeted: the new socket
    is in both sets and marked alive whether or not the welcome frame
    could be sent. If the transport takes it, the welcome frame is the
    first frame of the socket; if the transport raises, the exception
    leaves the handler and the socket stays subscribed. *)
Theorem connection_subscribed_before_welcome fault s :
  let w := nextSocket s in
  let s' := step s (Connection fault) in
  w ∈ clients s' /\ w ∈ wssClients s'
  /\ heap s' !! w =
       Some (mkSocket OPEN (Some true) fault
               (match fault with
                | Some _ => []
                | None => [LogFrame welcomeText]
                end) 0)
  /\ fst (handle (Connection fault) s) =
       match fault with
       | Some e => Throw e
       | None => Normal tt
       end.
Proof.
  intros w s'. subst w s'. unfold Backend.step, exec.
  rewrite connection_exec. server_simpl.
  rewrite !elem_of_setAdd, lookup_insert_eq. repeat split; auto.
Qed.

Lemma members_step s e :
  wssClients (step s e) =
    match e with
    | Connection _ => setAdd (nextSocket s) (wssClients s)
    | Close w _ _ => setDelete w (wssClients s)
    | _ => wssClients s
    end
  /\ nextSocket (step s e) =
       match e with
       | Connection _ => S (nextSocket s)
       | _ => nextSocket s
       end.
Proof.
  destruct e;
    try (match goal with
         | |- context [Backend.step _ _ s ?e] =>
             destruct (watch_inv _ _ _ (keeps_watch_routes LOCALAPPDATA path_join O e I s))
               as (_ & Hn & Hw)
         end; split; [exact Hw | exact Hn]).
  - unfold Backend.step, exec. rewrite connection_exec. split; reflexivity.
  - destruct (watch_inv _ _ _ (quiet_pong LOCALAPPDATA path_join (S ws) ws s
                                 (Nat.neq_succ_diag_r ws))) as (_ & Hn & Hw).
    split; [exact Hw | exact Hn].
  - split; reflexivity.
  - destruct (tick_frame LOCALAPPDATA path_join s) as (_ & Hw & Hn).
    split; [exact Hw | exact Hn].
Qed.

Lemma fresh_step s e : fresh s -> fresh (step s e).
Proof.
  intros [Hc Hw]. destruct (members_step s e) as [Ew En].
  unfold fresh. rewrite clients_step, Ew, En.
  destruct e; try (split; assumption).
  - split; intros c Hin; apply elem_of_setAdd in Hin as [->|Hin];
      [lia | apply Hc in Hin; lia | lia | apply Hw in Hin; lia].
  - split; intros c Hin; apply elem_of_setDelete in Hin as [_ Hin]; auto.
Qed.

Lemma fresh_run es : fresh (run es initial).
Proof.
  assert (H : forall s, fresh s -> fresh (run es s)).
  { induction es as [|e es IH]; intros s Hs; [exact Hs|].
    change (run (e :: es) s) with (run es (step s e)).
    apply IH. now apply fresh_step. }
  apply H. split; intros c Hin; inversion Hin.
Qed.

(** X7. Subscribing and unsubscribing undo each other: at any point of
    the life of the process, a connection followed by the close event of
    the socket it brought leaves the subscriber set and the set of the
    library as they were. *)
Theorem connection_then_close_restores_sets es fault code reason :
  let s := run es initial in
  let s' := run [Connection fault; Close (nextSocket s) code reason] s in
  clients s' = clients s /\ wssClients s' = wssClients s.
Proof.
  intros s s'. subst s'.
  change (run [Connection fault; Close (nextSocket s) code reason] s)
    with (step (step s (Connection fault)) (Close (nextSocket s) code reason)).
  destruct (fresh_run es) as [Hc Hw]. fold s in Hc, Hw.
  destruct (members_step (step s (Connection fault))
              (Close (nextSocket s) code reason)) as [-> _].
  destruct (members_step s (Connection fault)) as [-> _].
  rewrite !clients_step.
  split; apply setDelete_setAdd; intros Hin.
  - apply Hc in Hin. lia.
  - apply Hw in Hin. lia.
Qed.

(** *** Messages of a client *)

Lemma total_onMessage ws message : total (onMessage ws message).
Proof. unfold onMessage, originalConsoleError. repeat eff_step. Qed.

(** X8. The message handler never throws and never changes the subscriber
    set. A heartbeat on a socket that takes frames is answered with one
    heartbeat response on that socket; any other message, parsed or not,
    leaves every socket as it was. *)
Theorem heartbeat_answered_on_its_socket ws message s :
  returns (onMessage ws message) s
  /\ clients (step s (FromClient ws message)) = clients s
  /\ (forall k, message = heartbeatMessage -> heap s !! ws = Some k ->
        takesFrames k = true ->
        heap (step s (FromClient ws message))
          = <[ws := pushFrame HeartbeatResponse k]> (heap s))
  /\ (message <> heartbeatMessage ->
        heap (step s (FromClient ws message)) = heap s).
Proof.
  split; [apply total_onMessage|]. split; [apply clients_step|]. split.
  - intros k -> Hk Ht. unfold takesFrames in Ht.
    apply andb_true_iff in Ht as [Ho Hf]. apply bool_decide_eq_true in Hf.
    unfold Backend.step, exec, Backend.handle, onMessage, heartbeatMessage,
      send, readField, tryCatch, mbind, eff_bind, gets, updateSocket, modify.
    rewrite bool_decide_eq_true_2 by reflexivity.
    cbn beta. rewrite Hk. cbn [from_option]. rewrite Hf. cbn iota beta.
    rewrite Hk. cbn [from_option]. rewrite Ho. server_simpl.
    apply map_eq. intros y. destruct (decide (y = ws)) as [->|Hne].
    + now rewrite lookup_alter_eq, lookup_insert_eq, Hk.
    + now rewrite lookup_alter_ne, lookup_insert_ne by congruence.
  - intros Hne.
    unfold Backend.step, exec, Backend.handle, onMessage, tryCatch, throw,
      originalConsoleError, modify.
    destruct message as [err|type]; [reflexivity|].
    rewrite bool_decide_eq_false_2; [reflexivity|].
    intros ->. now apply Hne.
Qed.

(** *** The routes and the channel *)

Lemma firstSuch_filter first ls :
  firstSuch linkAccepted first ls ->
  exists rest, List.filter acceptsLink ls = first :: rest.
Proof.
  intros (before & after & -> & Hb & Hx). eexists.
  apply filter_skip; [|exact Hx].
  eapply Forall_impl; [exact Hb|]. intros l. apply acceptsLink_false.
Qed.

Lemma Exists_filter_positions ps :
  Exists positionAccepted ps -> List.filter nonEmpty (List.map trim ps) <> [].
Proof.
  intros Hps. rewrite targetPositions_spec. intros E. apply map_eq_nil in E.
  apply Exists_exists in Hps as (p & Hin & Hp).
  assert (p ∈ filter positionAccepted ps) as Hm.
  { apply list_elem_of_filter. now split. }
  rewrite E in Hm. inversion Hm.
Qed.

Lemma postStart_accepted_state ls ps first rest dir s :
  LOCALAPPDATA = Some dir -> isRunning (worker s) = false ->
  List.filter acceptsLink ls = first :: rest ->
  List.filter nonEmpty (List.map trim ps) <> [] ->
  postStart (mkStartRequest (Some ls) (Some ps)) s =
    (Normal (mkResponse 200
               (Started (lit "Script started") (configOf path_join dir first ps))),
     withWorker (mkWorker true (configOf path_join dir first ps :: launched (worker s)))
       (exec (broadcastLog (VStr (lookingText ps)))
          (exec (broadcastLog (VStr (startingText first))) s))).
Proof.
  intros Hd Hr Hf Hn. unfold Backend.postStart. cbn [links positions].
  unfold mbind at 1, eff_bind at 1, isJobMonitorRunning, gets. rewrite Hr, Hf.
  unfold lookingText, configOf.
  destruct (List.filter nonEmpty (List.map trim ps)) as [|p0 pt] eqn:Ep;
    [contradiction|].
  cbn [length Nat.eqb]. unfold userDataDir. rewrite Hd.
  unfold mbind, eff_bind, mret, eff_ret, tryCatch.
  rewrite !broadcastLog_run.
  unfold startMonitoringJobs, modify. cbn [AMAZON_JOBS_URL TARGET_JOBS].
  rewrite !worker_broadcastLog. reflexivity.
Qed.

(** X9. An accepted start request is announced on the channel before the
    worker is started: every subscriber that takes frames receives two
    frames, the first naming the first accepted link as it was supplied,
    the second the target positions joined with a comma and a space. *)
Theorem accepted_start_is_announced ls ps first dir s c k :
  LOCALAPPDATA = Some dir -> isRunning (worker s) = false ->
  firstSuch linkAccepted first ls -> Exists positionAccepted ps ->
  NoDup (clients s) -> c ∈ clients s -> heap s !! c = Some k ->
  takesFrames k = true ->
  heap (step s (Start (mkStartRequest (Some ls) (Some ps)))) !! c =
    Some (mkSocket (readyState k) (isAlive k) (sendFault k)
            (outbox k ++ [LogFrame (startingText first); LogFrame (lookingText ps)])
            (pings k)).
Proof.
  intros Hd Hr Hf Hps Hnd Hc Hk Ht.
  destruct (firstSuch_filter _ _ Hf) as [rest Hfl].
  unfold Backend.step, exec. cbn [Backend.handle]. unfold mbind, eff_bind.
  rewrite (postStart_accepted_state ls ps first rest dir s Hd Hr Hfl
             (Exists_filter_positions _ Hps)).
  cbn [snd mret eff_ret heap withWorker].
  rewrite (broadcastLog_subscriber _ _ c (pushFrame (LogFrame (startingText first)) k)).
  - unfold pushFrame. cbn [readyState isAlive sendFault outbox pings logText].
    now rewrite <- app_assoc.
  - now rewrite clients_broadcastLog.
  - now rewrite clients_broadcastLog.
  - now apply broadcastLog_subscriber.
  - exact Ht.
Qed.

(** X10. A stop request while the worker runs is answered 200 'Script
    stopped', leaves the worker stopped with the list of its
    configurations as it was, and hands one frame with the stop notice to
    every subscriber that takes frames; the status route reports the
    worker as stopped from then on. *)
Theorem stop_while_running s :
  isRunning (worker s) = true -> NoDup (clients s) ->
  fst (postStop s) = Normal (mkResponse 200 (Message (lit "Script stopped")))
  /\ worker (step s Stop) = mkWorker false (launched (worker s))
  /\ fst (getStatus (step s Stop)) = Normal (mkResponse 200 (Status false))
  /\ forall c k, c ∈ clients s -> heap s !! c = Some k -> takesFrames k = true ->
       heap (step s Stop) !! c = Some (pushFrame (LogFrame stoppedText) k).
Proof.
  intros Hr Hnd.
  assert (E : postStop s =
              (Normal (mkResponse 200 (Message (lit "Script stopped"))),
               exec (broadcastLog (VStr stoppedText))
                 (withWorker (mkWorker false (launched (worker s))) s))).
  { unfold postStop, isJobMonitorRunning, stopMonitoringJobs.
    unfold mbind at 1, eff_bind at 1, gets. rewrite Hr. cbn [negb].
    unfold mbind, eff_bind, modify, mret, eff_ret. fold stoppedText.
    now rewrite broadcastLog_run. }
  assert (Es : step s Stop =
               exec (broadcastLog (VStr stoppedText))
                 (withWorker (mkWorker false (launched (worker s))) s)).
  { unfold Backend.step, exec at 1. cbn [Backend.handle]. unfold mbind, eff_bind.
    now rewrite E. }
  rewrite Es, E. split; [reflexivity|]. split; [apply worker_broadcastLog|].
  split.
  - unfold getStatus, isJobMonitorRunning, mbind, eff_bind, gets.
    now rewrite worker_broadcastLog.
  - intros c k Hc Hk Ht. now apply broadcastLog_subscriber.
Qed.

End Channel.

(** X11. The start route needs the environment entry LOCALAPPDATA: without
    it, a request that passes every check is not answered. Building the
    configuration throws a TypeError, before anything is published and
    before the worker is started, and the process is left as it was. *)
Theorem start_without_appdata_throws path_join ls ps s :
  isRunning (worker s) = false ->
  Exists linkAccepted ls -> Exists positionAccepted ps ->
  exists e,
    postStart None path_join (mkStartRequest (Some ls) (Some ps)) s = (Throw e, s)
    /\ errName e = lit "TypeError".
Proof.
  intros Hr Hl Hps. unfold postStart. cbn [links positions].
  unfold mbind at 1, eff_bind at 1, isJobMonitorRunning, gets. rewrite Hr.
  destruct (List.filter acceptsLink ls) as [|first rest] eqn:Ef.
  - apply filter_nil_Forall in Ef. apply Exists_exists in Hl as (l & Hin & Hl).
    rewrite Forall_forall in Ef. apply Ef in Hin.
    apply acceptsLink_false in Hin. contradiction.
  - destruct (List.filter nonEmpty (List.map trim ps)) as [|p0 pt] eqn:Ep;
      [now apply Exists_filter_positions in Hps|].
    cbn [length Nat.eqb]. unfold userDataDir. eexists. split; reflexivity.
Qed.

(** *** The channel on two subscribers *)

Lemma twoSubscribers_NoDup : NoDup (clients twoSubscribers).
Proof. apply (bool_decide_unpack _). reflexivity. Defined.

Lemma publications_arrive_in_order_witness :
  NoDup (clients twoSubscribers)
  /\ heap (run None joinBackslash
             (List.map Publish [VStr (lit "job found"); VStr (lit "applied")])
             twoSubscribers) !! 1%nat =
       Some (mkSocket OPEN (Some true) None
               [LogFrame (lit "job found"); LogFrame (lit "applied")] 0).
Proof.
  split; [exact twoSubscribers_NoDup|].
  exact (publications_arrive_in_order None joinBackslash
           [VStr (lit "job found"); VStr (lit "applied")]
           twoSubscribers 1%nat twoSubscribers_NoDup).
Defined.

Lemma closed_subscriber_gets_nothing_witness :
  (NoDup (clients twoSubscribers)
   /\ Forall publication [Publish (VStr (lit "job found")); ConsoleLog [VStr (lit "applied")]; Stop])
  /\ heap (run None joinBackslash
             [Publish (VStr (lit "job found")); ConsoleLog [VStr (lit "applied")]; Stop]
             (step None joinBackslash twoSubscribers (Close 0%nat 1001 (VStr []))))
        !! 0%nat
      = heap (step None joinBackslash twoSubscribers (Close 0%nat 1001 (VStr []))) !! 0%nat
  /\ 0%nat ∉ clients
        (run None joinBackslash
           [Publish (VStr (lit "job found")); ConsoleLog [VStr (lit "applied")]; Stop]
           (step None joinBackslash twoSubscribers (Close 0%nat 1001 (VStr [])))).
Proof.
  assert (Hes : Forall publication
                  [Publish (VStr (lit "job found")); ConsoleLog [VStr (lit "applied")]; Stop])
    by (repeat constructor).
  split; [split; [exact twoSubscribers_NoDup | exact Hes]|].
  exact (closed_subscriber_gets_nothing None joinBackslash twoSubscribers 0%nat 1001
           (VStr []) _ twoSubscribers_NoDup Hes).
Defined.

Lemma heartbeat_answered_on_its_socket_witness :
  heap (step None joinBackslash twoSubscribers (FromClient 0%nat heartbeatMessage))
    = <[0%nat := pushFrame HeartbeatResponse (openSocket None)]> (heap twoSubscribers)
  /\ heap (step None joinBackslash twoSubscribers (FromClient 0%nat (Parsed None)))
      = heap twoSubscribers.
Proof.
  split.
  - exact (proj1 (proj2 (proj2 (heartbeat_answered_on_its_socket None joinBackslash
                                  0%nat heartbeatMessage twoSubscribers)))
             (openSocket None) eq_refl eq_refl eq_refl).
  - apply (proj2 (proj2 (proj2 (heartbeat_answered_on_its_socket None joinBackslash
                                  0%nat (Parsed None) twoSubscribers)))).
    intros E. discriminate E.
Defined.

Lemma accepted_start_is_announced_witness :
  (Some appData = Some appData /\ isRunning (worker twoSubscribers) = false
   /\ firstSuch linkAccepted paddedLink [lit "https://careers.other.com/x"; paddedLink]
   /\ Exists positionAccepted [[]; paddedPosition]
   /\ NoDup (clients twoSubscribers) /\ 0%nat ∈ clients twoSubscribers
   /\ heap twoSubscribers !! 0%nat = Some (openSocket None)
   /\ takesFrames (openSocket None) = true)
  /\ heap (step (Some appData) joinBackslash twoSubscribers
             (Start (mkStartRequest (Some [lit "https://careers.other.com/x"; paddedLink])
                       (Some [[]; paddedPosition])))) !! 0%nat =
       Some (mkSocket OPEN (Some true) None
               [LogFrame (startingText paddedLink);
                LogFrame (lookingText [[]; paddedPosition])] 0).
Proof.
  assert (Hf : firstSuch linkAccepted paddedLink
                 [lit "https://careers.other.com/x"; paddedLink]).
  { exists [lit "https://careers.other.com/x"], []. split; [reflexivity|].
    split; [|reflexivity]. repeat constructor. intros E. discriminate E. }
  assert (Hp : Exists positionAccepted [[]; paddedPosition]).
  { right. left. intros E. discriminate E. }
  assert (Hin : 0%nat ∈ clients twoSubscribers)
    by (apply (bool_decide_unpack _); reflexivity).
  split; [repeat split; [exact Hf | exact Hp | exact twoSubscribers_NoDup | exact Hin]|].
  exact (accepted_start_is_announced (Some appData) joinBackslash _ _ paddedLink appData
           twoSubscribers 0%nat (openSocket None) eq_refl eq_refl Hf Hp
           twoSubscribers_NoDup Hin eq_refl eq_refl).
Defined.

Lemma twoWatching_NoDup : NoDup (clients twoWatching).
Proof. apply (bool_decide_unpack _). reflexivity. Defined.

Lemma stop_while_running_witness :
  (isRunning (worker twoWatching) = true /\ NoDup (clients twoWatching))
  /\ fst (postStop twoWatching) = Normal (mkResponse 200 (Message (lit "Script stopped")))
  /\ worker (step None joinBackslash twoWatching Stop) = mkWorker false [goodConfig]
  /\ fst (getStatus (step None joinBackslash twoWatching Stop))
      = Normal (mkResponse 200 (Status false))
  /\ heap (step None joinBackslash twoWatching Stop) !! 1%nat
      = Some (pushFrame (LogFrame stoppedText) (openSocket None)).
Proof.
  pose proof (stop_while_running None joinBackslash twoWatching eq_refl twoWatching_NoDup)
    as (H1 & H2 & H3 & H4).
  split; [split; [reflexivity | exact twoWatching_NoDup]|].
  split; [exact H1|]. split; [exact H2|]. split; [exact H3|].
  apply (H4 1%nat (openSocket None)); [|reflexivity..].
  apply (bool_decide_unpack _). reflexivity.
Defined.

Lemma start_without_appdata_throws_witness :
  (isRunning (worker initial) = false
   /\ Exists linkAccepted [lit "https://hiring.amazon/x"]
   /\ Exists positionAccepted [lit "Engineer"])
  /\ exists e,
      postStart None joinBackslash
        (mkStartRequest (Some [lit "https://hiring.amazon/x"]) (Some [lit "Engineer"]))
        initial = (Throw e, initial)
      /\ errName e = lit "TypeError".
Proof.
  assert (Hl : Exists linkAccepted [lit "https://hiring.amazon/x"])
    by (left; reflexivity).
  assert (Hp : Exists positionAccepted [lit "Engineer"])
    by (left; intros E; discriminate E).
  split; [repeat split; [exact Hl | exact Hp]|].
  exact (start_without_appdata_throws joinBackslash _ _ initial eq_refl Hl Hp).
Defined.

Example console_error_on_two_subscribers :
  stdout (step None joinBackslash twoSubscribers (ConsoleError [VStr (lit "boom")]))
    = [[VStr (lit "ERROR: boom")]]
  /\ stderr (step None joinBackslash twoSubscribers (ConsoleError [VStr (lit "boom")]))
      = [[VStr (lit "boom")]].
Proof. vm_compute. split; reflexivity. Qed.

End ChannelProofs.

(** ** What the input checks of the start route accept *)

Module ValidationProofs.

Import Backend BackendNotions TextNotions JsFacts BackendProofs.

Lemma trimStart_split s :
  exists w, s = w ++ trimStart s /\ Forall blank w.
Proof.
  induction s as [|c t (w & E & Hw)]; [now exists []|].
  cbn. destruct (isWhiteSpace c) eqn:Ec.
  - exists (c :: w). split; [now rewrite E at 1 | now constructor].
  - now exists [].
Qed.

Lemma trimStart_head s c t : trimStart s = c :: t -> isWhiteSpace c = false.
Proof.
  induction s as [|d u IH]; [discriminate|]. cbn.
  destruct (isWhiteSpace d) eqn:Ed; [exact IH|]. now intros [= <- _].
Qed.

Lemma trimStart_blank w s : Forall blank w -> trimStart (w ++ s) = trimStart s.
Proof.
  induction 1 as [|c w Hc _ IH]; [reflexivity|]. cbn. now rewrite Hc.
Qed.

Lemma trimStart_nil s : trimStart s = [] <-> Forall blank s.
Proof.
  induction s as [|c t IH]; [now split|]. cbn.
  destruct (isWhiteSpace c) eqn:Ec; split.
  - intros H. constructor; [exact Ec | now apply IH].
  - intros H. inversion H. now apply IH.
  - discriminate.
  - intros H. inversion H as [|? ? Hc]. unfold blank in Hc. congruence.
Qed.

Lemma trimStart_app u c v :
  isWhiteSpace c = false -> trimStart (u ++ c :: v) = trimStart u ++ c :: v.
Proof.
  intros Hc. induction u as [|d u IH]; cbn; [now rewrite Hc|].
  now destruct (isWhiteSpace d).
Qed.


Lemma trimEnd_app p c r :
  isWhiteSpace c = false -> trimEnd (p ++ c :: r) = p ++ c :: trimEnd r.
Proof.
  intros Hc. unfold trimEnd.
  rewrite rev_app_distr. cbn [rev]. rewrite <- app_assoc. cbn [app].
  rewrite trimStart_app by exact Hc.
  rewrite rev_app_distr. cbn [rev]. rewrite rev_involutive, <- app_assoc.
  reflexivity.
Qed.

Lemma trimEnd_split s :
  exists w, s = trimEnd s ++ w /\ Forall blank w.
Proof.
  destruct (trimStart_split (rev s)) as (w & E & Hw).
  exists (rev w). split.
  - unfold trimEnd. rewrite <- rev_app_distr, <- E. now rewrite rev_involutive.
  - now apply List.Forall_rev.
Qed.



Lemma trim_cases s :
  (trimStart s = [] /\ trim s = [])
  \/ exists c t, trimStart s = c :: t /\ isWhiteSpace c = false
                 /\ trim s = c :: trimEnd t.
Proof.
  unfold trim. destruct (trimStart s) as [|c t] eqn:E; [now left|].
  right. exists c, t. pose proof (trimStart_head _ _ _ E) as Hc.
  repeat split; auto. exact (trimEnd_app [] c t Hc).
Qed.


Lemma trim_nil s : trim s = [] <-> Forall blank s.
Proof.
  rewrite <- trimStart_nil.
  destruct (trim_cases s) as [[E ->]|(c & t & E & _ & ->)]; rewrite E;
    split; (reflexivity || discriminate).
Qed.

(** The prefix begins and ends with a code unit that is not white space. *)
Lemma prefix_ends :
  HIRING_PREFIX = N_of_ascii "h" :: List.tl HIRING_PREFIX
  /\ HIRING_PREFIX = lit "https://hiring.amazo" ++ N_of_ascii "n" :: [].
Proof. split; reflexivity. Qed.

Lemma trim_prefixed rest :
  trim (HIRING_PREFIX ++ rest) = HIRING_PREFIX ++ trimEnd rest.
Proof.
  unfold trim.
  assert (E : trimStart (HIRING_PREFIX ++ rest) = HIRING_PREFIX ++ rest)
    by reflexivity.
  rewrite E. destruct prefix_ends as [_ ->].
  rewrite <- !app_assoc. cbn [app]. now apply trimEnd_app.
Qed.

(** X12. A link passes the check of the start route exactly when it
    consists of white space, then the prefix, then anything at all: what
    follows the prefix, the rest of the host name included, is not looked
    at. *)
Theorem link_accepted_iff_blank_then_prefix (link : jsstring) :
  linkAccepted link <->
  exists w rest, Forall blank w /\ link = w ++ HIRING_PREFIX ++ rest.
Proof.
  unfold linkAccepted. fold HIRING_PREFIX. split.
  - intros H. apply startsWith_inv in H as [r Hr].
    destruct (trimStart_split link) as (w & E & Hw).
    destruct (trimEnd_split (trimStart link)) as (w2 & E2 & _).
    fold (trim link) in E2. rewrite Hr in E2.
    exists w, (r ++ w2). split; [exact Hw|].
    rewrite E at 1. rewrite E2 at 1. now rewrite <- app_assoc.
  - intros (w & rest & Hw & ->).
    unfold trim. rewrite trimStart_blank by exact Hw.
    fold (trim (HIRING_PREFIX ++ rest)). rewrite trim_prefixed.
    apply startsWith_app.
Qed.

(** X13. A position is kept by the start route exactly when one of its
    code units is not white space. *)
Theorem position_accepted_iff_not_blank (pos : jsstring) :
  positionAccepted pos <-> Exists (fun c => isWhiteSpace c = false) pos.
Proof.
  unfold positionAccepted. rewrite trim_nil. split.
  - intros H. apply not_Forall_Exists in H; [|intros c; unfold blank; apply _].
    eapply Exists_impl; [exact H|]. intros c Hc. unfold blank in Hc. cbn in Hc.
    now destruct (isWhiteSpace c).
  - intros H Hall. apply Exists_exists in H as (c & Hin & Hc).
    rewrite Forall_forall in Hall. apply Hall in Hin. unfold blank in Hin.
    congruence.
Qed.


Lemma link_accepted_iff_blank_then_prefix_witness :
  linkAccepted (lit "  https://hiring.amazon.example.org/jobs")
  /\ ~ linkAccepted (lit "see https://hiring.amazon.com/jobs").
Proof.
  split.
  - apply (proj2 (link_accepted_iff_blank_then_prefix
                    (lit "  https://hiring.amazon.example.org/jobs"))).
    exists (lit "  "), (lit ".example.org/jobs").
    split; [repeat constructor | reflexivity].
  - intros H. discriminate H.
Defined.

Lemma position_accepted_iff_not_blank_witness :
  positionAccepted paddedPosition /\ ~ positionAccepted (lit "   ").
Proof.
  split.
  - apply (proj2 (position_accepted_iff_not_blank paddedPosition)).
    right. left. reflexivity.
  - intros H. now apply H.
Defined.

End ValidationProofs.

(** ** Further properties of the client session *)

Module SessionProofs.

Import Client ClientNotions SessionNotions EffFacts ClientProofs.

Lemma live_CLOSED : live CLOSED = false.
Proof. reflexivity. Qed.

Lemma closedCurrent_dead s w state :
  wsCurrent s = Some w -> closedCurrent s !! w = Some state -> live state = false.
Proof.
  intros Hw. unfold closedCurrent. rewrite Hw.
  destruct (sockets s !! w) as [st|] eqn:E; cbn [default from_option id].
  - fold (live st). destruct (live st) eqn:El.
    + rewrite lookup_alter_eq, E. now intros [= <-].
    + rewrite E. now intros [= <-].
  - change ((CLOSED =? OPEN) || (CLOSED =? CONNECTING)) with false.
    cbv iota. rewrite E. discriminate.
Qed.

Section Session.

Variable toLocaleTimeString : nat -> jsstring.
Variable window : gmap string GlobalValue.

Abbreviation connectWebSocket := (connectWebSocket toLocaleTimeString).
Abbreviation handleCheckConnection := (handleCheckConnection toLocaleTimeString).
Abbreviation onclose := (onclose toLocaleTimeString window).
Abbreviation onopen := (onopen toLocaleTimeString).
Abbreviation handle := (handle toLocaleTimeString window).
Abbreviation step := (step toLocaleTimeString window).
Abbreviation run := (run toLocaleTimeString window).

(** *** One live socket *)

Lemma lone_frame s s' :
  sockets s' = sockets s -> wsCurrent s' = wsCurrent s -> lone s -> lone s'.
Proof. unfold lone. now intros -> ->. Qed.

Lemma lone_connectWebSocket failure s :
  lone s -> lone (exec (connectWebSocket failure) s).
Proof.
  intros Hl.
  destruct (Nat.le_gt_cases MAX_RETRIES (retryCount s)) as [H|H].
  - destruct (connectWebSocket_ceiling toLocaleTimeString failure s H)
      as (_ & Hs & Hw & _).
    now apply (lone_frame s).
  - destruct failure as [e|].
    + destruct (connectWebSocket_refused toLocaleTimeString e s H)
        as (_ & _ & _ & _ & _ & Hw & _ & Hs).
      intros w state. rewrite Hw, Hs. intros Hne.
      rewrite closedCurrent_other by exact Hne. now apply Hl.
    + destruct (connectWebSocket_attempt toLocaleTimeString s H)
        as (_ & _ & _ & _ & Hw & _ & Hs & _).
      intros w state. rewrite Hw, Hs. intros Hne.
      rewrite lookup_insert_ne by congruence.
      destruct (decide (wsCurrent s = Some w)) as [Hc|Hc].
      * now apply closedCurrent_dead.
      * rewrite closedCurrent_other by exact Hc. now apply Hl.
Qed.

Lemma onclose_sockets code s :
  sockets (exec (onclose code) s) = sockets s
  /\ wsCurrent (exec (onclose code) s) = wsCurrent s.
Proof.
  destruct (onclose_frame toLocaleTimeString window code s) as (_ & Hw & Hs & _).
  now split.
Qed.

Lemma lone_step e s : lone s -> lone (step s e).
Proof.
  intros Hl. destruct e.
  - now apply lone_connectWebSocket.
  - unfold Client.step. cbn [Client.handle].
    rewrite (handleCheckConnection_exec toLocaleTimeString).
    apply (lone_frame (exec (connectWebSocket failure) (prepared toLocaleTimeString s)));
      [reflexivity..|].
    apply lone_connectWebSocket. now apply (lone_frame s).
  - rewrite (step_timeout toLocaleTimeString window).
    destruct (timeouts s !! id); [|exact Hl].
    apply lone_connectWebSocket. now apply (lone_frame s).
  - destruct (idle_step toLocaleTimeString window (IntervalFires id) s I)
      as (_ & Hw & _ & Hs & _).
    now apply (lone_frame s).
  - destruct (idle_step toLocaleTimeString window StatusCheckDue s I)
      as (_ & Hw & _ & Hs & _).
    now apply (lone_frame s).
  - rewrite (step_opens toLocaleTimeString window).
    destruct (default CLOSED (sockets s !! w) =? CONNECTING) eqn:E; [|exact Hl].
    apply Z.eqb_eq in E.
    destruct (onopen_exec toLocaleTimeString
                (with_sockets (<[w := OPEN]> (sockets s)) s))
      as (_ & _ & _ & Hs & Hw & _).
    intros w' state. rewrite Hw, Hs. session_simpl. intros Hne.
    destruct (decide (w' = w)) as [->|Hne'].
    + destruct (sockets s !! w) as [st|] eqn:Est; [|discriminate E].
      cbn in E. subst st. now specialize (Hl w CONNECTING Hne Est).
    + rewrite lookup_insert_ne by congruence. now apply Hl.
  - destruct (idle_step toLocaleTimeString window (SocketMessage m) s I)
      as (_ & Hw & _ & Hs & _).
    now apply (lone_frame s).
  - destruct (idle_step toLocaleTimeString window (SocketError error) s I)
      as (_ & Hw & _ & Hs & _).
    now apply (lone_frame s).
  - rewrite (step_closes toLocaleTimeString window).
    destruct (default CLOSED (sockets s !! w) =? CLOSED); [exact Hl|].
    destruct (onclose_sockets code (with_sockets (<[w := CLOSED]> (sockets s)) s))
      as [Hs Hw].
    intros w' state. rewrite Hw, Hs. session_simpl. intros Hne.
    destruct (decide (w' = w)) as [->|Hne'].
    + rewrite lookup_insert_eq. now intros [= <-].
    + rewrite lookup_insert_ne by congruence. now apply Hl.
Qed.

(** X15. The session never holds two live connections: whatever happens
    from the mount on, every socket but the current one is closing or
    closed, since [connectWebSocket] closes the current socket before it
    replaces it. This holds whether or not the close handler throws. *)
Theorem one_live_socket es : lone (run es initial).
Proof.
  assert (H : forall s, lone s -> lone (run es s)).
  { induction es as [|e es IH]; intros s Hs; [exact Hs|].
    change (run (e :: es) s) with (run es (step s e)).
    apply IH. now apply lone_step. }
  apply H. intros w state _ Hs. unfold initial in Hs. cbn [sockets] in Hs.
  rewrite lookup_empty in Hs. discriminate.
Qed.

(** *** The constructor refuses *)

Lemma connectWebSocket_refused_view e s :
  (retryCount s < MAX_RETRIES)%nat ->
  let s' := exec (connectWebSocket (Some e)) s in
  statusMessage s' = lit "Failed to create WebSocket connection"
  /\ isConnected s' = isConnected s.
Proof.
  intros H. apply Nat.leb_gt in H.
  session_unfold.
  destruct (truthyHandle (retryTimeoutRef s)); session_simpl; rewrite H;
    (destruct (wsCurrent s) as [w|] eqn:Ew; session_simpl; rewrite ?Ew;
     [destruct ((default CLOSED (sockets s !! w) =? OPEN)
                || (default CLOSED (sockets s !! w) =? CONNECTING)) eqn:Ec;
      session_simpl; rewrite ?Ec; session_simpl|];
     repeat split; eauto).
Qed.

(** X16. An attempt that the WebSocket constructor refuses, below the
    ceiling, returns, sets the status message, is counted, and is
    followed by one retry: the timeout with the next handle is scheduled
    with the delay min(1000 * 2^n, 30000) for the counter n the attempt
    found, between one and thirty seconds, and [retryTimeoutRef] holds
    its handle. The timeouts pending are then this one and those left
    once the timeout [retryTimeoutRef] held before was cleared. *)
Theorem refused_attempt_backs_off e s :
  (retryCount s < MAX_RETRIES)%nat ->
  let s' := exec (connectWebSocket (Some e)) s in
  let delay := Z.min (1000 * 2 ^ Z.of_nat (retryCount s)) 30000 in
  returns (connectWebSocket (Some e)) s
  /\ retryCount s' = S (retryCount s)
  /\ timeouts s' !! nextHandle s = Some delay
  /\ timeouts s' = <[nextHandle s := delay]> (timeouts (cleared s))
  /\ 1000 <= delay <= 30000
  /\ retryTimeoutRef s' = Some (nextHandle s)
  /\ statusMessage s' = lit "Failed to create WebSocket connection".
Proof.
  intros H s' delay.
  destruct (connectWebSocket_refused toLocaleTimeString e s H)
    as (Hr & Hc & Ht & Hf & _).
  destruct (connectWebSocket_refused_view e s H) as (Hm & _).
  split; [exact Hr|]. split; [exact Hc|].
  split; [subst s'; rewrite Ht; apply lookup_insert_eq|].
  split; [exact Ht|].
  split; [|split; [exact Hf | exact Hm]].
  subst delay. assert (1 <= 2 ^ Z.of_nat (retryCount s))
    by (apply Z.pow_le_mono_r with (b := 0); lia). lia.
Qed.

(** *** The heartbeat *)

Lemma heartbeat_step id s :
  is_Some (intervals s !! id) ->
  step s (IntervalFires id) =
    if currentOpen s then s
    else with_intervals (delete id (intervals s))
           (with_timeouts (delete id (timeouts s)) s).
Proof.
  intros [period Hp]. unfold currentOpen, Client.step, exec, Client.handle,
    heartbeat, readyStateOf, clearTimer, mbind, eff_bind, gets, modify, mret, eff_ret.
  cbn beta. rewrite Hp. destruct (wsCurrent s) as [w|]; [|reflexivity].
  now destruct (default CLOSED (sockets s !! w) =? OPEN).
Qed.

Lemma heartbeat_idle id s :
  intervals s !! id = None -> step s (IntervalFires id) = s.
Proof.
  intros Hp. unfold Client.step, exec, Client.handle, mbind, eff_bind, gets.
  cbn beta. now rewrite Hp.
Qed.

Lemma handlesApart_frame s s' :
  intervals s' ⊆ intervals s -> (nextHandle s <= nextHandle s')%nat ->
  retryTimeoutRef s' = retryTimeoutRef s -> handlesApart s -> handlesApart s'.
Proof.
  intros Hsub Hn Hr [Hi Ht]. split.
  - intros id [p Hp]. pose proof (lookup_weaken _ _ _ _ Hp Hsub) as Hp'.
    specialize (Hi id (ex_intro _ p Hp')). lia.
  - intros r Hr'. rewrite Hr in Hr'. destruct (Ht r Hr') as [Hlt Hnone].
    split; [lia|]. destruct (intervals s' !! r) as [p|] eqn:E; [|reflexivity].
    pose proof (lookup_weaken _ _ _ _ E Hsub). congruence.
Qed.

Lemma intervals_cleared s : handlesApart s -> intervals (cleared s) = intervals s.
Proof.
  intros [_ Ht]. unfold cleared.
  destruct (retryTimeoutRef s) as [r|] eqn:Er; cbn [truthyHandle]; [|reflexivity].
  destruct (negb (Nat.eqb r 0)); [|reflexivity]. session_simpl.
  cbn [default from_option id]. apply delete_id. now apply Ht.
Qed.

Lemma connectWebSocket_intervals failure s :
  intervals (exec (connectWebSocket failure) s) = intervals (cleared s).
Proof.
  destruct (Nat.le_gt_cases MAX_RETRIES (retryCount s)) as [H|H].
  - unfold exec. now rewrite (connectWebSocket_gave_up toLocaleTimeString failure s H).
  - apply Nat.leb_gt in H. unfold cleared. session_unfold.
    destruct failure as [e|];
      (destruct (truthyHandle (retryTimeoutRef s)); session_simpl; rewrite H;
       (destruct (wsCurrent s) as [w|] eqn:Ew; session_simpl; rewrite ?Ew;
        [destruct ((default CLOSED (sockets s !! w) =? OPEN)
                   || (default CLOSED (sockets s !! w) =? CONNECTING)) eqn:Ec;
         session_simpl; rewrite ?Ec; session_simpl|];
        reflexivity)).
Qed.

Lemma handlesApart_connectWebSocket failure s :
  handlesApart s ->
  handlesApart (exec (connectWebSocket failure) s)
  /\ intervals (exec (connectWebSocket failure) s) = intervals s.
Proof.
  intros Ha. pose proof (intervals_cleared s Ha) as Hc.
  pose proof (connectWebSocket_intervals failure s) as Hi. rewrite Hc in Hi.
  split; [|exact Hi].
  destruct (Nat.le_gt_cases MAX_RETRIES (retryCount s)) as [H|H].
  - destruct (connectWebSocket_ceiling toLocaleTimeString failure s H)
      as (_ & _ & _ & _ & Hn & _ & Hr & _).
    apply (handlesApart_frame s); [now rewrite Hi | lia | exact Hr | exact Ha].
  - destruct failure as [e|].
    + destruct (connectWebSocket_refused toLocaleTimeString e s H)
        as (_ & _ & _ & Hr & Hn & _).
      destruct Ha as [Hids Hrs]. split.
      * intros id Hid. rewrite Hi in Hid. rewrite Hn. specialize (Hids id Hid). lia.
      * intros r. rewrite Hr, Hn, Hi. intros [= <-]. split; [lia|].
        destruct (intervals s !! nextHandle s) as [p|] eqn:E; [|reflexivity].
        specialize (Hids _ (ex_intro _ p E)). lia.
    + destruct (connectWebSocket_attempt toLocaleTimeString s H)
        as (_ & _ & _ & Hr & _ & _ & _ & _ & _ & _ & _ & _ & Hn).
      apply (handlesApart_frame s); [now rewrite Hi | lia | exact Hr | exact Ha].
Qed.

Lemma idle_intervals e s :
  match e with
  | StatusCheckDue | SocketMessage _ | SocketError _ => True
  | _ => False
  end ->
  intervals (step s e) = intervals s.
Proof.
  intros He. destruct e; try contradiction; unfold Client.step; cbn [Client.handle].
  - assert (Hk : keeps intervals (fetchStatus toLocaleTimeString))
      by (unfold fetchStatus, appendLog; repeat eff_step).
    apply Hk.
  - assert (Hk : keeps intervals (onmessage toLocaleTimeString m))
      by (unfold onmessage, appendLog, consoleCall; repeat eff_step).
    apply Hk.
  - assert (Hk : keeps intervals (onerror toLocaleTimeString error))
      by (unfold onerror, appendLog, consoleCall; repeat eff_step).
    apply Hk.
Qed.

Lemma handlesApart_step e s :
  window !! "heartbeatInterval" = None -> handlesApart s ->
  handlesApart (step s e)
  /\ forall id period,
      e <> IntervalFires id -> intervals s !! id = Some period ->
      intervals (step s e) !! id = Some period.
Proof.
  intros Hu Ha. destruct e.
  - destruct (handlesApart_connectWebSocket failure s Ha) as [Ha' Hi].
    split; [exact Ha'|]. intros id period _ Hp.
    unfold Client.step. cbn [Client.handle]. unfold mount. now rewrite Hi.
  - unfold Client.step. cbn [Client.handle].
    rewrite (handleCheckConnection_exec toLocaleTimeString).
    assert (Hp : handlesApart (prepared toLocaleTimeString s))
      by (apply (handlesApart_frame s); [reflexivity | reflexivity | reflexivity | exact Ha]).
    destruct (handlesApart_connectWebSocket failure _ Hp) as [Ha' Hi].
    split.
    + apply (handlesApart_frame (exec (connectWebSocket failure)
                                   (prepared toLocaleTimeString s)));
        [reflexivity | reflexivity | reflexivity | exact Ha'].
    + intros id period _ Hid.
      change (intervals (fetched toLocaleTimeString
                           (exec (connectWebSocket failure) (prepared toLocaleTimeString s))))
        with (intervals (exec (connectWebSocket failure) (prepared toLocaleTimeString s))).
      now rewrite Hi.
  - rewrite (step_timeout toLocaleTimeString window).
    destruct (timeouts s !! id) as [d|]; [|now split].
    assert (Hp : handlesApart (with_timeouts (delete id (timeouts s)) s))
      by (apply (handlesApart_frame s); [reflexivity | reflexivity | reflexivity | exact Ha]).
    destruct (handlesApart_connectWebSocket failure _ Hp) as [Ha' Hi].
    split; [exact Ha'|]. intros id0 period _ Hid. now rewrite Hi.
  - destruct (intervals s !! id) as [p|] eqn:Ep.
    + rewrite (heartbeat_step id s (ex_intro _ p Ep)).
      destruct (currentOpen s); [now split|]. split.
      * apply (handlesApart_frame s);
          [apply delete_subseteq | reflexivity | reflexivity | exact Ha].
      * intros id0 period Hne Hid. session_simpl.
        rewrite lookup_delete_ne by congruence. exact Hid.
    + rewrite (heartbeat_idle id s Ep). now split.
  - destruct (idle_step toLocaleTimeString window StatusCheckDue s I)
      as (_ & _ & _ & _ & Hr & Hn & _).
    pose proof (idle_intervals StatusCheckDue s I) as Hi.
    split; [|intros id period _ Hid; now rewrite Hi].
    apply (handlesApart_frame s); [now rewrite Hi | lia | exact Hr | exact Ha].
  - rewrite (step_opens toLocaleTimeString window).
    destruct (default CLOSED (sockets s !! w) =? CONNECTING); [|now split].
    set (s1 := with_sockets (<[w := OPEN]> (sockets s)) s).
    assert (Hi : intervals (exec onopen s1) = <[nextHandle s := 30000]> (intervals s))
      by reflexivity.
    assert (Hn : nextHandle (exec onopen s1) = S (nextHandle s)) by reflexivity.
    assert (Hr : retryTimeoutRef (exec onopen s1) = retryTimeoutRef s) by reflexivity.
    destruct Ha as [Hids Hrs].
    assert (Hfresh : intervals s !! nextHandle s = None).
    { destruct (intervals s !! nextHandle s) as [p|] eqn:E; [|reflexivity].
      specialize (Hids _ (ex_intro _ p E)). lia. }
    split; [split|].
    + intros id. rewrite Hi, Hn. intros [p Hp].
      destruct (decide (id = nextHandle s)) as [->|Hne]; [lia|].
      rewrite lookup_insert_ne in Hp by congruence.
      specialize (Hids id (ex_intro _ p Hp)). lia.
    + intros r. rewrite Hr, Hn, Hi. intros Hr'.
      destruct (Hrs r Hr') as [Hlt Hnone]. split; [lia|].
      rewrite lookup_insert_ne by lia. exact Hnone.
    + intros id period _ Hid. rewrite Hi.
      rewrite lookup_insert_ne; [exact Hid|]. intros <-. congruence.
  - destruct (idle_step toLocaleTimeString window (SocketMessage m) s I)
      as (_ & _ & _ & _ & Hr & Hn & _).
    pose proof (idle_intervals (SocketMessage m) s I) as Hi.
    split; [|intros id period _ Hid; now rewrite Hi].
    apply (handlesApart_frame s); [now rewrite Hi | lia | exact Hr | exact Ha].
  - destruct (idle_step toLocaleTimeString window (SocketError error) s I)
      as (_ & _ & _ & _ & Hr & Hn & _).
    pose proof (idle_intervals (SocketError error) s I) as Hi.
    split; [|intros id period _ Hid; now rewrite Hi].
    apply (handlesApart_frame s); [now rewrite Hi | lia | exact Hr | exact Ha].
  - rewrite (step_closes toLocaleTimeString window).
    destruct (default CLOSED (sockets s !! w) =? CLOSED); [now split|].
    unfold exec. rewrite (onclose_unbound toLocaleTimeString window code _ Hu).
    cbn [snd]. split; [|intros id period _ Hid; exact Hid].
    apply (handlesApart_frame s); [reflexivity | reflexivity | reflexivity | exact Ha].
Qed.

Lemma handlesApart_run es :
  window !! "heartbeatInterval" = None -> handlesApart (run es initial).
Proof.
  intros Hu.
  assert (H : forall s, handlesApart s -> handlesApart (run es s)).
  { induction es as [|e es IH]; intros s Hs; [exact Hs|].
    change (run (e :: es) s) with (run es (step s e)).
    apply IH. now apply handlesApart_step. }
  apply H. split.
  - intros id [p Hp]. unfold initial in Hp. cbn [intervals] in Hp.
    rewrite lookup_empty in Hp. discriminate.
  - intros r Hr. discriminate Hr.
Qed.

(** X17. In a page without a global of the name [heartbeatInterval],
    nothing but its own callback ever stops a heartbeat interval: a close,
    a reconnect, a retry or another interval leaves it running. Its own
    callback stops it only when the current socket is not open, whichever
    socket the interval was started for; so the intervals of the sockets
    that were replaced keep running beside the one of the current
    socket. *)
Theorem heartbeat_only_stops_itself es e id period :
  window !! "heartbeatInterval" = None ->
  let s := run es initial in
  intervals s !! id = Some period ->
  (e <> IntervalFires id -> intervals (step s e) !! id = Some period)
  /\ (e = IntervalFires id ->
      intervals (step s e) !! id = if currentOpen s then Some period else None).
Proof.
  intros Hu s Hp. split.
  - intros Hne.
    destruct (handlesApart_step e s Hu (handlesApart_run es Hu)) as [_ H].
    now apply H.
  - intros ->. rewrite (heartbeat_step id s (ex_intro _ period Hp)).
    destruct (currentOpen s); [exact Hp|]. session_simpl. apply lookup_delete_eq.
Qed.

(** *** Unmounting *)





(** *** Frames of the backend *)

Lemma receive_step f s :
  step s (receive f) =
    match shown f with
    | Some text =>
        with_clockReads (S (clockReads s))
          (with_logs (logs s ++ [mkLogEntry text (toLocaleTimeString (clockReads s))]) s)
    | None => s
    end.
Proof. destruct f as [[|c l]|]; reflexivity. Qed.

Lemma receive_run fs : forall s,
  List.map message (logs (run (List.map receive fs) s))
    = List.map message (logs s) ++ omap shown fs
  /\ console (run (List.map receive fs) s) = console s
  /\ retryCount (run (List.map receive fs) s) = retryCount s
  /\ sockets (run (List.map receive fs) s) = sockets s
  /\ isConnected (run (List.map receive fs) s) = isConnected s.
Proof.
  induction fs as [|f fs IH]; intros s.
  - cbn. now rewrite app_nil_r.
  - cbn [List.map].
    change (run (receive f :: List.map receive fs) s)
      with (run (List.map receive fs) (step s (receive f))).
    destruct (IH (step s (receive f))) as (Hl & Hc & Hr & Hs & Hi).
    rewrite Hl, Hc, Hr, Hs, Hi, receive_step. cbn [omap list_omap].
    destruct (shown f) as [text|]; session_simpl; [|now repeat split].
    rewrite List.map_app, <- app_assoc. now repeat split.
Qed.

(** X19. The frames of the backend that reach the message handler are
    logged in their order of arrival: each log frame with a text that is
    not empty adds one entry with that text, a log frame with the empty
    text and a heartbeat response add none, and handling them reports no
    error and leaves the connection state alone. *)
Theorem frames_logged_in_order fs s :
  let s' := run (List.map receive fs) s in
  List.map message (logs s') = List.map message (logs s) ++ omap shown fs
  /\ console s' = console s
  /\ retryCount s' = retryCount s
  /\ sockets s' = sockets s
  /\ isConnected s' = isConnected s.
Proof. apply receive_run. Qed.

End Session.

Lemma one_live_socket_witness :
  (wsCurrent (run clock browserGlobals
                [Mount None; SocketOpens 0; ManualReconnect None; SocketOpens 1] initial)
     <> Some 0%nat
   /\ sockets (run clock browserGlobals
                 [Mount None; SocketOpens 0; ManualReconnect None; SocketOpens 1] initial)
        !! 0%nat = Some CLOSING)
  /\ live CLOSING = false.
Proof.
  assert (Hw : wsCurrent (run clock browserGlobals
                            [Mount None; SocketOpens 0; ManualReconnect None; SocketOpens 1]
                            initial) <> Some 0%nat)
    by (vm_compute; intros E; discriminate E).
  assert (Hs : sockets (run clock browserGlobals
                          [Mount None; SocketOpens 0; ManualReconnect None; SocketOpens 1]
                          initial) !! 0%nat = Some CLOSING)
    by (vm_compute; reflexivity).
  split; [split; [exact Hw | exact Hs]|].
  exact (one_live_socket clock browserGlobals
           [Mount None; SocketOpens 0; ManualReconnect None; SocketOpens 1]
           0%nat CLOSING Hw Hs).
Defined.


Lemma refused_attempt_backs_off_witness :
  (retryCount thriceRefused < MAX_RETRIES)%nat
  /\ (retryCount thriceRefused = 3%nat /\ nextHandle thriceRefused = 4%nat
      /\ timeouts thriceRefused !! 3%nat = Some 4000)
  /\ retryCount (exec (connectWebSocket clock (Some refused)) thriceRefused)
     = S (retryCount thriceRefused)
  /\ timeouts (exec (connectWebSocket clock (Some refused)) thriceRefused)
       !! nextHandle thriceRefused
     = Some (Z.min (1000 * 2 ^ Z.of_nat (retryCount thriceRefused)) 30000)
  /\ (timeouts (exec (connectWebSocket clock (Some refused)) thriceRefused) !! 4%nat
      = Some 8000
      /\ timeouts (exec (connectWebSocket clock (Some refused)) thriceRefused) !! 3%nat
         = None)
  /\ retryTimeoutRef (exec (connectWebSocket clock (Some refused)) thriceRefused)
     = Some (nextHandle thriceRefused)
  /\ statusMessage (exec (connectWebSocket clock (Some refused)) thriceRefused)
     = lit "Failed to create WebSocket connection".
Proof.
  assert (H : (retryCount thriceRefused < MAX_RETRIES)%nat) by (vm_compute; lia).
  destruct (refused_attempt_backs_off clock refused thriceRefused H)
    as (_ & Hrc & Ht & _ & _ & Hr & Hm).
  split; [exact H|]. split; [vm_compute; auto|]. split; [exact Hrc|].
  split; [exact Ht|]. split; [vm_compute; auto|]. split; [exact Hr | exact Hm].
Defined.

Lemma heartbeat_only_stops_itself_witness :
  (browserGlobals !! "heartbeatInterval" = None
   /\ intervals (run clock browserGlobals
                   [Mount None; SocketOpens 0; ManualReconnect None; SocketOpens 1]
                   initial) !! 1%nat = Some 30000)
  /\ intervals (step clock browserGlobals
                  (run clock browserGlobals
                     [Mount None; SocketOpens 0; ManualReconnect None; SocketOpens 1]
                     initial)
                  (SocketCloses 1 1006)) !! 1%nat = Some 30000.
Proof.
  assert (Hu : browserGlobals !! "heartbeatInterval" = None)
    by (vm_compute; reflexivity).
  assert (Hp : intervals (run clock browserGlobals
                            [Mount None; SocketOpens 0; ManualReconnect None; SocketOpens 1]
                            initial) !! 1%nat = Some 30000)
    by (vm_compute; reflexivity).
  split; [split; [exact Hu | exact Hp]|].
  apply (proj1 (heartbeat_only_stops_itself clock browserGlobals
                  [Mount None; SocketOpens 0; ManualReconnect None; SocketOpens 1]
                  (SocketCloses 1 1006) 1%nat 30000 Hu Hp)).
  intros E. discriminate E.
Defined.

Example two_heartbeats_after_reconnect :
  intervals reconnected !! 1%nat = Some 30000
  /\ intervals reconnected !! 2%nat = Some 30000
  /\ currentOpen reconnected = true.
Proof. vm_compute. repeat split; reflexivity. Qed.

Example frames_logged_on_connected :
  List.map message
    (logs (run clock browserGlobals
             (List.map receive
                [Backend.LogFrame (lit "job found"); Backend.HeartbeatResponse;
                 Backend.LogFrame []; Backend.LogFrame (lit "applied")])
             initial))
  = [lit "job found"; lit "applied"].
Proof. vm_compute. reflexivity. Qed.

End SessionProofs.

(** ** Properties of the form and of the control requests *)

Module AppProofs.

Import Client App TextNotions AppNotions EffFacts.

Ltac view_simpl :=
  cbn [fst snd session jobLinks positions errors isRunning requests
       with_session with_jobLinks with_positions with_errors with_isRunning
       with_requests errors_links errors_positions].

(** *** Arrays *)

Lemma assign_end {A} (v : A) (a : sparse A) :
  assign (length a) v a = a ++ [Some v].
Proof.
  unfold assign. rewrite Nat.ltb_irrefl, Nat.sub_diag. reflexivity.
Qed.

Lemma filterIndexed_past {A} index (l : list A) : forall from,
  (index < from)%nat ->
  filterIndexed (fun _ i => negb (Nat.eqb i index)) from l = l.
Proof.
  induction l as [|x t IH]; intros from H; [reflexivity|]. cbn.
  destruct (Nat.eqb_spec from index) as [->|_]; [lia|]. cbn.
  now rewrite IH by lia.
Qed.

Lemma filterIndexed_lookup {A} index (l : list A) : forall from i,
  (from <= index)%nat ->
  filterIndexed (fun _ i => negb (Nat.eqb i index)) from l !! i
    = l !! (if (from + i <? index)%nat then i else S i).
Proof.
  induction l as [|x t IH]; intros from i H.
  - cbn. now destruct (from + i <? index)%nat.
  - cbn [filterIndexed]. destruct (Nat.eqb_spec from index) as [->|Hne]; cbn [negb].
    + rewrite filterIndexed_past by lia.
      destruct (Nat.ltb_spec (index + i) index); [lia|]. reflexivity.
    + destruct i as [|i].
      * rewrite Nat.add_0_r. destruct (Nat.ltb_spec from index); [reflexivity|lia].
      * cbn [lookup list_lookup]. rewrite IH by lia.
        replace (S from + i)%nat with (from + S i)%nat by lia.
        now destruct (from + S i <? index)%nat.
Qed.

Lemma filterIndexed_length {A} index (l : list A) : forall from,
  length (filterIndexed (fun _ i => negb (Nat.eqb i index)) from l)
    = if (from <=? index)%nat && (index <? from + length l)%nat
      then pred (length l) else length l.
Proof.
  induction l as [|x t IH]; intros from.
  - cbn [length]. now destruct ((from <=? index)%nat && (index <? from + 0)%nat).
  - cbn [filterIndexed length]. destruct (Nat.eqb_spec from index) as [->|Hne]; cbn [negb].
    + rewrite filterIndexed_past by lia.
      destruct (Nat.leb_spec index index); [|lia].
      destruct (Nat.ltb_spec index (index + S (length t))); [|lia]. reflexivity.
    + cbn [length]. rewrite IH.
      destruct (Nat.leb_spec from index), (Nat.leb_spec (S from) index),
        (Nat.ltb_spec index (from + S (length t))),
        (Nat.ltb_spec index (S from + length t)); cbn [andb]; lia.
Qed.

Lemma sparseFilterIndexed_dense {A} (p : A -> nat -> bool) (d : list A) : forall from,
  sparseFilterIndexed p from (List.map Some d)
    = List.map Some (filterIndexed p from d).
Proof.
  induction d as [|x t IH]; intros from; [reflexivity|]. cbn.
  rewrite IH. now destruct (p x from).
Qed.

(** *** validateInputs *)

Lemma checkLink_step n valid errs link :
  checkLink n (valid, errs) link (length errs) =
    (valid && isNil (linkMessage n link), errs ++ [Some (linkMessage n link)]).
Proof.
  unfold checkLink, linkMessage, nonBlank, Backend.acceptsLink, Backend.HIRING_PREFIX.
  rewrite !assign_end.
  destruct (trim link) as [|c l] eqn:Et.
  - destruct (1 <? n)%nat; cbn [isNil lit]; now rewrite ?andb_true_r, ?andb_false_r.
  - destruct (startsWith (c :: l) (lit "https://hiring.amazon")); cbn [negb isNil];
      now rewrite ?andb_true_r, ?andb_false_r.
Qed.

Lemma checkPosition_step n valid errs position :
  checkPosition n (valid, errs) position (length errs) =
    (valid && isNil (positionMessage n position),
     errs ++ [Some (positionMessage n position)]).
Proof.
  unfold checkPosition, positionMessage, nonBlank.
  rewrite !assign_end.
  destruct (trim position) as [|c l] eqn:Et.
  - destruct (1 <? n)%nat; cbn [isNil lit]; now rewrite ?andb_true_r, ?andb_false_r.
  - cbn [isNil]. now rewrite andb_true_r.
Qed.

Lemma forEachIndexed_checkLink n l : forall from valid errs,
  length errs = from ->
  forEachIndexed (checkLink n) from l (valid, errs) =
    (valid && forallb (fun link => isNil (linkMessage n link)) l,
     errs ++ List.map (fun link => Some (linkMessage n link)) l).
Proof.
  induction l as [|link t IH]; intros from valid errs Hlen.
  - cbn. now rewrite andb_true_r, app_nil_r.
  - cbn [forEachIndexed]. subst from. rewrite checkLink_step.
    rewrite IH by (rewrite length_app; cbn; lia).
    cbn [forallb List.map]. now rewrite <- app_assoc, andb_assoc.
Qed.

Lemma forEachIndexed_checkPosition n l : forall from valid errs,
  length errs = from ->
  forEachIndexed (checkPosition n) from l (valid, errs) =
    (valid && forallb (fun p => isNil (positionMessage n p)) l,
     errs ++ List.map (fun p => Some (positionMessage n p)) l).
Proof.
  induction l as [|p t IH]; intros from valid errs Hlen.
  - cbn. now rewrite andb_true_r, app_nil_r.
  - cbn [forEachIndexed]. subst from. rewrite checkPosition_step.
    rewrite IH by (rewrite length_app; cbn; lia).
    cbn [forallb List.map]. now rewrite <- app_assoc, andb_assoc.
Qed.

Lemma validateInputs_run v :
  validateInputs v = (Normal (verdict v), with_errors (messages v) v).
Proof.
  unfold validateInputs, verdict, messages, mbind, eff_bind, gets, modify, mret, eff_ret.
  rewrite (forEachIndexed_checkLink _ _ O true []) by reflexivity.
  rewrite (forEachIndexed_checkPosition _ _ O _ []) by reflexivity.
  reflexivity.
Qed.

Lemma silent_map {A} (f : A -> jsstring) (l : list A) :
  silent (List.map (fun x => Some (f x)) l) <-> forallb (fun x => isNil (f x)) l = true.
Proof.
  unfold silent. induction l as [|x t IH]; cbn; [now split|].
  rewrite andb_true_iff, <- IH. split.
  - intros H. inversion H as [|? ? Hx Ht]. injection Hx as ->. now split.
  - intros [Hx Ht]. constructor; [|exact Ht]. now destruct (f x).
Qed.

(** X20. [validateInputs] leaves one message for every field, in the
    order of the fields and without a hole: for a link, 'Job link cannot
    be empty' if it is blank and the only link field, 'Must be a valid
    Amazon hiring link' if it is not blank and the backend would not
    accept it, and the empty string otherwise; for a position, 'Position
    cannot be empty' if it is blank and the only position field. Nothing
    else of the component changes. *)
Theorem validateInputs_leaves_one_message_per_field v :
  exec validateInputs v = with_errors (messages v) v
  /\ length (errors_links (messages v)) = length (jobLinks v)
  /\ length (errors_positions (messages v)) = length (positions v).
Proof.
  unfold exec. rewrite validateInputs_run. split; [reflexivity|].
  unfold messages. cbn [errors_links errors_positions].
  now rewrite !length_map.
Qed.

(** X21. [validateInputs] never throws, and it answers true exactly when
    it leaves no message: when every link that is not blank is one the
    backend accepts, and a blank field of either kind is not the only
    field of its kind. *)
Theorem validateInputs_true_iff_no_message v :
  fst (validateInputs v) = Normal (verdict v)
  /\ (verdict v = true <->
       silent (errors_links (errors (exec validateInputs v)))
       /\ silent (errors_positions (errors (exec validateInputs v))))
  /\ (verdict v = true <->
       Forall (fun link =>
                 if nonBlank link then Backend.acceptsLink link = true
                 else (1 < length (jobLinks v))%nat) (jobLinks v)
       /\ Forall (fun p => nonBlank p = true \/ (1 < length (positions v))%nat)
            (positions v)).
Proof.
  unfold exec. rewrite validateInputs_run. cbn [fst snd errors with_errors].
  split; [reflexivity|]. unfold messages, verdict.
  cbn [errors_links errors_positions]. rewrite andb_true_iff. split.
  - now rewrite !silent_map.
  - rewrite !forallb_forall, !Forall_forall.
    split; intros [Hl Hp]; split; intros x Hin.
    + apply list_elem_of_In, Hl in Hin. unfold linkMessage in Hin.
      destruct (nonBlank x).
      * now destruct (Backend.acceptsLink x).
      * destruct (Nat.ltb_spec 1 (length (jobLinks v))); [assumption|discriminate].
    + apply list_elem_of_In, Hp in Hin. unfold positionMessage in Hin.
      destruct (nonBlank x); [now left|]. right.
      destruct (Nat.ltb_spec 1 (length (positions v))); [assumption|discriminate].
    + apply list_elem_of_In, Hl in Hin. unfold linkMessage.
      destruct (nonBlank x); [now rewrite Hin|].
      apply Nat.ltb_lt in Hin. now rewrite Hin.
    + apply list_elem_of_In, Hp in Hin. unfold positionMessage.
      destruct (nonBlank x); [reflexivity|].
      destruct Hin as [Hin|Hin]; [discriminate|].
      apply Nat.ltb_lt in Hin. now rewrite Hin.
Qed.

(** *** The input fields *)

Lemma removeLink_exec index v :
  exec (removeLink index) v =
    if (1 <? length (jobLinks v))%nat then
      with_errors
        (mkErrors
           (sparseFilterIndexed (fun _ i => negb (Nat.eqb i index)) 0
              (errors_links (errors v)))
           (errors_positions (errors v)))
        (with_jobLinks
           (filterIndexed (fun _ i => negb (Nat.eqb i index)) 0 (jobLinks v)) v)
    else v.
Proof.
  unfold exec, removeLink, mbind, eff_bind, gets, modify, mret, eff_ret.
  now destruct (1 <? length (jobLinks v))%nat.
Qed.

Lemma removePosition_exec index v :
  exec (removePosition index) v =
    if (1 <? length (positions v))%nat then
      with_errors
        (mkErrors
           (errors_links (errors v))
           (sparseFilterIndexed (fun _ i => negb (Nat.eqb i index)) 0
              (errors_positions (errors v))))
        (with_positions
           (filterIndexed (fun _ i => negb (Nat.eqb i index)) 0 (positions v)) v)
    else v.
Proof.
  unfold exec, removePosition, mbind, eff_bind, gets, modify, mret, eff_ret.
  now destruct (1 <? length (positions v))%nat.
Qed.

Lemma removed_length {A} index (l : list A) :
  (1 < length l)%nat ->
  (1 <= length (filterIndexed (fun _ i => negb (Nat.eqb i index)) 0 l))%nat
  /\ length (filterIndexed (fun _ i => negb (Nat.eqb i index)) 0 l)
     = if (index <? length l)%nat then pred (length l) else length l.
Proof.
  intros H. rewrite filterIndexed_length. cbn [Nat.leb andb Nat.add].
  destruct (index <? length l)%nat; split; (reflexivity || lia).
Qed.

(** X22. The remove buttons never take the last field away: with one
    field of the kind, [removeLink] and [removePosition] change nothing;
    with more, they take away the field at the index, one field at most,
    and leave the fields of the other kind alone. *)
Theorem remove_leaves_a_field index v :
  (1 <= length (jobLinks v))%nat -> (1 <= length (positions v))%nat ->
  let vl := exec (removeLink index) v in
  let vp := exec (removePosition index) v in
  (1 <= length (jobLinks vl))%nat /\ (1 <= length (positions vp))%nat
  /\ positions vl = positions v /\ jobLinks vp = jobLinks v
  /\ (length (jobLinks v) = 1%nat -> vl = v)
  /\ (length (positions v) = 1%nat -> vp = v)
  /\ ((1 < length (jobLinks v))%nat ->
      length (jobLinks vl)
        = if (index <? length (jobLinks v))%nat then pred (length (jobLinks v))
          else length (jobLinks v))
  /\ ((1 < length (positions v))%nat ->
      length (positions vp)
        = if (index <? length (positions v))%nat then pred (length (positions v))
          else length (positions v)).
Proof.
  intros Hl Hp vl vp. subst vl vp. rewrite removeLink_exec, removePosition_exec.
  destruct (Nat.ltb_spec 1 (length (jobLinks v))) as [Hl2|Hl1];
    destruct (Nat.ltb_spec 1 (length (positions v))) as [Hp2|Hp1]; view_simpl;
    repeat split; try reflexivity; try lia; intros;
    try (now apply removed_length); lia.
Qed.

(** X23. Removing a field keeps every message with its field: when the
    messages have no hole, [removeLink] and [removePosition] take the
    same index out of the fields and out of the messages, so that what
    is at an index afterwards was, in both arrays, at that index or, from
    the removed index on, at the next one. *)
Theorem remove_keeps_messages_attached index v dl dp :
  (1 < length (jobLinks v))%nat -> (1 < length (positions v))%nat ->
  errors_links (errors v) = List.map Some dl ->
  errors_positions (errors v) = List.map Some dp ->
  let vl := exec (removeLink index) v in
  let vp := exec (removePosition index) v in
  forall i,
    jobLinks vl !! i = jobLinks v !! skip index i
    /\ errors_links (errors vl) !! i = errors_links (errors v) !! skip index i
    /\ positions vp !! i = positions v !! skip index i
    /\ errors_positions (errors vp) !! i = errors_positions (errors v) !! skip index i.
Proof.
  intros Hl Hp El Ep vl vp i. subst vl vp.
  rewrite removeLink_exec, removePosition_exec.
  apply Nat.ltb_lt in Hl, Hp. rewrite Hl, Hp. view_simpl.
  rewrite El, Ep, !sparseFilterIndexed_dense.
  rewrite !list_lookup_fmap, !filterIndexed_lookup by lia.
  now repeat split.
Qed.

(** X24. Adding a link field and removing it again gives the fields
    back: after [addLink], [removeLink] on the index of the new field
    restores the link fields, and the whole component when the messages
    have no hole and are no more than the fields. The same holds of
    [addPosition] and [removePosition]. *)
Theorem add_then_remove_restores v dl dp :
  jobLinks v <> [] -> positions v <> [] ->
  errors_links (errors v) = List.map Some dl -> (length dl <= length (jobLinks v))%nat ->
  errors_positions (errors v) = List.map Some dp ->
  (length dp <= length (positions v))%nat ->
  exec (removeLink (length (jobLinks v))) (exec addLink v) = v
  /\ exec (removePosition (length (positions v))) (exec addPosition v) = v.
Proof.
  intros Hl Hp El Hdl Ep Hdp.
  assert (Hkeep : forall (A : Type) (l : list A) n,
             (length l <= n)%nat ->
             filterIndexed (fun _ i => negb (Nat.eqb i n)) 0 l = l).
  { intros A l n Hn. apply list_eq. intros i.
    rewrite filterIndexed_lookup by lia. cbn [Nat.add].
    destruct (Nat.ltb_spec i n); [reflexivity|].
    rewrite !lookup_ge_None_2 by lia. reflexivity. }
  assert (Hdrop : forall (l : list jsstring),
             filterIndexed (fun _ i => negb (Nat.eqb i (length l))) 0 (l ++ [[]]) = l).
  { intros l. apply list_eq. intros i.
    rewrite filterIndexed_lookup by lia. cbn [Nat.add].
    destruct (Nat.ltb_spec i (length l)).
    - now rewrite lookup_app_l by lia.
    - rewrite !lookup_ge_None_2; [reflexivity| |]; rewrite ?length_app; cbn; lia. }
  split.
  - rewrite removeLink_exec. unfold exec, addLink, modify. view_simpl.
    rewrite length_app. cbn [length].
    destruct (Nat.ltb_spec 1 (length (jobLinks v) + 1)) as [_|H];
      [|destruct (jobLinks v); [contradiction | cbn in H; lia]].
    rewrite Hdrop, El, sparseFilterIndexed_dense.
    rewrite (Hkeep _ dl _ Hdl), <- El.
    destruct v as [? ? ? [? ?] ? ?]. reflexivity.
  - rewrite removePosition_exec. unfold exec, addPosition, modify. view_simpl.
    rewrite length_app. cbn [length].
    destruct (Nat.ltb_spec 1 (length (positions v) + 1)) as [_|H];
      [|destruct (positions v); [contradiction | cbn in H; lia]].
    rewrite Hdrop, Ep, sparseFilterIndexed_dense.
    rewrite (Hkeep _ dp _ Hdp), <- Ep.
    destruct v as [? ? ? [? ?] ? ?]. reflexivity.
Qed.

(** *** startMonitoring *)

Lemma existsb_filter {A} (f : A -> bool) l :
  existsb f l = negb (length (List.filter f l) =? 0)%nat.
Proof.
  induction l as [|x t IH]; [reflexivity|]. cbn.
  destruct (f x); [reflexivity | exact IH].
Qed.

Lemma existsb_length {A} (f : A -> bool) l x :
  existsb f l = true -> In x l -> f x = false -> (1 < length l)%nat.
Proof.
  intros He Hin Hx. apply existsb_exists in He as (y & Hy & Hfy).
  destruct l as [|a [|b t]]; cbn in *; [contradiction| |lia].
  destruct Hin as [<-|[]], Hy as [<-|[]]. congruence.
Qed.

Lemma verdict_sendable v :
  verdict v && existsb nonBlank (jobLinks v) && existsb nonBlank (positions v)
    = sendable v.
Proof.
  unfold verdict, sendable.
  destruct (existsb nonBlank (jobLinks v)) eqn:El;
    [|now rewrite !andb_false_r].
  destruct (existsb nonBlank (positions v)) eqn:Ep;
    [|now rewrite !andb_false_r].
  rewrite !andb_true_r.
  assert (Hp : forallb (fun p => isNil (positionMessage (length (positions v)) p))
                 (positions v) = true).
  { apply forallb_forall. intros p Hin. unfold positionMessage.
    destruct (nonBlank p) eqn:Eb; [reflexivity|].
    pose proof (existsb_length _ _ _ Ep Hin Eb) as Hlt.
    apply Nat.ltb_lt in Hlt. now rewrite Hlt. }
  rewrite Hp, andb_true_r.
  assert (Hl : forall link, In link (jobLinks v) ->
             isNil (linkMessage (length (jobLinks v)) link)
               = negb (nonBlank link) || Backend.acceptsLink link).
  { intros link Hin. unfold linkMessage.
    destruct (nonBlank link) eqn:Eb; cbn [negb orb].
    - now destruct (Backend.acceptsLink link).
    - pose proof (existsb_length _ _ _ El Hin Eb) as Hlt.
      apply Nat.ltb_lt in Hlt. now rewrite Hlt. }
  revert Hl. generalize (length (jobLinks v)). clear El.
  induction (jobLinks v) as [|x t IH]; intros n Hl; [reflexivity|].
  cbn [forallb]. rewrite Hl by now left.
  rewrite (IH n); [reflexivity|]. intros link Hin. apply Hl. now right.
Qed.

Section Requests.

Variable toLocaleTimeString : nat -> jsstring.

Abbreviation startMonitoring := (startMonitoring toLocaleTimeString).
Abbreviation startAnswered := (startAnswered toLocaleTimeString).
Abbreviation stopMonitoring := (stopMonitoring toLocaleTimeString).
Abbreviation stopAnswered := (stopAnswered toLocaleTimeString).

Lemma keeps_inSession {A B} (f : View -> B) (m : Eff Session A) :
  (forall x v, f (with_session x v) = f v) -> keeps f (inSession m).
Proof.
  intros H v. unfold exec, inSession. destruct (m (session v)) as [c x].
  apply H.
Qed.

Lemma total_inSession {A} (m : Eff Session A) : total m -> total (inSession m).
Proof.
  intros H v. destruct (H (session v)) as [a Ha]. exists a.
  unfold inSession. destruct (m (session v)) as [c x]. exact Ha.
Qed.

Lemma startMonitoring_requests v :
  requests (exec startMonitoring v) =
    if sendable v
    then requests v ++ [PostStart (List.filter nonBlank (jobLinks v))
                          (List.filter nonBlank (positions v))]
    else requests v.
Proof.
  rewrite <- verdict_sendable, !existsb_filter.
  unfold exec, App.startMonitoring. unfold mbind at 1, eff_bind at 1.
  rewrite validateInputs_run. destruct (verdict v); cbn [negb andb]; [|reflexivity].
  unfold mbind at 1, eff_bind at 1, gets. unfold mbind at 1, eff_bind at 1.
  view_simpl.
  destruct (length (List.filter nonBlank (jobLinks v)) =? 0)%nat; cbn [negb andb];
    [reflexivity|].
  destruct (length (List.filter nonBlank (positions v)) =? 0)%nat; cbn [negb andb];
    reflexivity.
Qed.

Lemma start_fields v :
  jobLinks (exec startMonitoring v) = jobLinks v
  /\ positions (exec startMonitoring v) = positions v.
Proof.
  assert (Hk : keeps (fun v => (jobLinks v, positions v)) startMonitoring).
  { unfold App.startMonitoring, validateInputs, status, log, fetch.
    repeat (eff_step || (apply keeps_inSession; intros ? ?; reflexivity)
            || (destruct (forEachIndexed _ _ _ _) as [? ?])). }
  specialize (Hk v). injection Hk as -> ->. now split.
Qed.

(** X25. [startMonitoring] sends a start request exactly when every link
    that is not blank is one the backend accepts and one link and one
    position are not blank; the request carries the links and the
    positions that are not blank, in their order and as they were typed.
    Otherwise nothing is sent. In both cases the fields and the run state
    shown stay as they were. *)
Theorem start_request_sent_iff_sendable v :
  let v' := exec startMonitoring v in
  requests v' =
    (if sendable v
     then requests v ++ [PostStart (List.filter nonBlank (jobLinks v))
                           (List.filter nonBlank (positions v))]
     else requests v)
  /\ jobLinks v' = jobLinks v /\ positions v' = positions v
  /\ isRunning v' = isRunning v.
Proof.
  intros v'. subst v'. split; [apply startMonitoring_requests|].
  assert (Hk : keeps (fun v => (jobLinks v, positions v, isRunning v)) startMonitoring).
  { unfold App.startMonitoring, validateInputs, status, log, fetch.
    repeat (eff_step || (apply keeps_inSession; intros ? ?; reflexivity)
            || (destruct (forEachIndexed _ _ _ _) as [? ?])). }
  specialize (Hk v). injection Hk as -> -> ->. now repeat split.
Qed.

Lemma startMonitoring_errors v :
  errors (exec startMonitoring v) = messages v.
Proof.
  unfold exec, App.startMonitoring. unfold mbind at 1, eff_bind at 1.
  rewrite validateInputs_run.
  assert (Hk : forall k : Eff View unit,
             keeps errors k -> errors (snd (k (with_errors (messages v) v))) = messages v).
  { intros k Hk. exact (Hk (with_errors (messages v) v)). }
  destruct (verdict v); cbn [negb].
  - apply Hk. unfold status, log, fetch.
    repeat (eff_step || (apply keeps_inSession; intros ? ?; reflexivity)).
  - apply Hk. unfold status.
    repeat (eff_step || (apply keeps_inSession; intros ? ?; reflexivity)).
Qed.

Lemma covered_removed index errs fields :
  covered errs fields ->
  covered (sparseFilterIndexed (fun _ i => negb (Nat.eqb i index)) 0 errs)
    (filterIndexed (fun _ i => negb (Nat.eqb i index)) 0 fields).
Proof.
  intros (d & -> & Hd). exists (filterIndexed (fun _ i => negb (Nat.eqb i index)) 0 d).
  split; [apply sparseFilterIndexed_dense|].
  rewrite !filterIndexed_length. cbn [Nat.leb andb Nat.add].
  destruct (Nat.ltb_spec index (length d)), (Nat.ltb_spec index (length fields)); lia.
Qed.

Lemma covered_longer errs fields extra :
  covered errs fields -> covered errs (fields ++ extra).
Proof.
  intros (d & -> & Hd). exists d. split; [reflexivity|]. rewrite length_app. lia.
Qed.

Lemma wellFormed_click c v :
  wellFormed v -> wellFormed (exec (click toLocaleTimeString c) v).
Proof.
  intros (Hl & Hp & Hcl & Hcp). destruct c; cbn [click].
  - unfold exec, addLink, modify. cbn [snd]. repeat split; view_simpl; auto.
    + now destruct (jobLinks v).
    + now apply covered_longer.
  - rewrite removeLink_exec.
    destruct (Nat.ltb_spec 1 (length (jobLinks v))) as [H|H]; [|now repeat split].
    repeat split; view_simpl; auto.
    + destruct (removed_length index (jobLinks v) H) as [H1 _].
      intros E. rewrite E in H1. cbn in H1. lia.
    + now apply covered_removed.
  - unfold exec, addPosition, modify. cbn [snd]. repeat split; view_simpl; auto.
    + now destruct (positions v).
    + now apply covered_longer.
  - rewrite removePosition_exec.
    destruct (Nat.ltb_spec 1 (length (positions v))) as [H|H]; [|now repeat split].
    repeat split; view_simpl; auto.
    + destruct (removed_length index (positions v) H) as [H1 _].
      intros E. rewrite E in H1. cbn in H1. lia.
    + now apply covered_removed.
  - destruct (start_fields v) as (El & Ep). unfold wellFormed.
    rewrite startMonitoring_errors, El, Ep. unfold messages.
    cbn [errors_links errors_positions]. repeat split; auto.
    + eexists. split; [now rewrite <- List.map_map|]. now rewrite length_map.
    + eexists. split; [now rewrite <- List.map_map|]. now rewrite length_map.
Qed.

(** X26. The form stays well formed under the buttons: whatever is
    clicked, in any order, among the buttons that add and remove fields
    and the start button, there is a link field and a position field, and
    each array of messages has no hole and is no longer than the array of
    its fields, so that a message is never left without its field. *)
Theorem form_stays_well_formed cs v :
  wellFormed v -> wellFormed (clicks toLocaleTimeString cs v).
Proof.
  revert v. induction cs as [|c cs IH]; intros v Hv; [exact Hv|].
  cbn [clicks fold_left]. apply IH. now apply wellFormed_click.
Qed.

End Requests.

(** *** The form on examples *)

Example validateInputs_mistyped :
  validateInputs (with_errors (mkErrors [] []) mistyped) = (Normal false, mistyped).
Proof. vm_compute. reflexivity. Qed.

Example validateInputs_single_blank :
  validateInputs App.initial =
    (Normal false,
     with_errors (mkErrors [Some (lit "Job link cannot be empty")]
                    [Some (lit "Position cannot be empty")]) App.initial).
Proof. vm_compute. reflexivity. Qed.

Example startMonitoring_filled :
  requests (exec (startMonitoring ClientNotions.clock) filled) =
    [PostStart [lit "https://hiring.amazon.com/a"; lit " https://hiring.amazon.com/b"]
       [lit " Warehouse Associate "]].
Proof. vm_compute. reflexivity. Qed.

Lemma form_stays_well_formed_witness :
  wellFormed App.initial
  /\ wellFormed
       (clicks ClientNotions.clock
          [StartClick; AddLink; AddLink; RemoveLink 0; RemovePosition 0; StartClick]
          App.initial).
Proof.
  assert (H : wellFormed App.initial).
  { repeat split; try discriminate; exists []; split; (reflexivity || (cbn; lia)). }
  split; [exact H|].
  exact (form_stays_well_formed ClientNotions.clock
           [StartClick; AddLink; AddLink; RemoveLink 0; RemovePosition 0; StartClick]
           App.initial H).
Defined.

Lemma remove_leaves_a_field_witness :
  ((1 <= length (jobLinks filled))%nat /\ (1 <= length (positions filled))%nat)
  /\ (1 <= length (jobLinks (exec (removeLink 1) filled)))%nat
  /\ length (jobLinks (exec (removeLink 1) filled)) = 2%nat
  /\ ((1 <= length (jobLinks App.initial))%nat /\ (1 <= length (positions App.initial))%nat)
  /\ exec (removeLink 0) App.initial = App.initial.
Proof.
  assert (Hl : (1 <= length (jobLinks filled))%nat) by (vm_compute; lia).
  assert (Hp : (1 <= length (positions filled))%nat) by (vm_compute; lia).
  assert (Hl0 : (1 <= length (jobLinks App.initial))%nat) by (vm_compute; lia).
  assert (Hp0 : (1 <= length (positions App.initial))%nat) by (vm_compute; lia).
  pose proof (remove_leaves_a_field 1 filled Hl Hp)
    as (H1 & _ & _ & _ & _ & _ & H7 & _).
  pose proof (remove_leaves_a_field 0 App.initial Hl0 Hp0)
    as (_ & _ & _ & _ & H5 & _).
  split; [split; [exact Hl | exact Hp]|]. split; [exact H1|].
  split; [apply H7; vm_compute; lia|].
  split; [split; [exact Hl0 | exact Hp0]|]. apply H5. reflexivity.
Defined.

Lemma remove_keeps_messages_attached_witness :
  ((1 < length (jobLinks mistyped))%nat /\ (1 < length (positions mistyped))%nat
   /\ errors_links (errors mistyped)
      = List.map Some [[]; lit "Must be a valid Amazon hiring link"]
   /\ errors_positions (errors mistyped) = List.map Some [[]; []])
  /\ jobLinks (exec (removeLink 0) mistyped) !! 0%nat = jobLinks mistyped !! skip 0 0
  /\ errors_links (errors (exec (removeLink 0) mistyped)) !! 0%nat
     = errors_links (errors mistyped) !! skip 0 0
  /\ errors_links (errors mistyped) !! skip 0 0
     = Some (Some (lit "Must be a valid Amazon hiring link")).
Proof.
  assert (Hl : (1 < length (jobLinks mistyped))%nat) by (vm_compute; lia).
  assert (Hp : (1 < length (positions mistyped))%nat) by (vm_compute; lia).
  pose proof (remove_keeps_messages_attached 0 mistyped
                [[]; lit "Must be a valid Amazon hiring link"] [[]; []]
                Hl Hp eq_refl eq_refl O) as (H1 & H2 & _).
  split; [repeat split; [exact Hl | exact Hp]|].
  split; [exact H1|]. split; [exact H2 | reflexivity].
Defined.

Lemma add_then_remove_restores_witness :
  (jobLinks filled <> [] /\ positions filled <> []
   /\ errors_links (errors filled) = List.map Some []
   /\ (length ([] : list jsstring) <= length (jobLinks filled))%nat
   /\ errors_positions (errors filled) = List.map Some []
   /\ (length ([] : list jsstring) <= length (positions filled))%nat)
  /\ exec (removeLink (length (jobLinks filled))) (exec addLink filled) = filled
  /\ exec (removePosition (length (positions filled))) (exec addPosition filled) = filled.
Proof.
  assert (Hl : jobLinks filled <> []) by discriminate.
  assert (Hp : positions filled <> []) by discriminate.
  assert (Hdl : (length ([] : list jsstring) <= length (jobLinks filled))%nat)
    by (vm_compute; lia).
  assert (Hdp : (length ([] : list jsstring) <= length (positions filled))%nat)
    by (vm_compute; lia).
  split; [repeat split; assumption|].
  exact (add_then_remove_restores filled [] [] Hl Hp eq_refl Hdl eq_refl Hdp).
Defined.

End AppProofs.

(** ** The component and the backend together *)

Module WireProofs.

Import Backend BackendNotions TextNotions ChannelNotions AppNotions EffFacts
  BackendProofs ChannelProofs.

Lemma filter_all {A} (f : A -> bool) l :
  (forall x, In x l -> f x = true) -> List.filter f l = l.
Proof.
  induction l as [|x t IH]; intros H; [reflexivity|]. cbn.
  rewrite (H x) by now left. f_equal. apply IH. intros y Hy. apply H. now right.
Qed.

Lemma nonBlank_nonEmpty p : App.nonBlank p = nonEmpty (trim p).
Proof. unfold App.nonBlank, nonEmpty. now destruct (trim p). Qed.

(** What the links and positions of a sendable form are to the checks of
    the start route. *)
Lemma sendable_filters v :
  sendable v = true ->
  List.filter acceptsLink (List.filter App.nonBlank (App.jobLinks v))
    = List.filter App.nonBlank (App.jobLinks v)
  /\ List.filter App.nonBlank (App.jobLinks v) <> []
  /\ List.filter nonEmpty (List.map trim (List.filter App.nonBlank (App.positions v)))
     = List.map trim (List.filter App.nonBlank (App.positions v))
  /\ List.filter App.nonBlank (App.positions v) <> [].
Proof.
  unfold sendable. rewrite !andb_true_iff, !AppProofs.existsb_filter, !negb_true_iff.
  intros [[Hl El] Ep]. rewrite forallb_forall in Hl.
  apply Nat.eqb_neq in El, Ep. repeat split.
  - apply filter_all. intros l Hin. apply List.filter_In in Hin as [Hin Hb].
    specialize (Hl l Hin). rewrite Hb in Hl. exact Hl.
  - intros E. now rewrite E in El.
  - apply filter_all. intros t Hin. apply List.in_map_iff in Hin as (p & <- & Hin).
    apply List.filter_In in Hin as [_ Hb]. now rewrite <- nonBlank_nonEmpty.
  - intros E. now rewrite E in Ep.
Qed.

Lemma shown_sent (messages : list Value) :
  omap SessionNotions.shown (List.map (fun m => LogFrame (logText m)) messages)
    = List.filter (fun text => negb (isNil text)) (List.map logText messages).
Proof.
  induction messages as [|m ms IH]; [reflexivity|].
  cbn [List.map List.filter omap list_omap]. rewrite IH.
  now destruct (logText m).
Qed.

Section Exchange.

Variable LOCALAPPDATA : option jsstring.
Variable path_join : list jsstring -> jsstring.
Variable toLocaleTimeString : nat -> jsstring.
Variable window : gmap string Client.GlobalValue.

Abbreviation postStart := (postStart LOCALAPPDATA path_join).
Abbreviation startMonitoring := (App.startMonitoring toLocaleTimeString).
Abbreviation startAnswered := (App.startAnswered toLocaleTimeString).
Abbreviation stopMonitoring := (App.stopMonitoring toLocaleTimeString).
Abbreviation stopAnswered := (App.stopAnswered toLocaleTimeString).

(** X27. From [broadcastLog] to the log of the component: the messages
    published while a subscriber takes frames are handed to its
    transport in order, and a component that receives these frames shows
    the texts that are not empty, in the same order, and nothing for an
    empty text. *)
Theorem published_messages_reach_the_log (messages : list Value) srv c k session :
  NoDup (clients srv) -> c ∈ clients srv -> heap srv !! c = Some k ->
  takesFrames k = true ->
  let sent := List.map (fun m => LogFrame (logText m)) messages in
  (exists k',
     heap (run LOCALAPPDATA path_join (List.map Publish messages) srv) !! c = Some k'
     /\ outbox k' = outbox k ++ sent)
  /\ List.map Client.message
       (Client.logs
          (Client.run toLocaleTimeString window
             (List.map SessionNotions.receive sent) session))
     = List.map Client.message (Client.logs session)
       ++ List.filter (fun text => negb (isNil text)) (List.map logText messages).
Proof.
  intros Hnd Hc Hk Ht sent. split.
  - eexists. split;
      [exact (publish_run_lookup LOCALAPPDATA path_join messages srv c k Hnd Hc Hk Ht)|].
    reflexivity.
  - destruct (SessionProofs.receive_run toLocaleTimeString window sent session)
      as [-> _].
    subst sent. now rewrite shown_sent.
Qed.

(** X28. A start request of the component is one the backend accepts:
    when [startMonitoring] sends a request and the backend, with its
    environment entry defined, runs no worker, the route answers 200 and
    starts the worker with the first link that is not blank, as it was
    typed, and with all the positions that are not blank, trimmed; the
    component then shows the monitor as running. *)
Theorem start_click_starts_the_worker dir v srv :
  LOCALAPPDATA = Some dir -> sendable v = true -> isRunning (worker srv) = false ->
  let ls := List.filter App.nonBlank (App.jobLinks v) in
  let ps := List.filter App.nonBlank (App.positions v) in
  let v1 := exec startMonitoring v in
  exists first rest srv',
    ls = first :: rest
    /\ App.requests v1 = App.requests v ++ [App.PostStart ls ps]
    /\ postStart (Wire.startRequestOf ls ps) srv =
         (Normal (mkResponse 200
                    (Started (lit "Script started") (configSent path_join dir first ps))),
          srv')
    /\ worker srv' =
         mkWorker true (configSent path_join dir first ps :: launched (worker srv))
    /\ let v2 :=
         exec (startAnswered ls ps
                 (Wire.answerOf
                    (mkResponse 200
                       (Started (lit "Script started")
                          (configSent path_join dir first ps))))) v1 in
       App.isRunning v2 = true
       /\ Client.statusMessage (App.session v2) = lit "Job monitoring started".
Proof.
  intros Hd Hs Hr ls ps v1.
  destruct (sendable_filters v Hs) as (Hfl & Hne & Hfp & Hnp).
  fold ls in Hfl, Hne. fold ps in Hfp, Hnp.
  destruct ls as [|first rest] eqn:El; [contradiction|].
  exists first, rest.
  assert (Hn : List.filter nonEmpty (List.map trim ps) <> []).
  { rewrite Hfp. destruct ps; [contradiction | discriminate]. }
  destruct (postStart_accepts LOCALAPPDATA path_join
              (Wire.startRequestOf (first :: rest) ps) (first :: rest) ps first rest dir srv
              Hd eq_refl eq_refl Hr Hfl Hn) as (srv' & Hp & Hw).
  assert (Ec : configOf path_join dir first ps = configSent path_join dir first ps).
  { unfold configOf, configSent. now rewrite Hfp. }
  rewrite Ec in Hp, Hw. exists srv'.
  split; [reflexivity|]. split.
  - subst v1. rewrite (AppProofs.startMonitoring_requests toLocaleTimeString), Hs.
    now rewrite <- El.
  - split; [exact Hp|]. split; [exact Hw|]. split; reflexivity.
Qed.

(** The answers of the start route. *)
Lemma postStart_outcomes req srv r srv' :
  postStart req srv = (Normal r, srv') ->
  (srv' = srv /\ (r = invalidFormat \/ r = alreadyRunning \/ r = invalidInput))
  \/ (exists config,
        r = mkResponse 200 (Started (lit "Script started") config)
        /\ worker srv' = mkWorker true (config :: launched (worker srv))).
Proof.
  intros H.
  destruct (links req) as [ls|] eqn:El;
    [|rewrite postStart_not_arrays in H by (now left); injection H as <- <-; auto].
  destruct (positions req) as [ps|] eqn:Ep;
    [|rewrite postStart_not_arrays in H by (now right); injection H as <- <-; auto].
  destruct (isRunning (worker srv)) eqn:Er;
    [rewrite (postStart_running _ _ req ls ps) in H by assumption;
     injection H as <- <-; auto|].
  destruct (List.filter acceptsLink ls) as [|first rest] eqn:Ef;
    [rewrite (postStart_nothing_valid _ _ req ls ps) in H by (auto);
     injection H as <- <-; auto|].
  destruct (List.filter nonEmpty (List.map trim ps)) as [|p0 pt] eqn:En;
    [rewrite (postStart_nothing_valid _ _ req ls ps) in H by (auto);
     injection H as <- <-; auto|].
  assert (Hn : List.filter nonEmpty (List.map trim ps) <> []) by (now rewrite En).
  assert (Hd : (exists dir, LOCALAPPDATA = Some dir) \/ LOCALAPPDATA = None)
    by (destruct LOCALAPPDATA; eauto).
  destruct Hd as [[dir Hd]|Hd].
  - destruct (postStart_accepts LOCALAPPDATA path_join req ls ps first rest dir srv
                Hd El Ep Er Ef Hn)
      as (s1 & Hs1 & Hw).
    rewrite Hs1 in H. injection H as <- <-. right. eauto.
  - destruct (postStart_no_appdata LOCALAPPDATA path_join req ls ps first rest srv
                Hd El Ep Er Ef Hn)
      as (e & He).
    rewrite He in H. discriminate.
Qed.

(** X29. The component shows the monitor as running after a start
    request only if the backend started the worker: every answer of the
    start route is either 200, with the worker started, or 400, with the
    process as it was; on a 400 the component leaves its run state alone
    and shows the message of the backend after 'Error: '. *)
Theorem start_answer_shown_faithfully req srv r srv' ls ps v :
  postStart req srv = (Normal r, srv') ->
  let v' := exec (startAnswered ls ps (Wire.answerOf r)) v in
  (status r = 200 /\ isRunning (worker srv') = true /\ App.isRunning v' = true)
  \/ (status r = 400 /\ srv' = srv /\ App.isRunning v' = App.isRunning v
      /\ exists m, body r = Message m
           /\ Client.statusMessage (App.session v') = lit "Error: " ++ m).
Proof.
  intros H v'. subst v'.
  destruct (postStart_outcomes req srv r srv' H)
    as [[-> [->| [->| ->]]]|(config & -> & Hw)].
  - right. repeat split. now eexists.
  - right. repeat split. now eexists.
  - right. repeat split. now eexists.
  - left. rewrite Hw. now repeat split.
Qed.

(** X30. A stop request of the component and the backend: while the
    worker runs, the route answers 200 and stops it, and the component
    shows the monitor as stopped; while no worker runs, the route answers
    400 and changes nothing, and the component keeps the run state it
    showed, under the message 'Error: Script is not running'. *)
Theorem stop_click_round_trip srv v :
  let v1 := exec stopMonitoring v in
  App.requests v1 = App.requests v ++ [App.PostStop]
  /\ exists r,
      fst (postStop srv) = Normal r
      /\ let srv' := exec postStop srv in
         let v2 := exec (stopAnswered (Wire.answerOf r)) v1 in
         if isRunning (worker srv) then
           status r = 200 /\ isRunning (worker srv') = false
           /\ App.isRunning v2 = false
           /\ Client.statusMessage (App.session v2) = lit "Job monitoring stopped"
         else
           status r = 400 /\ srv' = srv
           /\ App.isRunning v2 = App.isRunning v
           /\ Client.statusMessage (App.session v2)
              = lit "Error: Script is not running".
Proof.
  intros v1. split; [reflexivity|].
  destruct (isRunning (worker srv)) eqn:Er.
  - exists (mkResponse 200 (Message (lit "Script stopped"))).
    assert (E : postStop srv =
                (Normal (mkResponse 200 (Message (lit "Script stopped"))),
                 exec (broadcastLog (VStr stoppedText))
                   (withWorker (mkWorker false (launched (worker srv))) srv))).
    { unfold postStop, isJobMonitorRunning, stopMonitoringJobs.
      unfold mbind at 1, eff_bind at 1, gets. rewrite Er. cbn [negb].
      unfold mbind, eff_bind, modify, mret, eff_ret. fold stoppedText.
      now rewrite broadcastLog_run. }
    unfold exec at 1. rewrite E. cbn [fst snd]. split; [reflexivity|].
    rewrite worker_broadcastLog. now repeat split.
  - exists notRunning. unfold exec at 1. rewrite postStop_idle by exact Er.
    now repeat split.
Qed.

End Exchange.

(** *** One component and one backend *)

Lemma published_messages_reach_the_log_witness :
  (NoDup (clients twoSubscribers) /\ 1%nat ∈ clients twoSubscribers
   /\ heap twoSubscribers !! 1%nat = Some (openSocket None)
   /\ takesFrames (openSocket None) = true)
  /\ List.map Client.message
       (Client.logs
          (Client.run ClientNotions.clock ClientNotions.browserGlobals
             (List.map SessionNotions.receive
                (List.map (fun m => LogFrame (logText m))
                   [VStr (lit "job found"); VStr []; VStr (lit "applied")]))
             Client.initial))
     = List.map Client.message (Client.logs Client.initial)
       ++ List.filter (fun text => negb (isNil text))
            (List.map logText [VStr (lit "job found"); VStr []; VStr (lit "applied")]).
Proof.
  assert (Hin : 1%nat ∈ clients twoSubscribers)
    by (apply (bool_decide_unpack _); reflexivity).
  split; [repeat split; [exact twoSubscribers_NoDup | exact Hin]|].
  exact (proj2 (published_messages_reach_the_log None joinBackslash ClientNotions.clock
                  ClientNotions.browserGlobals
                  [VStr (lit "job found"); VStr []; VStr (lit "applied")]
                  twoSubscribers 1%nat (openSocket None) Client.initial
                  twoSubscribers_NoDup Hin eq_refl eq_refl)).
Defined.

Lemma start_click_starts_the_worker_witness :
  (Some appData = Some appData /\ sendable filled = true
   /\ isRunning (worker initial) = false)
  /\ exists first rest srv',
      List.filter App.nonBlank (App.jobLinks filled) = first :: rest
      /\ first = lit "https://hiring.amazon.com/a"
      /\ postStart (Some appData) joinBackslash
           (Wire.startRequestOf (List.filter App.nonBlank (App.jobLinks filled))
              (List.filter App.nonBlank (App.positions filled))) initial =
           (Normal (mkResponse 200
                      (Started (lit "Script started")
                         (configSent joinBackslash appData first
                            (List.filter App.nonBlank (App.positions filled))))),
            srv')
      /\ TARGET_JOBS (configSent joinBackslash appData first
                        (List.filter App.nonBlank (App.positions filled)))
         = [lit "Warehouse Associate"].
Proof.
  assert (Hs : sendable filled = true) by (vm_compute; reflexivity).
  split; [repeat split; exact Hs|].
  destruct (start_click_starts_the_worker (Some appData) joinBackslash ClientNotions.clock
              appData
              filled initial eq_refl Hs eq_refl)
    as (first & rest & srv' & Hf & _ & Hp & _).
  exists first, rest, srv'. split; [exact Hf|].
  split; [now injection Hf as <- _|]. split; [exact Hp | reflexivity].
Defined.

Lemma start_answer_shown_faithfully_witness :
  postStart (Some appData) joinBackslash goodRequest twoWatching
    = (Normal alreadyRunning, twoWatching)
  /\ App.isRunning
       (exec (App.startAnswered ClientNotions.clock [lit "https://hiring.amazon/x"] [lit "Engineer"]
                (Wire.answerOf alreadyRunning)) App.initial) = false
  /\ Client.statusMessage
       (App.session
          (exec (App.startAnswered ClientNotions.clock [lit "https://hiring.amazon/x"] [lit "Engineer"]
                   (Wire.answerOf alreadyRunning)) App.initial))
     = lit "Error: Script is already running".
Proof.
  assert (H : postStart (Some appData) joinBackslash goodRequest twoWatching
              = (Normal alreadyRunning, twoWatching)) by reflexivity.
  split; [exact H|].
  destruct (start_answer_shown_faithfully (Some appData) joinBackslash ClientNotions.clock
              goodRequest twoWatching alreadyRunning twoWatching
              [lit "https://hiring.amazon/x"] [lit "Engineer"] App.initial H)
    as [(H2 & _)|(_ & _ & Hr & m & Hb & Hm)]; [discriminate H2|].
  split; [exact Hr|]. injection Hb as <-. exact Hm.
Defined.

Example stop_click_on_idle_backend :
  Client.statusMessage
    (App.session
       (exec (App.stopAnswered ClientNotions.clock (Wire.answerOf notRunning))
          (exec (App.stopMonitoring ClientNotions.clock) App.initial)))
  = lit "Error: Script is not running".
Proof. vm_compute. reflexivity. Qed.

End WireProofs.
